(** * vox: a shallow embedding of the MagicaVoxel [.vox] reader

    The development follows the Go package [vox]:
    - [Matrix3x3]: the 8-bit rotation code, its decoding, product and
      inverse table;
    - [DenseWorld]: a dense voxel grid and [DenseWorldFromModel];
    - [voxReader]: the latched-error byte reader;
    - the chunk decoders, [parseMainChunks], [buildScene] and [Parse].

    Go's [uint8], [int32] and [int] (64 bits) are integers of [Z] with the
    wrap-around written out where the source computes with them. *)

From Stdlib Require Import String Ascii.
From Stdlib Require Import Init.Byte.
From Stdlib Require Import ZArith List Lia Bool.
Import ListNotations.
Local Open Scope Z_scope.

(** ** Machine integers *)

Definition is_uint8 (z : Z) : Prop := 0 <= z < 256.
Definition is_int32 (z : Z) : Prop := - 2 ^ 31 <= z < 2 ^ 31.
Definition is_int (z : Z) : Prop := - 2 ^ 63 <= z < 2 ^ 63.

Definition MaxInt64 : Z := 2 ^ 63 - 1.
Definition MinInt64 : Z := - 2 ^ 63.

(** [uint8] arithmetic wraps modulo 2^8. *)
Definition wrap8 (z : Z) : Z := z mod 2 ^ 8.

(** [int32(u)] for a [uint32] value [u]: two's complement. *)
Definition wrap32 (z : Z) : Z := (z + 2 ^ 31) mod 2 ^ 32 - 2 ^ 31.

(** Go's [int] on the 64-bit platforms the package compiles for (it uses
    [math.MaxInt64] as an [int]): two's complement, wrapping silently. *)
Definition wrap64 (z : Z) : Z := (z + 2 ^ 63) mod 2 ^ 64 - 2 ^ 63.

Definition int_add (a b : Z) : Z := wrap64 (a + b).
Definition int_sub (a b : Z) : Z := wrap64 (a - b).
Definition int_mul (a b : Z) : Z := wrap64 (a * b).
Definition int_neg (a : Z) : Z := wrap64 (- a).
(** Go's [/] truncates toward zero; [MinInt64 / -1] wraps. *)
Definition int_quot (a b : Z) : Z := wrap64 (Z.quot a b).

(** [for i := 0; i < n; i++]: the values the loop variable takes. *)
Definition upto (n : nat) : list Z := map Z.of_nat (seq 0 n).

(** ** Fixed-size arrays [[3]int] *)

Definition vec3 : Type := Z * Z * Z.

Definition vget (v : vec3) (i : Z) : Z :=
  let '(a, b, c) := v in
  if i =? 0 then a else if i =? 1 then b else c.

Definition vset (v : vec3) (i : Z) (x : Z) : vec3 :=
  let '(a, b, c) := v in
  if i =? 0 then (x, b, c) else if i =? 1 then (a, x, c) else (a, b, x).

(** ** Matrix3x3: the encoded rotation *)

Definition Matrix3x3 : Type := Z.

Definition Matrix3x3Identity : Matrix3x3 := 4.

Definition eqm3 (a : Z) (b : Matrix3x3) : Z :=
  if a =? b then 1 else 0.

Definition signm3 (x : Matrix3x3) : Z :=
  if x =? 0 then 1 else -1.

Definition Valid (m : Matrix3x3) : bool :=
  let one1 := Z.land m 3 in
  let one2 := Z.land (Z.shiftr m 2) 3 in
  (Z.land m 128 =? 0) && negb (one1 =? one2)
  && negb (one1 =? 3) && negb (one2 =? 3).

(** [Get m i j]: row [i], column [j] of the decoded matrix.  The column of
    the third row is computed in [uint8], hence the [wrap8]. *)
Definition Get (m : Matrix3x3) (i j : Z) : Z :=
  if i =? 0 then
    eqm3 j (Z.land m 3) * signm3 (Z.land (Z.shiftr m 4) 1)
  else if i =? 1 then
    eqm3 j (Z.land (Z.shiftr m 2) 3) * signm3 (Z.land (Z.shiftr m 5) 1)
  else
    eqm3 j (wrap8 (3 - Z.land m 3 - Z.land (Z.shiftr m 2) 3))
    * signm3 (Z.land (Z.shiftr m 6) 1).

Definition Mul (a b : Matrix3x3) : Matrix3x3 :=
  fold_left (fun r i =>
    fold_left (fun r j =>
      fold_left (fun r k =>
        let x := Get a i j * Get b j k in
        if x =? 0 then r
        else
          let r := if x <? 0 then Z.lor r (wrap8 (Z.shiftl 1 (i + 4))) else r in
          if i <? 2 then Z.lor r (wrap8 (Z.shiftl k (2 * i))) else r)
        (upto 3) r)
      (upto 3) r)
    (upto 3) 0.

Definition MulVec (m : Matrix3x3) (x : vec3) : vec3 :=
  fold_left (fun r i =>
    fold_left (fun r j =>
      vset r i (int_add (vget r i) (int_mul (Get m i j) (vget x j))))
      (upto 3) r)
    (upto 3) (0, 0, 0).

(** The table [matInverses [128]Matrix3x3], zero-initialised. *)
Definition table_set (t : list Matrix3x3) (i : Z) (x : Matrix3x3) : list Matrix3x3 :=
  firstn (Z.to_nat i) t ++ x :: skipn (S (Z.to_nat i)) t.

(** The package's [init]: for each valid [m] the table keeps the last valid
    [r] with [m.Mul(r) == 0x04]. *)
Definition init (t0 : list Matrix3x3) : list Matrix3x3 :=
  fold_left (fun t m =>
    if negb (Valid m) then t
    else
      fold_left (fun t r =>
        if negb (Valid r) then t
        else if Mul m r =? 4 then table_set t m r else t)
        (upto 128) t)
    (upto 128) t0.

Definition matInverses : list Matrix3x3 :=
  Eval vm_compute in init (repeat 0 128).

Definition Inverse (m : Matrix3x3) : Matrix3x3 :=
  if m >=? 128 then 0 else nth (Z.to_nat m) matInverses 0.

(** The test helper [vecSeemsPlausible]: [b] is a permutation of [a],
    possibly with sign changes ([-b] is Go's wrapping negation). *)
Definition abseq (a b : Z) : bool := (a =? b) || (a =? int_neg b).

Definition vecSeemsPlausible (a b : vec3) : bool :=
  existsb (fun i =>
    existsb (fun j2 =>
      let j := if j2 >=? i then j2 + 1 else j2 in
      let k := 3 - i - j in
      abseq (vget a 0) (vget b i) && abseq (vget a 1) (vget b j)
      && abseq (vget a 2) (vget b k))
      (upto 2))
    (upto 3).

(** ** Errors, panics and results *)

Definition bytes : Type := list byte.

(** A Go string literal as the bytes it holds. *)
Definition lit (s : string) : bytes := list_byte_of_string s.

Definition byte_val (b : byte) : Z := Z.of_N (Byte.to_N b).

Fixpoint bytes_eqb (a b : bytes) : bool :=
  match a, b with
  | [], [] => true
  | x :: a', y :: b' => Byte.eqb x y && bytes_eqb a' b'
  | _, _ => false
  end.

(** The operands of a [fmt.Errorf] call. *)
#[local] Set Warnings "-register-all".
Inductive fmtarg (E : Type) : Type :=
| AInt (z : Z)
| AStr (s : bytes)
| AStrs (l : list bytes)
| AVec (v : vec3)
| AErr (e : E).
Arguments AInt {E} z.
Arguments AStr {E} s.
Arguments AStrs {E} l.
Arguments AVec {E} v.
Arguments AErr {E} e.

(** [io.EOF] and [io.ErrUnexpectedEOF] are sentinel values the code compares
    against; every other error is a [fmt.Errorf] with its format and
    operands. *)
Inductive error : Type :=
| EOF
| ErrUnexpectedEOF
| Errorf (format : string) (args : list (fmtarg error)).

Definition is_EOF (e : error) : bool :=
  match e with EOF => true | _ => false end.

(** Run-time panics of the Go runtime.  [FuelExhausted] is not a Go panic:
    it is what a fuelled loop of this development answers when its fuel
    runs out. *)
Inductive panic : Type :=
| IndexOutOfRange (i len : Z)
| MakeSliceLen (n : Z)
| NilDereference
| FuelExhausted.

(** A call either returns or panics. *)
Inductive exec (A : Type) : Type :=
| Done (a : A)
| Panicked (p : panic).
Arguments Done {A} a.
Arguments Panicked {A} p.

Definition exec_bind {A B} (m : exec A) (k : A -> exec B) : exec B :=
  match m with
  | Done a => k a
  | Panicked p => Panicked p
  end.

(** A Go function returning [(T, error)] whose value is dropped by the
    callers when the error is set. *)
Inductive result (A : Type) : Type :=
| Ok (a : A)
| Err (e : error)
| Panic (p : panic).
Arguments Ok {A} a.
Arguments Err {A} e.
Arguments Panic {A} p.

Definition result_bind {A B} (m : result A) (k : A -> result B) : result B :=
  match m with
  | Ok a => k a
  | Err e => Err e
  | Panic p => Panic p
  end.

Declare Scope go_scope.
Delimit Scope go_scope with go.
Notation "x <- m ;; k" := (result_bind m (fun x => k))
  (at level 61, m at next level, right associativity) : go_scope.
Notation "' p <- m ;; k" := (result_bind m (fun p => k))
  (at level 61, p pattern, m at next level, right associativity) : go_scope.

(** Slice indexing [s[i]] and assignment [s[i] = x], with the bounds check
    of the runtime. *)
Definition index_get {A} (s : list A) (i : Z) : exec A :=
  if (i <? 0) || (Z.of_nat (length s) <=? i) then
    Panicked (IndexOutOfRange i (Z.of_nat (length s)))
  else
    match nth_error s (Z.to_nat i) with
    | Some a => Done a
    | None => Panicked (IndexOutOfRange i (Z.of_nat (length s)))
    end.

Definition list_set {A} (s : list A) (n : nat) (x : A) : list A :=
  firstn n s ++ x :: skipn (S n) s.

Definition index_set {A} (s : list A) (i : Z) (x : A) : exec (list A) :=
  if (i <? 0) || (Z.of_nat (length s) <=? i) then
    Panicked (IndexOutOfRange i (Z.of_nat (length s)))
  else Done (list_set s (Z.to_nat i) x).

(** [make([]T, n)] filled with the zero value [z]. *)
Definition make {A} (z : A) (n : Z) : exec (list A) :=
  if n <? 0 then Panicked (MakeSliceLen n)
  else Done (repeat z (Z.to_nat n)).

(** ** The data model (vox.go) *)

Record Voxel : Type := mkVoxel {
  Voxel_X : Z; Voxel_Y : Z; Voxel_Z : Z;
  ColorIndex : Z
}.

Record Model : Type := mkModel {
  Model_X : Z; Model_Y : Z; Model_Z : Z;
  Model_V : list Voxel
}.

Record TransformFrame : Type := mkTransformFrame {
  R : Matrix3x3;
  T : vec3
}.

(** ** DenseWorld *)

Record DenseWorld : Type := mkDenseWorld {
  Min : vec3;
  Max : vec3;
  Voxels : list Z
}.

Definition NewDenseWorld (min max : vec3) : result DenseWorld :=
  if (vget max 0 <? vget min 0) || (vget max 1 <? vget min 1)
     || (vget max 2 <? vget min 2) then
    Err (Errorf "the upper bounds of the cuboid %v must be at least as large as the lower bounds %v"
           [AVec max; AVec min])
  else
    let sx := int_add (int_sub (vget max 0) (vget min 0)) 1 in
    let sy := int_add (int_sub (vget max 1) (vget min 1)) 1 in
    let sz := int_add (int_sub (vget max 2) (vget min 2)) 1 in
    match make 0 (int_mul (int_mul sx sy) sz) with
    | Done vs => Ok (mkDenseWorld min max vs)
    | Panicked p => Panic p
    end.

Definition MaterialIndex (d : DenseWorld) (c : vec3) : exec (Z * bool) :=
  let SX := int_add (int_sub (vget (Max d) 0) (vget (Min d) 0)) 1 in
  let SY := int_add (int_sub (vget (Max d) 1) (vget (Min d) 1)) 1 in
  let SZ := int_add (int_sub (vget (Max d) 2) (vget (Min d) 2)) 1 in
  let x := int_sub (vget c 0) (vget (Min d) 0) in
  let y := int_sub (vget c 1) (vget (Min d) 1) in
  let z := int_sub (vget c 2) (vget (Min d) 2) in
  if (x <? 0) || (x >=? SX) || (y <? 0) || (y >=? SY) || (z <? 0) || (z >=? SZ)
  then Done (0, false)
  else
    exec_bind
      (index_get (Voxels d)
         (int_add (int_add (int_mul z (int_mul SX SY)) (int_mul y SX)) x))
      (fun v => Done (v, true)).

(** [SetMaterialIndex] mutates the world: the new world comes back with the
    reported success. *)
Definition SetMaterialIndex (d : DenseWorld) (c : vec3) (matIdx : Z)
  : exec (DenseWorld * bool) :=
  let SX := int_add (int_sub (vget (Max d) 0) (vget (Min d) 0)) 1 in
  let SY := int_add (int_sub (vget (Max d) 1) (vget (Min d) 1)) 1 in
  let SZ := int_add (int_sub (vget (Max d) 2) (vget (Min d) 2)) 1 in
  let x := int_sub (vget c 0) (vget (Min d) 0) in
  let y := int_sub (vget c 1) (vget (Min d) 1) in
  let z := int_sub (vget c 2) (vget (Min d) 2) in
  if (x <? 0) || (x >=? SX) || (y <? 0) || (y >=? SY) || (z <? 0) || (z >=? SZ)
  then Done (d, false)
  else
    exec_bind
      (index_set (Voxels d)
         (int_add (int_add (int_mul z (int_mul SX SY)) (int_mul y SX)) x)
         matIdx)
      (fun vs => Done (mkDenseWorld (Min d) (Max d) vs, true)).

Definition addVec (a b : vec3) : vec3 :=
  (int_add (vget a 0) (vget b 0),
   int_add (vget a 1) (vget b 1),
   int_add (vget a 2) (vget b 2)).

Definition abs (x : Z) : Z :=
  if x <? 0 then int_neg x else x.

(** The corner of the model that maps to the smallest point. *)
Definition minCornerOf (mat : Matrix3x3) (m : Model) : vec3 :=
  fold_left (fun minCorner i =>
    fold_left (fun minCorner j =>
      fold_left (fun minCorner k =>
        let x := (int_mul i (int_sub (Model_X m) 1),
                  int_mul j (int_sub (Model_Y m) 1),
                  int_mul k (int_sub (Model_Z m) 1)) in
        let mx := MulVec mat x in
        if (vget mx 0 <=? vget minCorner 0) && (vget mx 1 <=? vget minCorner 1)
           && (vget mx 2 <=? vget minCorner 2)
        then mx else minCorner)
        (upto 2) minCorner)
      (upto 2) minCorner)
    (upto 2) (MaxInt64, MaxInt64, MaxInt64).

(** The loop over [m.V]: every voxel is rotated, shifted and stored. *)
Fixpoint place_voxels (mat : Matrix3x3) (trn min max : vec3)
    (vs : list Voxel) (dw : DenseWorld) : result DenseWorld :=
  match vs with
  | [] => Ok dw
  | vox :: rest =>
      let voxLoc := (Voxel_X vox, Voxel_Y vox, Voxel_Z vox) in
      let rv := addVec (MulVec mat voxLoc) trn in
      match SetMaterialIndex dw rv (ColorIndex vox) with
      | Panicked p => Panic p
      | Done (dw', ok) =>
          if negb ok then
            Err (Errorf "rotation/translation is messed up. %x * %v = %v, out of bounds %v, %v"
                   [AInt mat; AVec voxLoc; AVec rv; AVec min; AVec max])
          else place_voxels mat trn min max rest dw'
      end
  end.

Definition DenseWorldFromModel (tf : TransformFrame) (m : Model)
  : result DenseWorld :=
  let mat := R tf in
  let v := (Model_X m, Model_Y m, Model_Z m) in
  let mv := MulVec mat v in
  let mv := vset mv 0 (int_sub (abs (vget mv 0)) 1) in
  let mv := vset mv 1 (int_sub (abs (vget mv 1)) 1) in
  let mv := vset mv 2 (int_sub (abs (vget mv 2)) 1) in
  let min := (int_neg (int_quot (vget mv 0) 2),
              int_neg (int_quot (vget mv 1) 2),
              int_neg (int_quot (vget mv 2) 2)) in
  let max := (int_add (vget mv 0) (vget min 0),
              int_add (vget mv 1) (vget min 1),
              int_add (vget mv 2) (vget min 2)) in
  let T := (vget (T tf) 0, vget (T tf) 1, vget (T tf) 2) in
  let min := addVec min T in
  let max := addVec max T in
  (dw <- NewDenseWorld min max ;;
   let minCorner := minCornerOf mat m in
   let trn := (int_sub (vget min 0) (vget minCorner 0),
               int_sub (vget min 1) (vget minCorner 1),
               int_sub (vget min 2) (vget minCorner 2)) in
   place_voxels mat trn min max (Model_V m) dw)%go.

(** The number of non-empty cells of a grid. *)
Definition count_nonzero (vs : list Z) : Z :=
  Z.of_nat (length (filter (fun c => negb (c =? 0)) vs)).

(** ** voxReader: the latched-error reader *)

(** [r] holds the bytes the underlying [io.Reader] still has to deliver;
    [err] is the latched error. *)
Record voxReader : Type := mkReader {
  r : bytes;
  err : option error
}.

Definition newReader (c : bytes) : voxReader := mkReader c None.

(** Go's [io.ReadFull(r, buf)] on a reader that delivers [src], for a
    zeroed buffer of [n] bytes: the buffer afterwards, the bytes left in
    the reader and the error.  Nothing is read for [n = 0]; [io.EOF] when
    no byte could be read; [io.ErrUnexpectedEOF] after a partial read, whose
    bytes stay in the buffer. *)
Definition ReadFull (src : bytes) (n : nat) : bytes * bytes * option error :=
  match n with
  | O => ([], src, None)
  | S _ =>
      match src with
      | [] => (repeat x00 n, [], Some EOF)
      | _ :: _ =>
          if (length src <? n)%nat then
            (src ++ repeat x00 (n - length src), [], Some ErrUnexpectedEOF)
          else (firstn n src, skipn n src, None)
      end
  end.

(** Reader actions: the reader is threaded through, a panic aborts. *)
Definition VR (A : Type) : Type := voxReader -> exec (A * voxReader).

Definition vr_ret {A} (a : A) : VR A := fun vr => Done (a, vr).

Definition vr_bind {A B} (m : VR A) (k : A -> VR B) : VR B :=
  fun vr =>
    match m vr with
    | Done (a, vr') => k a vr'
    | Panicked p => Panicked p
    end.

Declare Scope vr_scope.
Delimit Scope vr_scope with vr.
Notation "x <- m ;; k" := (vr_bind m (fun x => k))
  (at level 61, m at next level, right associativity) : vr_scope.
Notation "m ;;; k" := (vr_bind m (fun _ => k))
  (at level 61, right associativity) : vr_scope.

(** [vr.Error()] *)
Definition Error : VR (option error) := fun vr => Done (err vr, vr).

(** [vr.ReadBytes(n)] *)
Definition ReadBytes (n : Z) : VR bytes := fun vr =>
  match make x00 n with
  | Panicked p => Panicked p
  | Done zeros =>
      match err vr with
      | Some _ => Done (zeros, vr)
      | None =>
          let '(buf, rest, e) := ReadFull (r vr) (Z.to_nat n) in
          Done (buf, mkReader rest e)
      end
  end.

(** [vr.ReadUint8()] *)
Definition ReadUint8 : VR Z :=
  (b <- ReadBytes 1 ;; vr_ret (byte_val (nth 0 b x00)))%vr.

(** [vr.ReadInt32()]: little endian, two's complement. *)
Definition ReadInt32 : VR Z :=
  (b <- ReadBytes 4 ;;
   let u := byte_val (nth 0 b x00)
            + Z.shiftl (byte_val (nth 1 b x00)) 8
            + Z.shiftl (byte_val (nth 2 b x00)) 16
            + Z.shiftl (byte_val (nth 3 b x00)) 24 in
   vr_ret (wrap32 (u mod 2 ^ 32)))%vr.

(** [vr.RequireEOF(label)]: the body is the source's [RequireEOF]; the
    callers in parse.go pass the chunk name, which tags the error. *)
Definition RequireEOF (label : string) : VR unit := fun vr =>
  match err vr with
  | Some _ => Done (tt, vr)
  | None =>
      match ReadUint8 vr with
      | Panicked p => Panicked p
      | Done (_, vr') =>
          match err vr' with
          | None =>
              Done (tt, mkReader (r vr')
                          (Some (Errorf "expected EOF, but found at least one more byte"
                                   [AStr (lit label)])))
          | Some e =>
              if is_EOF e then Done (tt, mkReader (r vr') None)
              else Done (tt, vr')
          end
      end
  end.

(** [vr.ReadString()] *)
Definition ReadString : VR bytes :=
  (n <- ReadInt32 ;; ReadBytes n)%vr.

(** Go maps as association lists with unique keys, in insertion order.
    Go leaves the iteration order of a map unspecified: what is proved
    about a loop over a map below is proved for every order of its
    entries. *)
Section AssocList.
Context {K V : Type} (eqb : K -> K -> bool).

Fixpoint map_lookup (m : list (K * V)) (k : K) : option V :=
  match m with
  | [] => None
  | (k', v) :: m' => if eqb k k' then Some v else map_lookup m' k
  end.

Fixpoint map_insert (m : list (K * V)) (k : K) (v : V) : list (K * V) :=
  match m with
  | [] => [(k, v)]
  | (k', v') :: m' =>
      if eqb k k' then (k, v) :: m' else (k', v') :: map_insert m' k v
  end.

Definition map_mem (m : list (K * V)) (k : K) : bool :=
  match map_lookup m k with Some _ => true | None => false end.
End AssocList.

(** ** dict *)

Record dict : Type := mkDict {
  d : list (bytes * bytes);
  read : list (bytes * bool);
  derr : option error
}.

(** [vr.ReadDict()]: the loop body runs [n] times whatever the reader's
    state. *)
Fixpoint ReadDict_loop (n : nat) (dd : list (bytes * bytes))
  : VR (list (bytes * bytes)) :=
  match n with
  | O => vr_ret dd
  | S n' =>
      (key <- ReadString ;;
       val <- ReadString ;;
       ReadDict_loop n' (map_insert bytes_eqb dd key val))%vr
  end.

Definition ReadDict : VR dict :=
  (n <- ReadInt32 ;;
   dd <- ReadDict_loop (Z.to_nat n) [] ;;
   e <- Error ;;
   vr_ret (mkDict dd [] e))%vr.

(** [d.Error()] *)
Definition dict_Error (dc : dict) : option error := derr dc.

(** [d.AssertNoUnreadFields()] *)
Definition AssertNoUnreadFields (dc : dict) : option error :=
  let uk := filter (fun k =>
                      negb (match map_lookup bytes_eqb (read dc) k with
                            | Some b => b
                            | None => false
                            end))
                   (map fst (d dc)) in
  if negb (length uk =? 0)%nat then
    Some (Errorf "unknown field[s] in dict: %s" [AStrs uk])
  else None.

Definition mark_read (dc : dict) (name : bytes) : dict :=
  mkDict (d dc) (map_insert bytes_eqb (read dc) name true) (derr dc).

(** [d.ReadString(name, def)] *)
Definition dict_ReadString (dc : dict) (name : string) (def : bytes)
  : bytes * dict :=
  let dc := mark_read dc (lit name) in
  match derr dc with
  | Some _ => (def, dc)
  | None =>
      match map_lookup bytes_eqb (d dc) (lit name) with
      | None => (def, dc)
      | Some v => (v, dc)
      end
  end.

(** Go's [float32] and [strconv.ParseFloat] belong to the language and its
    library: the decoders take them as an interface.  [ParseFloat32 s] is
    [float32(f)] and the error of [strconv.ParseFloat(s, 32)]. *)
Class Float32Ops : Type := {
  float32 : Type;
  f32_of_Z : Z -> float32;
  f32_mul : float32 -> float32 -> float32;
  f32_add : float32 -> float32 -> float32;
  f32_eqb : float32 -> float32 -> bool;
  ParseFloat32 : bytes -> float32 * option error
}.

(** Decimal integers, for the two dict accessors below. *)
Definition digit_of (b : byte) : option Z :=
  let n := byte_val b in
  if (48 <=? n) && (n <=? 57) then Some (n - 48) else None.

Fixpoint parse_digits (acc : Z) (s : bytes) : option Z :=
  match s with
  | [] => Some acc
  | b :: s' =>
      match digit_of b with
      | Some dg => parse_digits (10 * acc + dg) s'
      | None => None
      end
  end.

Definition parse_decimal (s : bytes) : option Z :=
  match s with
  | [] => None
  | b :: s' =>
      if Byte.eqb b "-"%byte then
        match s' with
        | [] => None
        | _ => option_map Z.opp (parse_digits 0 s')
        end
      else parse_digits 0 s
  end.

(** [strings.Split(s, sep)] for a one-byte separator. *)
Fixpoint split_on (sep : byte) (cur : bytes) (s : bytes) : list bytes :=
  match s with
  | [] => [rev cur]
  | b :: s' =>
      if Byte.eqb b sep then rev cur :: split_on sep [] s'
      else split_on sep (b :: cur) s'
  end.

Section Decoders.
Context {F : Float32Ops}.

(** [d.ReadFloat(name, def)] *)
Definition dict_ReadFloat (dc : dict) (name : string) (def : float32)
  : float32 * dict :=
  let dc := mark_read dc (lit name) in
  match derr dc with
  | Some _ => (def, dc)
  | None =>
      match map_lookup bytes_eqb (d dc) (lit name) with
      | None => (def, dc)
      | Some v =>
          let '(f, e) := ParseFloat32 v in
          match e with
          | Some e =>
              (f, mkDict (d dc) (read dc)
                    (Some (Errorf "error parsing float %q in field %q: %v"
                             [AStr v; AStr (lit name); AErr e])))
          | None => (f, dc)
          end
      end
  end.

(** [d.ReadBool(name, def)] *)
Definition dict_ReadBool (dc : dict) (name : string) (def : bool)
  : bool * dict :=
  let df := if def then f32_of_Z 1 else f32_of_Z 0 in
  let '(f, dc) := dict_ReadFloat dc name df in
  (negb (f32_eqb f (f32_of_Z 0)), dc).

(** Modelled from the spec: [d.ReadMatrix3x3(name, def)] is not among the
    sources.  The spec gives [_r] as a rotation code with the identity as
    its default; as the other accessors do, it marks the key read, answers
    the default when the dict has an error or lacks the key, and latches
    an error when the value does not parse as a decimal [uint8]. *)
Definition dict_ReadMatrix3x3 (dc : dict) (name : string) (def : Matrix3x3)
  : Matrix3x3 * dict :=
  let dc := mark_read dc (lit name) in
  match derr dc with
  | Some _ => (def, dc)
  | None =>
      match map_lookup bytes_eqb (d dc) (lit name) with
      | None => (def, dc)
      | Some v =>
          match parse_decimal v with
          | Some z =>
              if (0 <=? z) && (z <? 256) then (z, dc)
              else (def, mkDict (d dc) (read dc)
                           (Some (Errorf "error parsing matrix %q in field %q"
                                    [AStr v; AStr (lit name)])))
          | None =>
              (def, mkDict (d dc) (read dc)
                      (Some (Errorf "error parsing matrix %q in field %q"
                               [AStr v; AStr (lit name)])))
          end
      end
  end.

(** Modelled from the spec: [d.Read3xInt32(name, def)] is not among the
    sources.  The spec gives [_t] as three comma-joined decimal integers
    with default [{0,0,0}]. *)
Definition dict_Read3xInt32 (dc : dict) (name : string) (def : vec3)
  : vec3 * dict :=
  let dc := mark_read dc (lit name) in
  match derr dc with
  | Some _ => (def, dc)
  | None =>
      match map_lookup bytes_eqb (d dc) (lit name) with
      | None => (def, dc)
      | Some v =>
          let bad := mkDict (d dc) (read dc)
                       (Some (Errorf "error parsing 3 ints %q in field %q"
                                [AStr v; AStr (lit name)])) in
          match map parse_decimal (split_on ","%byte [] v) with
          | [Some a; Some b; Some c] =>
              if (- 2 ^ 31 <=? a) && (a <? 2 ^ 31)
                 && (- 2 ^ 31 <=? b) && (b <? 2 ^ 31)
                 && (- 2 ^ 31 <=? c) && (c <? 2 ^ 31)
              then ((a, b, c), dc) else (def, bad)
          | _ => (def, bad)
          end
      end
  end.

(** ** Scene graph nodes *)

Record Layer : Type := mkLayer {
  Index : Z;
  Layer_Name : bytes;
  Layer_Hidden : bool
}.

Record Node : Type := mkNode {
  Name : bytes;
  Hidden : bool
}.

(** Nodes live on the heap and are referred to by pointer.  Every node is
    allocated by the decoder of its chunk and entered once into
    [sceneIDs] under its id (a second chunk with the same id is refused),
    so the id is the address: a pointer to a node is its id, and
    [sceneIDs] is the heap.  A pointer to a model is its index in
    [models]. *)
Definition ptr : Type := Z.

Inductive AnyNode : Type :=
| TransformNode (n : Node) (layer : option Layer)
    (transforms : list TransformFrame) (child : option ptr)
| GroupNode (n : Node) (children : list ptr)
| ShapeNode (n : Node) (models : list Z).

Record Scene : Type := mkScene {
  Layers : list Layer;
  Scene_Node : option ptr;
  (** the nodes the pointers of the scene refer to *)
  Scene_Heap : list (Z * AnyNode)
}.

Inductive MaterialType : Type :=
| MaterialDiffuse | MaterialMetal | MaterialGlass | MaterialEmissive.

Record RGBA : Type := mkRGBA { cR : Z; cG : Z; cB : Z; cA : Z }.

Record Material : Type := mkMaterial {
  Color : RGBA;
  Type_ : MaterialType;
  Weight : float32;
  Plastic : bool;
  Roughness : float32;
  Specular : float32;
  IOR : float32;
  Attenuation : float32;
  Flux : float32;
  LDR : float32
}.

(** [Material{}] *)
Definition Material_zero : Material :=
  mkMaterial (mkRGBA 0 0 0 0) MaterialDiffuse (f32_of_Z 0) false
    (f32_of_Z 0) (f32_of_Z 0) (f32_of_Z 0) (f32_of_Z 0) (f32_of_Z 0)
    (f32_of_Z 0).

Definition set_Color (m : Material) (c : RGBA) : Material :=
  mkMaterial c (Type_ m) (Weight m) (Plastic m) (Roughness m) (Specular m)
    (IOR m) (Attenuation m) (Flux m) (LDR m).

Record Main : Type := mkMain {
  Models : list Model;
  Materials : list Material;
  Main_Scene : Scene
}.

(** ** parse.go *)

Definition version : Z := 150.

(** [parseChunk]: the id, the contents and the child contents, or the
    reader's error. *)
Definition parseChunk : VR (bytes * bytes * bytes + error) :=
  (id <- ReadBytes 4 ;;
   N <- ReadInt32 ;;
   M <- ReadInt32 ;;
   e <- Error ;;
   match e with
   | Some e => vr_ret (inr e)
   | None =>
       c <- ReadBytes N ;;
       cc <- ReadBytes M ;;
       e <- Error ;;
       match e with
       | Some e => vr_ret (inr e)
       | None => vr_ret (inl (id, c, cc))
       end
   end)%vr.

(** [buildMain]: the loop over [i = 1 .. 255] indexes [mats] and [rgba]. *)
Fixpoint buildMain_loop (idxs : list Z) (rgba : list RGBA)
    (mats : list Material) : exec (list Material) :=
  match idxs with
  | [] => Done mats
  | i :: idxs' =>
      exec_bind (index_get rgba (i - 1)) (fun c =>
      exec_bind (index_get mats i) (fun m =>
      exec_bind (index_set mats i (set_Color m c)) (fun mats' =>
      buildMain_loop idxs' rgba mats')))
  end.

Definition buildMain (models : list Model) (rgba : list RGBA)
    (mats : list Material) (scene : Scene) : result Main :=
  if negb (Z.of_nat (length rgba) =? 256) then
    Err (Errorf "expected 256 palette entries, but found %d"
           [AInt (Z.of_nat (length rgba))])
  else
    match buildMain_loop (map (fun i => i + 1) (upto 255)) rgba mats with
    | Panicked p => Panic p
    | Done mats' => Ok (mkMain models mats' scene)
    end.

(** [addChild]: [*TransformNode] and [*GroupNode] implement
    [addChilder], [*ShapeNode] does not ([None]). *)
Definition addChild (n : AnyNode) (c : ptr) : option (result AnyNode) :=
  match n with
  | TransformNode nd l tfs ch =>
      match ch with
      | Some _ =>
          Some (Err (Errorf "can't add two children nodes to transform node" []))
      | None => Some (Ok (TransformNode nd l tfs (Some c)))
      end
  | GroupNode nd cs => Some (Ok (GroupNode nd (cs ++ [c])))
  | ShapeNode _ _ => None
  end.

Definition is_addChilder (n : AnyNode) : bool :=
  match n with
  | ShapeNode _ _ => false
  | _ => true
  end.

Definition node_type_name (n : AnyNode) : bytes :=
  match n with
  | TransformNode _ _ _ _ => lit "*vox.TransformNode"
  | GroupNode _ _ => lit "*vox.GroupNode"
  | ShapeNode _ _ => lit "*vox.ShapeNode"
  end.

Definition visited_mem (visited : list ptr) (p : ptr) : bool :=
  existsb (Z.eqb p) visited.

(** [nodeCount]: the depth-first count from the node at [p], with the set
    of visited nodes threaded through.  The recursion follows pointers,
    so it is fuelled by the depth. *)
Fixpoint nodeCount (fuel : nat) (heap : list (Z * AnyNode))
    (p : ptr) (visited : list ptr) : result (Z * list ptr) :=
  match fuel with
  | O => Panic FuelExhausted
  | S fuel' =>
      match map_lookup Z.eqb heap p with
      | None => Panic NilDereference
      | Some (TransformNode _ _ _ child) =>
          if visited_mem visited p then Err (Errorf "cycle found" [])
          else
            let visited := p :: visited in
            match child with
            | None => Ok (1, visited)
            | Some c =>
                match nodeCount fuel' heap c visited with
                | Ok (rc, visited') => Ok (int_add 1 rc, visited')
                | Err e => Err e
                | Panic pn => Panic pn
                end
            end
      | Some (GroupNode _ children) =>
          if visited_mem visited p then Err (Errorf "cycle found" [])
          else
            fold_left (fun acc c =>
              match acc with
              | Ok (rr, vis) =>
                  match nodeCount fuel' heap c vis with
                  | Ok (rc, vis') => Ok (int_add rr rc, vis')
                  | Err e => Err e
                  | Panic pn => Panic pn
                  end
              | other => other
              end) children (Ok (1, p :: visited))
      | Some (ShapeNode _ _) =>
          if visited_mem visited p then Err (Errorf "cycle found" [])
          else Ok (1, visited)
      end
  end.

(** [sort.Slice(scene.Layers, ... Index < ...)] *)
Fixpoint insert_layer (l : Layer) (ls : list Layer) : list Layer :=
  match ls with
  | [] => [l]
  | l' :: ls' =>
      if Index l <? Index l' then l :: ls else l' :: insert_layer l ls'
  end.

Definition sort_layers (ls : list Layer) : list Layer :=
  fold_right insert_layer [] ls.

(** The loop of [buildScene] that looks for the root: the transform
    nodes recorded with layer -1. *)
Fixpoint find_top (ids : list (Z * AnyNode)) (sceneLayers : list (Z * Z))
    (top : option ptr) : result (option ptr) :=
  match ids with
  | [] => Ok top
  | (k, v) :: ids' =>
      match v with
      | TransformNode _ _ _ _ =>
          match map_lookup Z.eqb sceneLayers k with
          | Some lid =>
              if lid =? -1 then
                match top with
                | Some _ => Err (Errorf "scene has two root nodes" [])
                | None => find_top ids' sceneLayers (Some k)
                end
              else find_top ids' sceneLayers top
          | None => find_top ids' sceneLayers top
          end
      | _ => find_top ids' sceneLayers top
      end
  end.

(** The inner loop of [buildScene] over the children of node [scid]. *)
Fixpoint add_children (scid : Z) (children : list Z)
    (heap : list (Z * AnyNode)) : result (list (Z * AnyNode)) :=
  match children with
  | [] => Ok heap
  | c :: children' =>
      match map_lookup Z.eqb heap c with
      | None =>
          Err (Errorf "node %d has child %d, but no such node exists"
                 [AInt scid; AInt c])
      | Some _ =>
          match map_lookup Z.eqb heap scid with
          | None => Panic NilDereference
          | Some node =>
              match addChild node c with
              | None => Panic NilDereference
              | Some (Ok node') =>
                  add_children scid children' (map_insert Z.eqb heap scid node')
              | Some (Err e) => Err e
              | Some (Panic pn) => Panic pn
              end
          end
      end
  end.

(** The loop of [buildScene] over [sceneChildrenIDs]. *)
Fixpoint link_children (sceneChildrenIDs : list (Z * list Z))
    (heap : list (Z * AnyNode)) : result (list (Z * AnyNode)) :=
  match sceneChildrenIDs with
  | [] => Ok heap
  | (scid, children) :: rest =>
      match map_lookup Z.eqb heap scid with
      | None =>
          Err (Errorf "node %d has children, but doesn't exist in the scene graph"
                 [AInt scid])
      | Some node =>
          if negb (is_addChilder node) then
            Err (Errorf "node %d has type %T, which we can't add children to"
                   [AInt scid; AStr (node_type_name node)])
          else
            (heap' <- add_children scid children heap ;;
             link_children rest heap')%go
      end
  end.

Definition buildScene (sceneIDs : list (Z * AnyNode))
    (sceneChildrenIDs : list (Z * list Z)) (sceneLayers : list (Z * Z))
    (layerIDs : list (Z * Layer)) : result Scene :=
  let layers := sort_layers (map snd layerIDs) in
  (top <- find_top sceneIDs sceneLayers None ;;
   match top with
   | None => Err (Errorf "failed to find root node in the scene graph" [])
   | Some top =>
       heap <- link_children sceneChildrenIDs sceneIDs ;;
       ' (nc, _) <- nodeCount (S (length heap)) heap top [] ;;
       if negb (nc =? Z.of_nat (length sceneIDs)) then
         Err (Errorf "not all nodes are in scene. %d nodes, but only %d in scene"
                [AInt (Z.of_nat (length sceneIDs)); AInt nc])
       else Ok (mkScene layers (Some top) heap)
   end)%go.

Inductive state : Type :=
| statePack | stateSize | stateXYZI | stateRGBA
| stateSceneGraph | stateLAYR | stateMatt.

Definition state_eqb (a b : state) : bool :=
  match a, b with
  | statePack, statePack | stateSize, stateSize | stateXYZI, stateXYZI
  | stateRGBA, stateRGBA | stateSceneGraph, stateSceneGraph
  | stateLAYR, stateLAYR | stateMatt, stateMatt => true
  | _, _ => false
  end.

(** What a decoder returns from a reader run: a panic, or the value with
    [vr.Error()]. *)
Definition returning {A} (x : exec (A * option error * voxReader))
  : result A :=
  match x with
  | Panicked p => Panic p
  | Done (a, Some e, _) => Err e
  | Done (a, None, _) => Ok a
  end.

Definition fail_if (b : bool) (e : error) : result unit :=
  if b then Err e else Ok tt.

Definition check (e : option error) (wrap : error -> error) : result unit :=
  match e with
  | Some e => Err (wrap e)
  | None => Ok tt
  end.

Definition parsePackChunk (c : bytes) : result Z :=
  returning
    ((n <- ReadInt32 ;;
      RequireEOF "PACK" ;;;
      e <- Error ;;
      vr_ret (n, e))%vr (newReader c)).

Definition parseSizeChunk (c : bytes) : result vec3 :=
  returning
    ((x <- ReadInt32 ;;
      y <- ReadInt32 ;;
      z <- ReadInt32 ;;
      RequireEOF "SIZE" ;;;
      e <- Error ;;
      vr_ret ((x, y, z), e))%vr (newReader c)).

Fixpoint parseXYZI_loop (n : nat) (v : list Voxel) : VR (list Voxel) :=
  match n with
  | O => vr_ret v
  | S n' =>
      (x <- ReadUint8 ;;
       y <- ReadUint8 ;;
       z <- ReadUint8 ;;
       idx <- ReadUint8 ;;
       parseXYZI_loop n' (v ++ [mkVoxel x y z idx]))%vr
  end.

Definition parseXYZIChunk (c : bytes) : result (list Voxel) :=
  returning
    ((N <- ReadInt32 ;;
      v <- parseXYZI_loop (Z.to_nat N) [] ;;
      RequireEOF "XYZI" ;;;
      e <- Error ;;
      vr_ret (v, e))%vr (newReader c)).

Fixpoint parseRGBA_loop (n : nat) (acc : list RGBA) : VR (list RGBA) :=
  match n with
  | O => vr_ret acc
  | S n' =>
      (cr <- ReadUint8 ;;
       cg <- ReadUint8 ;;
       cb <- ReadUint8 ;;
       ca <- ReadUint8 ;;
       parseRGBA_loop n' (acc ++ [mkRGBA cr cg cb ca]))%vr
  end.

(** [parseRGBAChunk] answers its 256 colours together with the reader's
    error: the caller keeps the colours whatever the error. *)
Definition parseRGBAChunk (c : bytes) : exec (list RGBA * option error) :=
  match
    (rr <- parseRGBA_loop 256 [] ;;
     RequireEOF "RGBA" ;;;
     e <- Error ;;
     vr_ret (rr, e))%vr (newReader c)
  with
  | Panicked p => Panicked p
  | Done (x, _) => Done x
  end.

Fixpoint read_frames (n : nat) (frames : list dict) : VR (list dict) :=
  match n with
  | O => vr_ret frames
  | S n' => (f <- ReadDict ;; read_frames n' (frames ++ [f]))%vr
  end.

Definition parsenTRNChunk (c : bytes) : result (Z * Z * Z * AnyNode) :=
  match
    (id <- ReadInt32 ;;
     attr <- ReadDict ;;
     childID <- ReadInt32 ;;
     reserved <- ReadInt32 ;;
     layerID <- ReadInt32 ;;
     nFrame <- ReadInt32 ;;
     frames <- read_frames (Z.to_nat nFrame) [] ;;
     e <- Error ;;
     vr_ret (id, attr, childID, reserved, layerID, nFrame, frames, e))%vr
      (newReader c)
  with
  | Panicked p => Panic p
  | Done ((id, attr, childID, reserved, layerID, nFrame, frames, e), vr) =>
      (_ <- check e (fun e => e) ;;
       _ <- fail_if (negb (reserved =? -1))
              (Errorf "reserved field in nTRN must be -1, got %d" [AInt reserved]) ;;
       _ <- fail_if (negb (nFrame =? 1))
              (Errorf "must have one frame in nTRN chunk, got %d" [AInt nFrame]) ;;
       let '(name, attr) := dict_ReadString attr "_name" [] in
       let '(hidden, attr) := dict_ReadBool attr "_hidden" false in
       _ <- check (dict_Error attr)
              (fun e => Errorf "error reading nTRN chunk: %v" [AErr e]) ;;
       _ <- check (AssertNoUnreadFields attr)
              (fun e => Errorf "unexpected field or fields in nTRN attributes: %v" [AErr e]) ;;
       match frames with
       | [] => Panic (IndexOutOfRange 0 0)
       | f0 :: _ =>
           let '(rot, f0) := dict_ReadMatrix3x3 f0 "_r" Matrix3x3Identity in
           let '(t, f0) := dict_Read3xInt32 f0 "_t" (0, 0, 0) in
           _ <- check (dict_Error f0)
                  (fun e => Errorf "error reading nTRN frame chunk: %v" [AErr e]) ;;
           _ <- check (AssertNoUnreadFields f0)
                  (fun e => Errorf "unexpected field or fields in nTRN frame: %v" [AErr e]) ;;
           returning
             ((RequireEOF "nTRN" ;;;
               e <- Error ;;
               vr_ret ((id, childID, layerID,
                        TransformNode (mkNode name hidden) None
                          [mkTransformFrame rot t] None), e))%vr vr)
       end)%go
  end.

Fixpoint read_int32s (n : nat) (acc : list Z) : VR (list Z) :=
  match n with
  | O => vr_ret acc
  | S n' => (x <- ReadInt32 ;; read_int32s n' (acc ++ [x]))%vr
  end.

Definition parsenGRPChunk (c : bytes) : result (Z * list Z * AnyNode) :=
  match
    (id <- ReadInt32 ;;
     attr <- ReadDict ;;
     nChild <- ReadInt32 ;;
     childIDs <- read_int32s (Z.to_nat nChild) [] ;;
     e <- Error ;;
     vr_ret (id, attr, childIDs, e))%vr (newReader c)
  with
  | Panicked p => Panic p
  | Done ((id, attr, childIDs, e), vr) =>
      (_ <- check e (fun e => Errorf "error reading nGRP chunk: %v" [AErr e]) ;;
       let '(name, attr) := dict_ReadString attr "_name" [] in
       let '(hidden, attr) := dict_ReadBool attr "_hidden" false in
       _ <- check (dict_Error attr)
              (fun e => Errorf "error reading nGRP chunk: %v" [AErr e]) ;;
       _ <- check (AssertNoUnreadFields attr)
              (fun e => Errorf "unexpected fields in nGRP chunk attributes: %v" [AErr e]) ;;
       returning
         ((RequireEOF "nGRP" ;;;
           e <- Error ;;
           vr_ret ((id, childIDs, GroupNode (mkNode name hidden) []), e))%vr vr))%go
  end.

Fixpoint read_models (n : nat) (acc : list Z) : VR (list Z) :=
  match n with
  | O => vr_ret acc
  | S n' =>
      (x <- ReadInt32 ;;
       ReadDict ;;;
       read_models n' (acc ++ [x]))%vr
  end.

Definition parsenSHPChunk (c : bytes) : result (Z * list Z * AnyNode) :=
  match
    (id <- ReadInt32 ;;
     attr <- ReadDict ;;
     nModel <- ReadInt32 ;;
     modelIDs <- read_models (Z.to_nat nModel) [] ;;
     e <- Error ;;
     vr_ret (id, attr, modelIDs, e))%vr (newReader c)
  with
  | Panicked p => Panic p
  | Done ((id, attr, modelIDs, e), vr) =>
      (_ <- check e (fun e => Errorf "error reading nSHP chunk: %v" [AErr e]) ;;
       let '(name, attr) := dict_ReadString attr "_name" [] in
       let '(hidden, attr) := dict_ReadBool attr "_hidden" false in
       _ <- check (dict_Error attr)
              (fun e => Errorf "error reading nSHP chunk: %v" [AErr e]) ;;
       _ <- check (AssertNoUnreadFields attr)
              (fun e => Errorf "unexpected fields in nSHP chunk attributes: %v" [AErr e]) ;;
       returning
         ((RequireEOF "nSHP" ;;;
           e <- Error ;;
           vr_ret ((id, modelIDs, ShapeNode (mkNode name hidden) []), e))%vr vr))%go
  end.

Definition parseLAYRChunk (c : bytes) : result (Z * Layer) :=
  match
    (id <- ReadInt32 ;;
     attr <- ReadDict ;;
     reserved <- ReadInt32 ;;
     e <- Error ;;
     vr_ret (id, attr, reserved, e))%vr (newReader c)
  with
  | Panicked p => Panic p
  | Done ((id, attr, reserved, e), vr) =>
      (_ <- check e (fun e => Errorf "error reading LAYR chunk: %v" [AErr e]) ;;
       _ <- fail_if (negb (reserved =? -1))
              (Errorf "reserved field in LAYR chunk must be -1, got %d" [AInt reserved]) ;;
       let '(name, attr) := dict_ReadString attr "_name" [] in
       let '(hidden, attr) := dict_ReadBool attr "_hidden" false in
       _ <- check (dict_Error attr)
              (fun e => Errorf "error reading LAYR chunk: %v" [AErr e]) ;;
       _ <- check (AssertNoUnreadFields attr)
              (fun e => Errorf "unexpected fields in LAYR chunk attributes: %v" [AErr e]) ;;
       returning
         ((RequireEOF "LAYR" ;;;
           e <- Error ;;
           vr_ret ((id, mkLayer id name hidden), e))%vr vr))%go
  end.

Definition parseMatType (s : bytes) : result MaterialType :=
  if bytes_eqb s (lit "_diffuse") then Ok MaterialDiffuse
  else if bytes_eqb s (lit "_metal") then Ok MaterialMetal
  else if bytes_eqb s (lit "_glass") then Ok MaterialGlass
  else if bytes_eqb s (lit "_emit") then Ok MaterialEmissive
  else Err (Errorf "unknown material %q" [AStr s]).

Definition parseMatlChunk (c : bytes) : result (Z * Material) :=
  match ReadInt32 (newReader c) with
  | Panicked p => Panic p
  | Done (matID, vr) =>
      if (matID >? 255) || (matID <? 0) then
        Err (Errorf "material index %d out of range" [AInt matID])
      else
        match
          (dc <- ReadDict ;;
           RequireEOF "MATL" ;;;
           e <- Error ;;
           vr_ret (dc, e))%vr vr
        with
        | Panicked p => Panic p
        | Done ((dc, e), _) =>
            (_ <- check e (fun e => Errorf "error reading MATL chunk: %v" [AErr e]) ;;
             let '(matTypeS, dc) := dict_ReadString dc "_type" (lit "<missing>") in
             let '(weight, dc) := dict_ReadFloat dc "_weight" (f32_of_Z 1) in
             let weight := f32_mul weight (f32_of_Z 100) in
             let '(rough, dc) := dict_ReadFloat dc "_rough" (f32_of_Z 0) in
             let rough := f32_mul rough (f32_of_Z 100) in
             let '(spec, dc) := dict_ReadFloat dc "_spec" (f32_of_Z 0) in
             let spec := f32_mul spec (f32_of_Z 100) in
             let '(ior, dc) := dict_ReadFloat dc "_ior" (f32_of_Z 0) in
             let ior := f32_add ior (f32_of_Z 1) in
             let '(att, dc) := dict_ReadFloat dc "_att" (f32_of_Z 0) in
             let att := f32_mul att (f32_of_Z 100) in
             let '(flux, dc) := dict_ReadFloat dc "_flux" (f32_of_Z 0) in
             let flux := f32_mul flux (f32_of_Z 100) in
             let '(plastic, dc) := dict_ReadBool dc "_plastic" false in
             let '(ldr, dc) := dict_ReadFloat dc "_ldr" (f32_of_Z 0) in
             let ldr := f32_mul ldr (f32_of_Z 100) in
             _ <- check (dict_Error dc)
                    (fun e => Errorf "dict error reading MATL chunk: %v" [AErr e]) ;;
             _ <- check (AssertNoUnreadFields dc)
                    (fun e => Errorf "dict error -- unknown field: %v" [AErr e]) ;;
             match parseMatType matTypeS with
             | Ok matType =>
                 Ok (matID,
                     mkMaterial (mkRGBA 0 0 0 0) matType weight plastic rough
                       spec ior att flux ldr)
             | Err e => Err (Errorf "error reading MATL chunk: %v" [AErr e])
             | Panic p => Panic p
             end)%go
        end
  end.

(** The local variables of [parseMainChunks], and the lines it logs. *)
Record mainVars : Type := mkVars {
  st : state;
  pack : Z;
  models : list Model;
  rgba : list RGBA;
  mats : list Material;
  size : vec3;
  sceneIDs : list (Z * AnyNode);
  sceneChildren : list (Z * list Z);
  sceneLayer : list (Z * Z);
  layerIDs : list (Z * Layer);
  ignoredChunks : list (bytes * bool);
  logged : list bytes
}.

Definition initVars : mainVars :=
  mkVars statePack (-1) [] [] [] (0, 0, 0) [] [] [] []
    [(lit "rOBJ", true)] [].

Definition set_st (v : mainVars) (s : state) : mainVars :=
  mkVars s (pack v) (models v) (rgba v) (mats v) (size v) (sceneIDs v)
    (sceneChildren v) (sceneLayer v) (layerIDs v) (ignoredChunks v) (logged v).

(** [for len(mats) <= idx { mats = append(mats, Material{}) }] *)
Definition grow_mats (ms : list Material) (idx : Z) : list Material :=
  ms ++ repeat Material_zero (Z.to_nat (idx + 1) - length ms).

Definition tag_is (id : bytes) (s : string) : bool := bytes_eqb id (lit s).

(** The tags the [switch] of [parseMainChunks] has a case for. *)
Definition recognized (id : bytes) : bool :=
  existsb (tag_is id)
    ["PACK"; "SIZE"; "XYZI"; "nTRN"; "nGRP"; "nSHP"; "LAYR"; "RGBA"; "MATL"]%string.

Fixpoint shape_models (modelIDs : list Z) (nmodels : Z) (acc : list Z)
  : result (list Z) :=
  match modelIDs with
  | [] => Ok acc
  | modelID :: rest =>
      if (modelID <? 0) || (modelID >=? nmodels) then
        Err (Errorf "nSHP node refers to missing model ID %d" [AInt modelID])
      else shape_models rest nmodels (acc ++ [modelID])
  end.

(** The [switch] of the loop body for a chunk with a recognized tag: the
    variables afterwards, or the early return. *)
Definition switch_chunk (v : mainVars) (id c : bytes) : result mainVars :=
  (if tag_is id "PACK" then
     _ <- fail_if (negb (state_eqb (st v) statePack))
            (Errorf "PACK chunk must appear first in MAIN" []) ;;
     p <- parsePackChunk c ;;
     Ok (mkVars stateSize p (models v) (rgba v) (mats v) (size v)
           (sceneIDs v) (sceneChildren v) (sceneLayer v) (layerIDs v)
           (ignoredChunks v) (logged v))
   else if tag_is id "SIZE" then
     let v := if state_eqb (st v) statePack then set_st v stateSize else v in
     _ <- fail_if (negb (state_eqb (st v) stateSize))
            (Errorf "misplaced SIZE chunk" []) ;;
     sz <- parseSizeChunk c ;;
     Ok (mkVars stateXYZI (pack v) (models v) (rgba v) (mats v) sz
           (sceneIDs v) (sceneChildren v) (sceneLayer v) (layerIDs v)
           (ignoredChunks v) (logged v))
   else if tag_is id "XYZI" then
     _ <- fail_if (negb (state_eqb (st v) stateXYZI))
            (Errorf "misplaced XYZI chunk" []) ;;
     vs <- parseXYZIChunk c ;;
     let models' :=
       models v ++ [mkModel (vget (size v) 0) (vget (size v) 1)
                      (vget (size v) 2) vs] in
     let s' :=
       if negb (pack v =? -1) && (Z.of_nat (length models') =? pack v)
       then stateSceneGraph else stateSize in
     Ok (mkVars s' (pack v) models' (rgba v) (mats v) (size v)
           (sceneIDs v) (sceneChildren v) (sceneLayer v) (layerIDs v)
           (ignoredChunks v) (logged v))
   else if tag_is id "nTRN" then
     v <- (if state_eqb (st v) stateSize then
             _ <- fail_if (negb (pack v =? -1))
                    (Errorf "missing models: expected %d but found %d"
                       [AInt (pack v); AInt (Z.of_nat (length (models v)))]) ;;
             Ok (set_st v stateSceneGraph)
           else Ok v) ;;
     _ <- fail_if (negb (state_eqb (st v) stateSceneGraph))
            (Errorf "misplaced nTRN chunk" []) ;;
     ' (nid, childID, layerID, node) <- parsenTRNChunk c ;;
     _ <- fail_if (map_mem Z.eqb (sceneIDs v) nid)
            (Errorf "node %d appears twice" [AInt nid]) ;;
     Ok (mkVars (st v) (pack v) (models v) (rgba v) (mats v) (size v)
           (map_insert Z.eqb (sceneIDs v) nid node)
           (map_insert Z.eqb (sceneChildren v) nid [childID])
           (map_insert Z.eqb (sceneLayer v) nid layerID)
           (layerIDs v) (ignoredChunks v) (logged v))
   else if tag_is id "nGRP" then
     _ <- fail_if (negb (state_eqb (st v) stateSceneGraph))
            (Errorf "misplaced nGRP chunk" []) ;;
     ' (nid, childIDs, node) <- parsenGRPChunk c ;;
     _ <- fail_if (map_mem Z.eqb (sceneIDs v) nid)
            (Errorf "node %d appears twice" [AInt nid]) ;;
     Ok (mkVars (st v) (pack v) (models v) (rgba v) (mats v) (size v)
           (map_insert Z.eqb (sceneIDs v) nid node)
           (map_insert Z.eqb (sceneChildren v) nid childIDs)
           (sceneLayer v) (layerIDs v) (ignoredChunks v) (logged v))
   else if tag_is id "nSHP" then
     _ <- fail_if (negb (state_eqb (st v) stateSceneGraph))
            (Errorf "misplaced nSHP chunk" []) ;;
     ' (nid, modelIDs, node) <- parsenSHPChunk c ;;
     _ <- fail_if (map_mem Z.eqb (sceneIDs v) nid)
            (Errorf "node %d appears twice" [AInt nid]) ;;
     match node with
     | ShapeNode nd ms =>
         ms' <- shape_models modelIDs (Z.of_nat (length (models v))) ms ;;
         Ok (mkVars (st v) (pack v) (models v) (rgba v) (mats v) (size v)
               (map_insert Z.eqb (sceneIDs v) nid (ShapeNode nd ms'))
               (sceneChildren v) (sceneLayer v) (layerIDs v)
               (ignoredChunks v) (logged v))
     | _ => Panic NilDereference
     end
   else if tag_is id "LAYR" then
     let v := if state_eqb (st v) stateSceneGraph then set_st v stateLAYR else v in
     _ <- fail_if (negb (state_eqb (st v) stateLAYR))
            (Errorf "misplaced LAYR chunk" []) ;;
     ' (lid, layer) <- parseLAYRChunk c ;;
     _ <- fail_if (map_mem Z.eqb (layerIDs v) lid)
            (Errorf "two LAYR chunks have id %d" [AInt lid]) ;;
     Ok (mkVars (st v) (pack v) (models v) (rgba v) (mats v) (size v)
           (sceneIDs v) (sceneChildren v) (sceneLayer v)
           (map_insert Z.eqb (layerIDs v) lid layer)
           (ignoredChunks v) (logged v))
   else if tag_is id "RGBA" then
     let v := if state_eqb (st v) stateLAYR then set_st v stateRGBA else v in
     _ <- fail_if (negb (state_eqb (st v) stateRGBA))
            (Errorf "misplaced RGBA chunk" []) ;;
     match parseRGBAChunk c with
     | Panicked p => Panic p
     | Done (colours, _) =>
         (* the error of [parseRGBAChunk] is assigned to [err] and never
            looked at *)
         Ok (mkVars stateMatt (pack v) (models v) colours (mats v) (size v)
               (sceneIDs v) (sceneChildren v) (sceneLayer v) (layerIDs v)
               (ignoredChunks v) (logged v))
     end
   else if tag_is id "MATL" then
     _ <- fail_if (negb (state_eqb (st v) stateMatt))
            (Errorf "misplaced MATL chunk" []) ;;
     ' (idx, mat) <- parseMatlChunk c ;;
     match index_set (grow_mats (mats v) idx) idx mat with
     | Panicked p => Panic p
     | Done mats' =>
         Ok (mkVars (st v) (pack v) (models v) (rgba v) mats' (size v)
               (sceneIDs v) (sceneChildren v) (sceneLayer v) (layerIDs v)
               (ignoredChunks v) (logged v))
     end
   else Panic NilDereference)%go.

(** The [default] case: the tag is logged the first time it is met, and
    the loop continues. *)
Definition default_chunk (v : mainVars) (id : bytes) : mainVars :=
  match map_lookup bytes_eqb (ignoredChunks v) id with
  | Some true => v
  | _ =>
      mkVars (st v) (pack v) (models v) (rgba v) (mats v) (size v)
        (sceneIDs v) (sceneChildren v) (sceneLayer v) (layerIDs v)
        (map_insert bytes_eqb (ignoredChunks v) id true)
        (logged v ++ [id])
  end.

(** One turn of the loop on a chunk that was read: continue with new
    variables ([inl]) or return ([inr]). *)
Definition main_step (v : mainVars) (id c cc : bytes)
  : mainVars + result Main :=
  if recognized id then
    match switch_chunk v id c with
    | Ok v' =>
        if negb (length cc =? 0)%nat then
          inr (Err (Errorf "unexpected child chunks of chunk %q" [AStr id]))
        else inl v'
    | Err e => inr (Err e)
    | Panic p => inr (Panic p)
    end
  else inl (default_chunk v id).

(** What the loop does when [parseChunk] answers [io.EOF]. *)
Definition main_finish (v : mainVars) : result Main :=
  if negb (pack v =? -1) && negb (Z.of_nat (length (models v)) =? pack v) then
    Err (Errorf "expected %d models, but got %d"
           [AInt (pack v); AInt (Z.of_nat (length (models v)))])
  else
    match buildScene (sceneIDs v) (sceneChildren v) (sceneLayer v) (layerIDs v) with
    | Ok scene => buildMain (models v) (rgba v) (mats v) scene
    | Err e => Err (Errorf "error building scene graph: %v" [AErr e])
    | Panic p => Panic p
    end.

(** The [for] loop of [parseMainChunks]; every turn that continues has
    consumed a chunk header, which bounds the number of turns by the
    length of the input. *)
Fixpoint main_loop (fuel : nat) (v : mainVars) (vr : voxReader)
  : list bytes * result Main :=
  match fuel with
  | O => (logged v, Panic FuelExhausted)
  | S fuel' =>
      match parseChunk vr with
      | Panicked p => (logged v, Panic p)
      | Done (inr e, vr') =>
          if is_EOF e then (logged v, main_finish v)
          else (logged v, Err e)
      | Done (inl (id, c, cc), vr') =>
          match main_step v id c cc with
          | inl v' => main_loop fuel' v' vr'
          | inr res => (logged v, res)
          end
      end
  end.

(** [parseMainChunks], with the lines it logged. *)
Definition parseMainChunks_log (vr : voxReader) : list bytes * result Main :=
  main_loop (S (length (r vr))) initVars vr.

Definition parseMainChunks (vr : voxReader) : result Main :=
  snd (parseMainChunks_log vr).

Definition parseMainChunk_log (vr : voxReader) : list bytes * result Main :=
  match parseChunk vr with
  | Panicked p => ([], Panic p)
  | Done (inr e, _) => ([], Err e)
  | Done (inl (id, contents, childContents), vr') =>
      if negb (tag_is id "MAIN") then ([], Err (Errorf "missing MAIN chunk" []))
      else if negb (length contents =? 0)%nat then
        ([], Err (Errorf "unexpected MAIN contents" []))
      else
        match RequireEOF "MAIN" vr' with
        | Panicked p => ([], Panic p)
        | Done _ => parseMainChunks_log (newReader childContents)
        end
  end.

(** [Parse], with the lines it logged. *)
Definition Parse_log (input : bytes) : list bytes * result Main :=
  match
    (id <- ReadBytes 4 ;;
     ver <- ReadInt32 ;;
     e <- Error ;;
     vr_ret (id, ver, e))%vr (newReader input)
  with
  | Panicked p => ([], Panic p)
  | Done ((id, ver, e), vr) =>
      match e with
      | Some e => ([], Err (Errorf "failed reading header: %v" [AErr e]))
      | None =>
          if negb (bytes_eqb id (lit "VOX ")) then
            ([], Err (Errorf "not a magicavox file" []))
          else if negb (ver =? version) then
            ([], Err (Errorf "vox file must be version %d, got %d"
                        [AInt version; AInt ver]))
          else parseMainChunk_log vr
      end
  end.

Definition Parse (input : bytes) : result Main := snd (Parse_log input).

End Decoders.

(** ** Building inputs *)

Definition byte_of_Z (z : Z) : byte :=
  match Byte.of_N (Z.to_N (z mod 256)) with
  | Some b => b
  | None => x00
  end.

(** Four bytes, little endian, two's complement. *)
Definition le32 (z : Z) : bytes :=
  [byte_of_Z z; byte_of_Z (Z.shiftr z 8); byte_of_Z (Z.shiftr z 16);
   byte_of_Z (Z.shiftr z 24)].

Definition blen (b : bytes) : Z := Z.of_nat (length b).

(** STRING = length, bytes; DICT = count, (key, value) pairs. *)
Definition enc_string (s : bytes) : bytes := le32 (blen s) ++ s.

Definition enc_dict (kvs : list (string * string)) : bytes :=
  le32 (Z.of_nat (length kvs))
  ++ concat (map (fun kv => enc_string (lit (fst kv)) ++ enc_string (lit (snd kv))) kvs).

(** Chunk = tag, content length, children length, content, children. *)
Definition enc_chunk (tag : string) (content children : bytes) : bytes :=
  lit tag ++ le32 (blen content) ++ le32 (blen children) ++ content ++ children.

Definition enc_file (children : bytes) : bytes :=
  lit "VOX " ++ le32 150 ++ enc_chunk "MAIN" [] children.

Definition enc_voxel (v : Voxel) : bytes :=
  [byte_of_Z (Voxel_X v); byte_of_Z (Voxel_Y v); byte_of_Z (Voxel_Z v);
   byte_of_Z (ColorIndex v)].

Definition enc_XYZI (vs : list Voxel) : bytes :=
  le32 (Z.of_nat (length vs)) ++ concat (map enc_voxel vs).

Definition enc_nTRN (id : Z) (attr : list (string * string))
    (child reserved layer : Z) (frames : list (list (string * string))) : bytes :=
  le32 id ++ enc_dict attr ++ le32 child ++ le32 reserved ++ le32 layer
  ++ le32 (Z.of_nat (length frames)) ++ concat (map enc_dict frames).

Definition enc_nGRP (id : Z) (attr : list (string * string))
    (children : list Z) : bytes :=
  le32 id ++ enc_dict attr ++ le32 (Z.of_nat (length children))
  ++ concat (map le32 children).

Definition enc_nSHP (id : Z) (attr : list (string * string))
    (modelIDs : list Z) : bytes :=
  le32 id ++ enc_dict attr ++ le32 (Z.of_nat (length modelIDs))
  ++ concat (map (fun m => le32 m ++ enc_dict []) modelIDs).

Definition enc_LAYR (id : Z) (attr : list (string * string)) (reserved : Z) : bytes :=
  le32 id ++ enc_dict attr ++ le32 reserved.

Definition enc_MATL (id : Z) (props : list (string * string)) : bytes :=
  le32 id ++ enc_dict props.

(** The palette of the examples: entry [i] is [(i, 255 - i, 7 i mod 256, 255)]. *)
Definition sample_colour (i : Z) : list Z := [i; 255 - i; (7 * i) mod 256; 255].

Definition sample_palette_bytes (n : nat) : bytes :=
  concat (map (fun i => map byte_of_Z (sample_colour i)) (upto n)).

Definition sample_voxels : list Voxel :=
  [mkVoxel 0 0 0 1; mkVoxel 29 19 9 2; mkVoxel 3 4 5 166].

(** The chunks of the examples. *)
Definition models_part : bytes :=
  enc_chunk "PACK" (le32 1) []
  ++ enc_chunk "SIZE" (le32 30 ++ le32 20 ++ le32 10) []
  ++ enc_chunk "XYZI" (enc_XYZI sample_voxels) [].

(** A single nTRN -> nSHP scene, the nTRN at layer -1. *)
Definition scene_part : bytes :=
  enc_chunk "nTRN" (enc_nTRN 0 [] 1 (-1) (-1) [[]]) []
  ++ enc_chunk "nSHP" (enc_nSHP 1 [] [0]) [].

Definition layr0 : bytes := enc_chunk "LAYR" (enc_LAYR 0 [] (-1)) [].

Definition rgba256 : bytes := enc_chunk "RGBA" (sample_palette_bytes 256) [].

Definition matl255 : bytes :=
  enc_chunk "MATL" (enc_MATL 255 [("_type", "_diffuse")]%string) [].

(** The minimal file: PACK=1, SIZE{30,20,10}, one XYZI, a single
    nTRN -> nSHP scene with the nTRN at layer -1, RGBA with 256 entries; no
    LAYR and no MATL chunk. *)
Definition minimal_file : bytes :=
  enc_file (models_part ++ scene_part ++ rgba256).

(** The minimal file with one LAYR chunk before the palette. *)
Definition minimal_file_layr : bytes :=
  enc_file (models_part ++ scene_part ++ layr0 ++ rgba256).

(** The minimal file with one LAYR chunk and a MATL chunk for material 255. *)
Definition minimal_file_layr_matl : bytes :=
  enc_file (models_part ++ scene_part ++ layr0 ++ rgba256 ++ matl255).

(** An instance of the float interface for running the decoders: the
    values are integers, and only the decimal integers parse.  The inputs
    of the examples hold no float. *)
#[local] Instance ZFloat : Float32Ops := {|
  float32 := Z;
  f32_of_Z := fun z => z;
  f32_mul := Z.mul;
  f32_add := Z.add;
  f32_eqb := Z.eqb;
  ParseFloat32 := fun s =>
    match parse_decimal s with
    | Some z => (z, None)
    | None => (0, Some (Errorf "strconv.ParseFloat: parsing %q: invalid syntax" [AStr s]))
    end
|}.

(** ** Notions the statements use *)

(** The valid codes among all values of a [uint8]. *)
Definition validCodes : list Matrix3x3 := filter Valid (upto 256).

(** The column and the sign [Get] decodes for row [i]. *)
Definition row_col (m : Matrix3x3) (i : Z) : Z :=
  if i =? 0 then Z.land m 3
  else if i =? 1 then Z.land (Z.shiftr m 2) 3
  else wrap8 (3 - Z.land m 3 - Z.land (Z.shiftr m 2) 3).

Definition row_sign (m : Matrix3x3) (i : Z) : Z :=
  if i =? 0 then signm3 (Z.land (Z.shiftr m 4) 1)
  else if i =? 1 then signm3 (Z.land (Z.shiftr m 5) 1)
  else signm3 (Z.land (Z.shiftr m 6) 1).

(** A component of [v] up to sign, negated the way Go's [int] negates. *)
Definition signed_component (s : Z) (c : Z) (v : vec3) : Z :=
  if s =? 1 then vget v c else int_neg (vget v c).

Definition is_int_vec (v : vec3) : Prop :=
  is_int (vget v 0) /\ is_int (vget v 1) /\ is_int (vget v 2).

(** No value occurs twice in the list. *)
Fixpoint nodupb (l : list Z) : bool :=
  match l with
  | [] => true
  | x :: t => negb (existsb (Z.eqb x) t) && nodupb t
  end.

(** The columns of the three rows are 0, 1, 2 in some order. *)
Definition cols_permute (m : Matrix3x3) : bool :=
  let c0 := row_col m 0 in
  let c1 := row_col m 1 in
  let c2 := row_col m 2 in
  forallb (fun c => (0 <=? c) && (c <? 3)) [c0; c1; c2]
  && negb (c0 =? c1) && negb (c0 =? c2) && negb (c1 =? c2).

(** ** Example files *)

Definition sample_rgba (i : Z) : RGBA := mkRGBA i (255 - i) ((7 * i) mod 256) 255.

(** Two unrecognized chunks that carry child content (one of them rOBJ),
    and a second chunk with the tag of the first. *)
Definition file_unknown_children : bytes :=
  enc_file (models_part ++ scene_part
            ++ enc_chunk "XXXX" [] [x01; x02]
            ++ layr0 ++ rgba256 ++ matl255
            ++ enc_chunk "XXXX" [] []
            ++ enc_chunk "rOBJ" [] [x00]).

(** An RGBA chunk of 8 bytes: two palette entries instead of 256. *)
Definition file_short_palette : bytes :=
  enc_file (models_part ++ scene_part ++ layr0
            ++ enc_chunk "RGBA" (sample_palette_bytes 2) [] ++ matl255).

(** An RGBA chunk of 1028 bytes: one palette entry too many. *)
Definition file_long_palette : bytes :=
  enc_file (models_part ++ scene_part ++ layr0
            ++ enc_chunk "RGBA" (sample_palette_bytes 257) [] ++ matl255).

(** Root transform 0 -> group 1 -> shape 2, twice; shape 3 is the child of
    no node. *)
Definition file_shared_shape : bytes :=
  enc_file (models_part
            ++ enc_chunk "nTRN" (enc_nTRN 0 [] 1 (-1) (-1) [[]]) []
            ++ enc_chunk "nGRP" (enc_nGRP 1 [] [2; 2]) []
            ++ enc_chunk "nSHP" (enc_nSHP 2 [] [0]) []
            ++ enc_chunk "nSHP" (enc_nSHP 3 [] [0]) []
            ++ layr0 ++ rgba256 ++ matl255).

(** Root transform 0 -> group 1 -> transform 2, on layer 0 -> shape 3; the
    file declares layer 0. *)
Definition file_inner_transform : bytes :=
  enc_file (models_part
            ++ enc_chunk "nTRN" (enc_nTRN 0 [] 1 (-1) (-1) [[]]) []
            ++ enc_chunk "nGRP" (enc_nGRP 1 [] [2]) []
            ++ enc_chunk "nTRN" (enc_nTRN 2 [] 3 (-1) 0 [[]]) []
            ++ enc_chunk "nSHP" (enc_nSHP 3 [] [0]) []
            ++ layr0 ++ rgba256 ++ matl255).

(** The pointers a node holds to other nodes. *)
Definition children_of {F : Float32Ops} (n : AnyNode) : list ptr :=
  match n with
  | TransformNode _ _ _ (Some c) => [c]
  | TransformNode _ _ _ None => []
  | GroupNode _ cs => cs
  | ShapeNode _ _ => []
  end.

(** The layer a transform node is attached to. *)
Definition layer_of {F : Float32Ops} (n : AnyNode) : option Layer :=
  match n with
  | TransformNode _ l _ _ => l
  | _ => None
  end.

(** ** Notions for the dense world *)

(** A model as [DenseWorldFromModel] expects it: positive sizes, every
    voxel inside them.  The number of cells fits an [int]. *)
Definition voxel_inside (m : Model) (vox : Voxel) : Prop :=
  0 <= Voxel_X vox < Model_X m /\ 0 <= Voxel_Y vox < Model_Y m
  /\ 0 <= Voxel_Z vox < Model_Z m.

Definition model_ok (m : Model) : Prop :=
  0 < Model_X m /\ 0 < Model_Y m /\ 0 < Model_Z m
  /\ Model_X m * Model_Y m * Model_Z m < 2 ^ 63
  /\ Forall (voxel_inside m) (Model_V m).

Definition is_int32_vec (t : vec3) : Prop :=
  is_int32 (vget t 0) /\ is_int32 (vget t 1) /\ is_int32 (vget t 2).

(** Along one world axis, for a model of size [S] on the source axis and a
    translation [t]: the bounds of the cuboid, and the offset from the
    lower bound of the voxel at [p] when the axis has sign [s]. *)
Definition axis_lo (S t : Z) : Z := - ((S - 1) / 2) + t.
Definition axis_hi (S t : Z) : Z := (S - 1) - (S - 1) / 2 + t.
Definition axis_off (s S p : Z) : Z := if s =? 1 then p else S - 1 - p.
Definition axis_corner (s S : Z) : Z := if s =? 1 then 0 else - (S - 1).

(** [le3 a b]: the test of the corner loop. *)
Definition le3 (a b : vec3) : bool :=
  (vget a 0 <=? vget b 0) && (vget a 1 <=? vget b 1) && (vget a 2 <=? vget b 2).

(** The writes of [place_voxels] on the bare grid, for a map [idx] from
    voxel positions to cells. *)
Definition paint (idx : vec3 -> nat) (g : list Z) (vs : list Voxel) : list Z :=
  fold_left (fun g vox =>
               list_set g (idx (Voxel_X vox, Voxel_Y vox, Voxel_Z vox))
                 (ColorIndex vox)) vs g.

(** The step of the corner loop. *)
Definition min_step (cur mx : vec3) : vec3 := if le3 mx cur then mx else cur.

(** Two grids show the same picture through two maps from positions to
    cells. *)
Definition same_picture_on (idx1 idx2 : vec3 -> nat) (D : vec3 -> Prop)
    (N : nat) (g1 g2 : list Z) : Prop :=
  length g1 = N /\ length g2 = N
  /\ count_nonzero g1 = count_nonzero g2
  /\ forall p, D p -> nth (idx1 p) g1 0 = nth (idx2 p) g2 0.

(** A model of 2^22 cells a side with one voxel at the origin. *)
Definition huge_model : Model :=
  mkModel 4194304 4194304 4194304 [mkVoxel 0 0 0 1].

Definition small_model : Model :=
  mkModel 3 2 1 [mkVoxel 0 0 0 5; mkVoxel 2 1 0 7; mkVoxel 1 1 0 0;
                 mkVoxel 2 1 0 9].

Definition sizes_of (m : Model) : vec3 := (Model_X m, Model_Y m, Model_Z m).

Definition triples (l1 l2 l3 : list Z) : list (Z * Z * Z) :=
  flat_map (fun i => flat_map (fun j => map (fun k => (i, j, k)) l3) l2) l1.

(** The corner a triple of loop indices stands for. *)
Definition corner_of (m : Model) (t : Z * Z * Z) : vec3 :=
  (int_mul (fst (fst t)) (int_sub (Model_X m) 1),
   int_mul (snd (fst t)) (int_sub (Model_Y m) 1),
   int_mul (snd t) (int_sub (Model_Z m) 1)).

Definition sizes_ok (m : Model) : Prop :=
  0 < Model_X m < 2 ^ 63 /\ 0 < Model_Y m < 2 ^ 63 /\ 0 < Model_Z m < 2 ^ 63.

(** The sign of a row as a loop index: 0 for +1, 1 for -1. *)
Definition neg_bit (s : Z) : Z := if s =? 1 then 0 else 1.

Definition world_min (mat : Matrix3x3) (t : vec3) (m : Model) : vec3 :=
  (axis_lo (vget (sizes_of m) (row_col mat 0)) (vget t 0),
   axis_lo (vget (sizes_of m) (row_col mat 1)) (vget t 1),
   axis_lo (vget (sizes_of m) (row_col mat 2)) (vget t 2)).

Definition world_max (mat : Matrix3x3) (t : vec3) (m : Model) : vec3 :=
  (axis_hi (vget (sizes_of m) (row_col mat 0)) (vget t 0),
   axis_hi (vget (sizes_of m) (row_col mat 1)) (vget t 1),
   axis_hi (vget (sizes_of m) (row_col mat 2)) (vget t 2)).

Definition world_trn (mat : Matrix3x3) (t : vec3) (m : Model) : vec3 :=
  (int_sub (vget (world_min mat t m) 0)
     (axis_corner (row_sign mat 0) (vget (sizes_of m) (row_col mat 0))),
   int_sub (vget (world_min mat t m) 1)
     (axis_corner (row_sign mat 1) (vget (sizes_of m) (row_col mat 1))),
   int_sub (vget (world_min mat t m) 2)
     (axis_corner (row_sign mat 2) (vget (sizes_of m) (row_col mat 2)))).

(** The offset of position [p] along world axis [i]. *)
Definition world_off (mat : Matrix3x3) (m : Model) (p : vec3) (i : Z) : Z :=
  axis_off (row_sign mat i) (vget (sizes_of m) (row_col mat i))
    (vget p (row_col mat i)).

(** The cell of the grid position [p] is written to. *)
Definition cell_index (mat : Matrix3x3) (m : Model) (p : vec3) : Z :=
  world_off mat m p 2
  * (vget (sizes_of m) (row_col mat 0) * vget (sizes_of m) (row_col mat 1))
  + world_off mat m p 1 * vget (sizes_of m) (row_col mat 0)
  + world_off mat m p 0.

Definition cells (m : Model) : Z := Model_X m * Model_Y m * Model_Z m.

Definition pos_of (vox : Voxel) : vec3 := (Voxel_X vox, Voxel_Y vox, Voxel_Z vox).

Definition pos_inside (m : Model) (p : vec3) : Prop :=
  0 <= vget p 0 < Model_X m /\ 0 <= vget p 1 < Model_Y m
  /\ 0 <= vget p 2 < Model_Z m.

Definition nz (c : Z) : Z := if c =? 0 then 0 else 1.

(** ** The reference matrices of the tests (matrix3x3_test.go) *)

(** [type mat struct { m [3][3]int }] *)
Definition mat : Type := vec3 * vec3 * vec3.

Definition mat_zero : mat := ((0, 0, 0), (0, 0, 0), (0, 0, 0)).

Definition mrow (a : mat) (i : Z) : vec3 :=
  let '(r0, r1, r2) := a in
  if i =? 0 then r0 else if i =? 1 then r1 else r2.

Definition mget (a : mat) (i j : Z) : Z := vget (mrow a i) j.

Definition mset (a : mat) (i j : Z) (x : Z) : mat :=
  let '(r0, r1, r2) := a in
  if i =? 0 then (vset r0 j x, r1, r2)
  else if i =? 1 then (r0, vset r1 j x, r2)
  else (r0, r1, vset r2 j x).

Definition matFromMatrix3x3 (m : Matrix3x3) : mat :=
  fold_left (fun r i =>
    fold_left (fun r j => mset r i j (Get m i j)) (upto 3) r)
    (upto 3) mat_zero.

Definition matToMatrix3x3 (m : mat) : Matrix3x3 :=
  fold_left (fun r i =>
    fold_left (fun r j =>
      let x := mget m i j in
      if x =? 0 then r
      else
        let r := if x <? 0 then Z.lor r (wrap8 (Z.shiftl 1 (i + 4))) else r in
        if i <? 2 then Z.lor r (wrap8 (Z.shiftl j (2 * i))) else r)
      (upto 3) r)
    (upto 3) 0.

(** [func (a mat) mul(b mat) mat] *)
Definition mat_mul (a b : mat) : mat :=
  fold_left (fun r i =>
    fold_left (fun r j =>
      fold_left (fun r k =>
        mset r i k (int_add (mget r i k) (int_mul (mget a i j) (mget b j k))))
        (upto 3) r)
      (upto 3) r)
    (upto 3) mat_zero.

(** [func (m mat) valid() bool]: the early [return false] is the [None]. *)
Definition mat_valid (m : mat) : bool :=
  match
    fold_left (fun acc i =>
      fold_left (fun acc j =>
        match acc with
        | None => None
        | Some (rows, cols) =>
            if mget m i j =? 0 then acc
            else if (mget m i j >? 1) || (mget m i j <? -1) then None
            else if negb (Z.land rows (Z.shiftl 1 i) =? 0) then None
            else if negb (Z.land cols (Z.shiftl 1 j) =? 0) then None
            else Some (Z.lor rows (Z.shiftl 1 i), Z.lor cols (Z.shiftl 1 j))
        end)
        (upto 3) acc)
      (upto 3) (Some (0, 0))
  with
  | Some (rows, cols) => (rows =? 7) && (cols =? 7)
  | None => false
  end.

Definition vec3_eqb (a b : vec3) : bool :=
  (vget a 0 =? vget b 0) && (vget a 1 =? vget b 1) && (vget a 2 =? vget b 2).

Definition mat_eqb (a b : mat) : bool :=
  vec3_eqb (mrow a 0) (mrow b 0) && vec3_eqb (mrow a 1) (mrow b 1)
  && vec3_eqb (mrow a 2) (mrow b 2).

(** The multiplication table of the valid codes. *)
Definition mul_table : list (Z * list (Z * Z)) :=
  Eval vm_compute in
    map (fun a => (a, map (fun b => (b, Mul a b)) validCodes)) validCodes.

Definition table_mul (a b : Z) : Z :=
  match map_lookup Z.eqb mul_table a with
  | Some row =>
      match map_lookup Z.eqb row b with
      | Some c => c
      | None => 0
      end
  | None => 0
  end.

(** DICT payloads over arbitrary byte strings. *)
Definition enc_pairs (kvs : list (bytes * bytes)) : bytes :=
  concat (map (fun kv => enc_string (fst kv) ++ enc_string (snd kv)) kvs).

Definition enc_dict_bytes (kvs : list (bytes * bytes)) : bytes :=
  le32 (Z.of_nat (length kvs)) ++ enc_pairs kvs.

(** The map a sequence of pairs builds: a later pair replaces an earlier
    one with the same key. *)
Definition dict_of_pairs (kvs : list (bytes * bytes)) : list (bytes * bytes) :=
  fold_left (fun dd kv => map_insert bytes_eqb dd (fst kv) (snd kv)) kvs [].

Definition short_string (s : bytes) : Prop := Z.of_nat (length s) < 2 ^ 31.

(** ** Notions for the statements about the dense world *)

(** Coordinates far enough from the ends of [int] for differences of two of
    them not to wrap. *)
Definition coord_ok (z : Z) : Prop := - 2 ^ 62 <= z < 2 ^ 62.

Definition vec_ok (v : vec3) : Prop :=
  coord_ok (vget v 0) /\ coord_ok (vget v 1) /\ coord_ok (vget v 2).

(** The number of cells of the cuboid [min .. max] along axis [i]. *)
Definition extent (min max : vec3) (i : Z) : Z := vget max i - vget min i + 1.

Definition volume (min max : vec3) : Z :=
  extent min max 0 * extent min max 1 * extent min max 2.

Definition in_cuboidb (min max c : vec3) : bool :=
  (vget min 0 <=? vget c 0) && (vget c 0 <=? vget max 0)
  && (vget min 1 <=? vget c 1) && (vget c 1 <=? vget max 1)
  && (vget min 2 <=? vget c 2) && (vget c 2 <=? vget max 2).

(** A world as [NewDenseWorld] makes them: a cuboid that is not empty and
    one cell of [Voxels] for each of its points. *)
Definition world_ok (d : DenseWorld) : Prop :=
  vec_ok (Min d) /\ vec_ok (Max d)
  /\ in_cuboidb (Min d) (Max d) (Min d) = true
  /\ volume (Min d) (Max d) < 2 ^ 63
  /\ Z.of_nat (length (Voxels d)) = volume (Min d) (Max d).

(** The place in [Voxels] of the point [c]: X, then Y, then Z. *)
Definition offset_of (min max c : vec3) : Z :=
  (vget c 2 - vget min 2) * (extent min max 0 * extent min max 1)
  + (vget c 1 - vget min 1) * extent min max 0
  + (vget c 0 - vget min 0).

Definition cell (d : DenseWorld) (c : vec3) : Z :=
  nth (Z.to_nat (offset_of (Min d) (Max d) c)) (Voxels d) 0.

(** ** DenseWorld.Resize *)

(** Go's [a % b] on [int]: the remainder has the sign of [a]. *)
Definition int_rem (a b : Z) : Z := wrap64 (Z.rem a b).

(** What a call of [Resize] comes to: it returns, leaving the world [d]
    and answering the error [e]; or it panics, with a panic of the slice
    operations or on a division by zero. *)
Inductive resize_result : Type :=
| Resized (d : DenseWorld) (e : option error)
| ResizePanicked (p : panic)
| ResizeDivideByZero.

(** The loop [for i, c := range d.Voxels] of [Resize], from index [i] on:
    the coordinates are recovered from the index and the voxel is stored in
    the new world; what [SetMaterialIndex] reports is dropped. *)
Fixpoint Resize_loop (dMin : vec3) (SX SY : Z) (i : Z) (vs : list Z)
    (ndw : DenseWorld) : resize_result :=
  match vs with
  | [] => Resized ndw None
  | c :: rest =>
      if SX =? 0 then ResizeDivideByZero
      else
        let x := int_rem i SX in
        let q := int_quot (int_sub i x) SX in
        if SY =? 0 then ResizeDivideByZero
        else
          let y := int_rem q SY in
          let z := int_quot q SY in
          match SetMaterialIndex ndw
                  (int_add x (vget dMin 0), int_add y (vget dMin 1),
                   int_add z (vget dMin 2)) c with
          | Panicked p => ResizePanicked p
          | Done (ndw', _) => Resize_loop dMin SX SY (i + 1) rest ndw'
          end
  end.

(** [d.Resize(min, max)]: [*d = *ndw] makes the new world the world. *)
Definition Resize (d : DenseWorld) (min max : vec3) : resize_result :=
  if vec3_eqb min (Min d) && vec3_eqb max (Max d) then Resized d None
  else
    match NewDenseWorld min max with
    | Err e => Resized d (Some e)
    | Panic p => ResizePanicked p
    | Ok ndw =>
        let SX := int_add (int_sub (vget (Max d) 0) (vget (Min d) 0)) 1 in
        let SY := int_add (int_sub (vget (Max d) 1) (vget (Min d) 1)) 1 in
        Resize_loop (Min d) SX SY 0 (Voxels d) ndw
    end.

(** What [Resize] leaves at the point [c] of the new cuboid: the voxel of
    the old world where the cuboids overlap, nothing elsewhere. *)
Definition carried (d : DenseWorld) (c : vec3) : Z :=
  if in_cuboidb (Min d) (Max d) c then cell d c else 0.

(** ** Notions for the statement about [buildMain] *)

(** The materials with the palette applied: slot [i] of 1..255 gets the
    colour [i-1], slot 0 and the slots from 256 on stay. *)
Definition recolour {F : Float32Ops} (rgba : list RGBA) (mats : list Material)
  : list Material :=
  firstn 1 mats
  ++ map (fun mc => set_Color (fst mc) (snd mc))
       (combine (firstn 255 (skipn 1 mats)) rgba)
  ++ skipn 256 mats.

(** * Theorems *)

(** ** Machine integers *)

Lemma wrap64_id (z : Z) : is_int z -> wrap64 z = z.
Proof.
  unfold is_int, wrap64. intros H.
  rewrite Z.mod_small; lia.
Qed.

Lemma wrap64_range (z : Z) : is_int (wrap64 z).
Proof.
  unfold is_int, wrap64.
  pose proof (Z.mod_pos_bound (z + 2 ^ 63) (2 ^ 64) ltac:(lia)). lia.
Qed.

Lemma int_neg_involutive (a : Z) : is_int a -> int_neg (int_neg a) = a.
Proof.
  intros H. unfold int_neg.
  destruct (Z.eq_dec a (- 2 ^ 63)) as [-> | Hne].
  - vm_compute. reflexivity.
  - rewrite (wrap64_id (- a)) by (unfold is_int in *; lia).
    rewrite Z.opp_involutive. apply wrap64_id. exact H.
Qed.

Lemma int_neg_exact (a : Z) : - 2 ^ 63 < a < 2 ^ 63 -> int_neg a = - a.
Proof. intros H. unfold int_neg. apply wrap64_id. unfold is_int. lia. Qed.

Lemma in_upto (n : nat) (z : Z) : 0 <= z < Z.of_nat n -> In z (upto n).
Proof.
  intros H. unfold upto. apply in_map_iff.
  exists (Z.to_nat z). split; [lia |]. apply in_seq. lia.
Qed.

Lemma upto_in (n : nat) (z : Z) : In z (upto n) -> 0 <= z < Z.of_nat n.
Proof.
  unfold upto. intros H. apply in_map_iff in H.
  destruct H as [k [<- Hk]]. apply in_seq in Hk. lia.
Qed.

(** ** Lists checked by computation *)

Section Checked.
Variable f : Z -> Z.

Lemma forallb_map_elim (P : Z -> bool) (l : list Z) :
  forallb P (map f l) = true -> forall x, In x l -> P (f x) = true.
Proof.
  intros H x Hx. rewrite forallb_forall in H. apply H.
  apply in_map. exact Hx.
Qed.

Lemma existsb_eqb_in (c : Z) (l : list Z) :
  existsb (Z.eqb c) l = true <-> In c l.
Proof.
  rewrite existsb_exists. split.
  - intros [x [Hx He]]. apply Z.eqb_eq in He. subst. exact Hx.
  - intros H. exists c. split; [exact H | apply Z.eqb_refl].
Qed.

Lemma nodupb_map_inj (l : list Z) :
  nodupb (map f l) = true ->
  forall x y, In x l -> In y l -> f x = f y -> x = y.
Proof.
  induction l as [| h t IH]; intros H x y Hx Hy Hf.
  - destruct Hx.
  - cbn [map nodupb] in H. apply andb_prop in H. destruct H as [Hh Ht].
    apply negb_true_iff in Hh.
    assert (Hnot : forall z, In z t -> f h <> f z).
    { intros z Hz E.
      assert (existsb (Z.eqb (f h)) (map f t) = true) as C.
      { apply existsb_eqb_in. rewrite E. apply in_map. exact Hz. }
      rewrite C in Hh. discriminate. }
    destruct Hx as [-> | Hx], Hy as [-> | Hy].
    + reflexivity.
    + exfalso. exact (Hnot y Hy Hf).
    + exfalso. apply (Hnot x Hx). symmetry. exact Hf.
    + exact (IH Ht x y Hx Hy Hf).
Qed.

Lemma covers_map_surj (l cs : list Z) :
  (let row := map f l in forallb (fun c => existsb (Z.eqb c) row) cs) = true ->
  forall c, In c cs -> exists b, In b l /\ f b = c.
Proof.
  intros H c Hc. cbv zeta in H. rewrite forallb_forall in H.
  specialize (H c Hc). apply existsb_eqb_in in H.
  apply in_map_iff in H. destruct H as [b [Hb Hin]].
  exists b. split; assumption.
Qed.
End Checked.

Lemma forallb_elim {A} (P : A -> bool) (l : list A) :
  forallb P l = true -> forall x, In x l -> P x = true.
Proof. intros H. rewrite forallb_forall in H. exact H. Qed.

(** ** Matrix3x3 *)

Lemma valid_in_validCodes (m : Matrix3x3) :
  is_uint8 m -> Valid m = true -> In m validCodes.
Proof.
  intros Hr Hv. unfold validCodes. apply filter_In. split; [| exact Hv].
  apply in_upto. unfold is_uint8 in Hr. change (Z.of_nat 256) with 256. lia.
Qed.

Lemma validCodes_valid (m : Matrix3x3) :
  In m validCodes -> is_uint8 m /\ Valid m = true.
Proof.
  unfold validCodes. intros H. apply filter_In in H. destruct H as [H1 H2].
  apply upto_in in H1. change (Z.of_nat 256) with 256 in H1.
  unfold is_uint8. split; [lia | exact H2].
Qed.

Lemma products_valid :
  forallb (fun a => forallb Valid (map (Mul a) validCodes)) validCodes = true.
Proof. vm_compute. reflexivity. Qed.

Lemma products_distinct :
  forallb (fun a => nodupb (map (Mul a) validCodes)) validCodes = true.
Proof. vm_compute. reflexivity. Qed.

Lemma products_cover :
  forallb (fun a =>
    let row := map (Mul a) validCodes in
    forallb (fun c => existsb (Z.eqb c) row) validCodes) validCodes = true.
Proof. vm_compute. reflexivity. Qed.

Lemma inverses_valid :
  forallb (fun m => Valid (Inverse m)) validCodes = true.
Proof. vm_compute. reflexivity. Qed.

Lemma inverses_right :
  forallb (fun m => Mul m (Inverse m) =? 4) validCodes = true.
Proof. vm_compute. reflexivity. Qed.

Lemma inverses_left :
  forallb (fun m => Mul (Inverse m) m =? 4) validCodes = true.
Proof. vm_compute. reflexivity. Qed.

Lemma matInverses_init : matInverses = init (repeat 0 128).
Proof. vm_compute. reflexivity. Qed.

(** C2: exactly 48 codes are valid, among the 128 codes with bit 7 clear and
    among all 256 values of a byte; the product of two valid codes is
    valid; and for a valid [a] the map [b |-> Mul a b] is injective on the
    valid codes and reaches every valid code. *)
Theorem valid_codes_closed_latin_square (a b : Matrix3x3) :
  is_uint8 a -> is_uint8 b -> Valid a = true -> Valid b = true ->
  length (filter Valid (upto 128)) = 48%nat
  /\ length (filter Valid (upto 256)) = 48%nat
  /\ Valid (Mul a b) = true
  /\ (forall b', is_uint8 b' -> Valid b' = true ->
        Mul a b = Mul a b' -> b = b')
  /\ (exists c, is_uint8 c /\ Valid c = true /\ Mul a c = b).
Proof.
  intros Ha Hb Va Vb.
  pose proof (valid_in_validCodes a Ha Va) as Ia.
  pose proof (valid_in_validCodes b Hb Vb) as Ib.
  split; [vm_compute; reflexivity |].
  split; [vm_compute; reflexivity |].
  split.
  { exact (forallb_map_elim (Mul a) Valid validCodes
             (forallb_elim _ _ products_valid a Ia) b Ib). }
  split.
  - intros b' Hb' Vb' Heq.
    pose proof (valid_in_validCodes b' Hb' Vb') as Ib'.
    exact (nodupb_map_inj (Mul a) validCodes
             (forallb_elim _ _ products_distinct a Ia) b b' Ib Ib' Heq).
  - destruct (covers_map_surj (Mul a) validCodes validCodes
                (forallb_elim _ _ products_cover a Ia) b Ib) as [c [Hc Hm]].
    destruct (validCodes_valid c Hc) as [Hr Hv].
    exists c. split; [exact Hr | split; [exact Hv | exact Hm]].
Qed.

Lemma valid_codes_closed_latin_square_witness :
  length (filter Valid (upto 128)) = 48%nat
  /\ length (filter Valid (upto 256)) = 48%nat
  /\ Valid (Mul 17 40) = true
  /\ (forall b', is_uint8 b' -> Valid b' = true ->
        Mul 17 40 = Mul 17 b' -> 40 = b')
  /\ (exists c, is_uint8 c /\ Valid c = true /\ Mul 17 c = 40).
Proof.
  apply (valid_codes_closed_latin_square 17 40);
    [unfold is_uint8; lia | unfold is_uint8; lia
    | vm_compute; reflexivity | vm_compute; reflexivity].
Defined.

(** C3: the inverse of a valid code is a valid code, the two products of a
    valid code with its inverse are the identity code 0x04, the identity
    times itself is the identity and the identity is its own inverse. *)
Theorem inverse_is_two_sided (m : Matrix3x3) :
  is_uint8 m -> Valid m = true ->
  Valid (Inverse m) = true
  /\ Mul m (Inverse m) = Matrix3x3Identity
  /\ Mul (Inverse m) m = Matrix3x3Identity
  /\ Matrix3x3Identity = 4
  /\ Mul Matrix3x3Identity Matrix3x3Identity = Matrix3x3Identity
  /\ Inverse Matrix3x3Identity = Matrix3x3Identity.
Proof.
  intros Hm Vm.
  pose proof (valid_in_validCodes m Hm Vm) as Im.
  split; [exact (forallb_elim _ _ inverses_valid m Im) |].
  split; [apply Z.eqb_eq; exact (forallb_elim _ _ inverses_right m Im) |].
  split; [apply Z.eqb_eq; exact (forallb_elim _ _ inverses_left m Im) |].
  split; [reflexivity |].
  split; vm_compute; reflexivity.
Qed.

Lemma inverse_is_two_sided_witness :
  Valid (Inverse 17) = true
  /\ Mul 17 (Inverse 17) = Matrix3x3Identity
  /\ Mul (Inverse 17) 17 = Matrix3x3Identity
  /\ Matrix3x3Identity = 4
  /\ Mul Matrix3x3Identity Matrix3x3Identity = Matrix3x3Identity
  /\ Inverse Matrix3x3Identity = Matrix3x3Identity.
Proof.
  apply (inverse_is_two_sided 17);
    [unfold is_uint8; lia | vm_compute; reflexivity].
Defined.

Lemma Get_decoded (m : Matrix3x3) (i j : Z) :
  Get m i j = (if j =? row_col m i then 1 else 0) * row_sign m i.
Proof.
  unfold Get, row_col, row_sign, eqm3.
  destruct (i =? 0); [reflexivity |]. destruct (i =? 1); reflexivity.
Qed.

Lemma row_sign_cases (m : Matrix3x3) (i : Z) :
  row_sign m i = 1 \/ row_sign m i = -1.
Proof.
  unfold row_sign, signm3.
  destruct (i =? 0); [| destruct (i =? 1)];
    match goal with |- context [if ?c then _ else _] => destruct c end; auto.
Qed.

Lemma MulVec_rows (m : Matrix3x3) (x y z : Z) :
  MulVec m (x, y, z) =
  (int_add (int_add (int_add 0 (int_mul (Get m 0 0) x)) (int_mul (Get m 0 1) y))
     (int_mul (Get m 0 2) z),
   int_add (int_add (int_add 0 (int_mul (Get m 1 0) x)) (int_mul (Get m 1 1) y))
     (int_mul (Get m 1 2) z),
   int_add (int_add (int_add 0 (int_mul (Get m 2 0) x)) (int_mul (Get m 2 1) y))
     (int_mul (Get m 2 2) z)).
Proof. reflexivity. Qed.

Lemma wrap64_0 : wrap64 0 = 0.
Proof. vm_compute. reflexivity. Qed.

Lemma row_value (s c x y z : Z) :
  0 <= c < 3 -> s = 1 \/ s = -1 -> is_int x -> is_int y -> is_int z ->
  int_add (int_add (int_add 0
    (int_mul ((if 0 =? c then 1 else 0) * s) x))
    (int_mul ((if 1 =? c then 1 else 0) * s) y))
    (int_mul ((if 2 =? c then 1 else 0) * s) z)
  = signed_component s c (x, y, z).
Proof.
  intros Hc Hs Hx Hy Hz.
  assert (Hc' : c = 0 \/ c = 1 \/ c = 2) by lia.
  unfold signed_component, int_add, int_mul, int_neg.
  destruct Hc' as [-> | [-> | ->]]; destruct Hs as [-> | ->];
    cbn [Z.eqb Pos.eqb vget];
    repeat rewrite ?Z.mul_0_l, ?Z.mul_1_l, ?wrap64_0, ?Z.add_0_l, ?Z.add_0_r;
    try replace (-1 * x) with (- x) by lia;
    try replace (-1 * y) with (- y) by lia;
    try replace (-1 * z) with (- z) by lia;
    repeat rewrite (wrap64_id (wrap64 _)) by apply wrap64_range;
    try (rewrite wrap64_id by assumption); reflexivity.
Qed.

Lemma cols_permute_valid :
  forallb cols_permute validCodes = true.
Proof. vm_compute. reflexivity. Qed.

Lemma MulVec_signed_permutation (m : Matrix3x3) (v : vec3) :
  is_uint8 m -> Valid m = true -> is_int_vec v ->
  MulVec m v =
  (signed_component (row_sign m 0) (row_col m 0) v,
   signed_component (row_sign m 1) (row_col m 1) v,
   signed_component (row_sign m 2) (row_col m 2) v).
Proof.
  intros Hm Vm Hv. destruct v as [[x y] z].
  destruct Hv as [Hx [Hy Hz]]. cbn [vget Z.eqb] in Hx, Hy, Hz.
  pose proof (forallb_elim _ _ cols_permute_valid m (valid_in_validCodes m Hm Vm)) as Hp.
  unfold cols_permute in Hp. cbv zeta in Hp.
  repeat (apply andb_prop in Hp; destruct Hp as [Hp ?]).
  cbn [forallb] in Hp.
  repeat (apply andb_prop in Hp; destruct Hp as [? Hp]).
  rewrite MulVec_rows. rewrite !Get_decoded.
  rewrite !row_value; try assumption; try apply row_sign_cases; try lia.
  reflexivity.
Qed.

Lemma abseq_refl (a : Z) : abseq a a = true.
Proof. unfold abseq. rewrite Z.eqb_refl. reflexivity. Qed.

Lemma abseq_neg (a : Z) : is_int a -> abseq a (int_neg a) = true.
Proof.
  intros H. unfold abseq. rewrite (int_neg_involutive a H), Z.eqb_refl.
  apply orb_true_r.
Qed.

Ltac try_perm I J :=
  apply existsb_exists; exists I; split; [cbn; tauto |];
  apply existsb_exists; exists J; split; [cbn; tauto |];
  cbn -[abseq int_neg];
  rewrite ?abseq_refl, ?abseq_neg by assumption; reflexivity.

Ltac find_perm :=
  first [ try_perm 0 0 | try_perm 0 1 | try_perm 1 0 | try_perm 1 1
        | try_perm 2 0 | try_perm 2 1 ].

Lemma signed_permutation_plausible (c0 c1 c2 s0 s1 s2 x y z : Z) :
  0 <= c0 < 3 -> 0 <= c1 < 3 -> 0 <= c2 < 3 ->
  c0 <> c1 -> c0 <> c2 -> c1 <> c2 ->
  s0 = 1 \/ s0 = -1 -> s1 = 1 \/ s1 = -1 -> s2 = 1 \/ s2 = -1 ->
  is_int x -> is_int y -> is_int z ->
  vecSeemsPlausible (x, y, z)
    (signed_component s0 c0 (x, y, z),
     signed_component s1 c1 (x, y, z),
     signed_component s2 c2 (x, y, z)) = true.
Proof.
  intros H0 H1 H2 D01 D02 D12 S0 S1 S2 Hx Hy Hz.
  assert (E0 : c0 = 0 \/ c0 = 1 \/ c0 = 2) by lia.
  assert (E1 : c1 = 0 \/ c1 = 1 \/ c1 = 2) by lia.
  assert (E2 : c2 = 0 \/ c2 = 1 \/ c2 = 2) by lia.
  unfold vecSeemsPlausible.
  change (upto 3) with [0; 1; 2]. change (upto 2) with [0; 1].
  destruct E0 as [-> | [-> | ->]]; destruct E1 as [-> | [-> | ->]];
    destruct E2 as [-> | [-> | ->]]; try lia;
    destruct S0 as [-> | ->]; destruct S1 as [-> | ->]; destruct S2 as [-> | ->];
    unfold signed_component; cbn [Z.eqb Pos.eqb vget];
    find_perm.
Qed.

Lemma valid_cols (m : Matrix3x3) :
  is_uint8 m -> Valid m = true ->
  (0 <= row_col m 0 < 3 /\ 0 <= row_col m 1 < 3 /\ 0 <= row_col m 2 < 3)
  /\ row_col m 0 <> row_col m 1 /\ row_col m 0 <> row_col m 2
  /\ row_col m 1 <> row_col m 2.
Proof.
  intros Hm Vm.
  pose proof (forallb_elim _ _ cols_permute_valid m (valid_in_validCodes m Hm Vm)) as Hp.
  unfold cols_permute in Hp. cbv zeta in Hp.
  repeat (apply andb_prop in Hp; destruct Hp as [Hp ?]).
  cbn [forallb] in Hp.
  repeat (apply andb_prop in Hp; destruct Hp as [? Hp]).
  repeat match goal with
         | H : negb (_ =? _) = true |- _ =>
             apply negb_true_iff in H; apply Z.eqb_neq in H
         | H : (_ && _) = true |- _ => apply andb_prop in H; destruct H
         | H : (_ <=? _) = true |- _ => apply Z.leb_le in H
         | H : (_ <? _) = true |- _ => apply Z.ltb_lt in H
         end.
  repeat split; assumption.
Qed.

(** C4: for a valid code and a vector of [int]s, [MulVec] answers the
    components of the vector in some order, each possibly negated (the test
    helper [vecSeemsPlausible] accepts the result); and the matrix [Get]
    decodes has in every row and in every column exactly one entry that is
    not zero, which is 1 or -1. *)
Theorem MulVec_permutes_up_to_sign (m : Matrix3x3) (v : vec3) :
  is_uint8 m -> Valid m = true -> is_int_vec v ->
  vecSeemsPlausible v (MulVec m v) = true
  /\ MulVec m v =
     (signed_component (row_sign m 0) (row_col m 0) v,
      signed_component (row_sign m 1) (row_col m 1) v,
      signed_component (row_sign m 2) (row_col m 2) v)
  /\ (forall i, 0 <= i < 3 ->
        exists j, 0 <= j < 3 /\ (Get m i j = 1 \/ Get m i j = -1)
                  /\ forall j', 0 <= j' < 3 -> j' <> j -> Get m i j' = 0)
  /\ (forall j, 0 <= j < 3 ->
        exists i, 0 <= i < 3 /\ (Get m i j = 1 \/ Get m i j = -1)
                  /\ forall i', 0 <= i' < 3 -> i' <> i -> Get m i' j = 0).
Proof.
  intros Hm Vm Hv.
  destruct (valid_cols m Hm Vm) as [[R0 [R1 R2]] [D01 [D02 D12]]].
  pose proof (MulVec_signed_permutation m v Hm Vm Hv) as HM.
  assert (Hcol : forall i, 0 <= i < 3 -> 0 <= row_col m i < 3).
  { intros i Hi. assert (E : i = 0 \/ i = 1 \/ i = 2) by lia.
    destruct E as [-> | [-> | ->]]; assumption. }
  assert (Hone : forall i j, j = row_col m i -> Get m i j = 1 \/ Get m i j = -1).
  { intros i j ->. rewrite Get_decoded, Z.eqb_refl, Z.mul_1_l.
    apply row_sign_cases. }
  assert (Hzero : forall i j, j <> row_col m i -> Get m i j = 0).
  { intros i j Hj. rewrite Get_decoded.
    apply Z.eqb_neq in Hj. rewrite Hj. apply Z.mul_0_l. }
  split.
  { rewrite HM. destruct v as [[x y] z]. destruct Hv as [Hx [Hy Hz]].
    apply signed_permutation_plausible; try assumption; apply row_sign_cases. }
  split; [exact HM |].
  split.
  - intros i Hi. exists (row_col m i).
    split; [apply Hcol; exact Hi |].
    split; [apply Hone; reflexivity |].
    intros j' _ Hj'. apply Hzero. exact Hj'.
  - intros j Hj.
    assert (E : row_col m 0 = j \/ row_col m 1 = j \/ row_col m 2 = j) by lia.
    destruct E as [E | [E | E]];
      [exists 0 | exists 1 | exists 2];
      (split; [lia |]);
      (split; [apply Hone; symmetry; exact E |]);
      intros i' Hi' Hne; apply Hzero;
      assert (E' : i' = 0 \/ i' = 1 \/ i' = 2) by lia;
      destruct E' as [-> | [-> | ->]]; lia.
Qed.

Lemma MulVec_permutes_up_to_sign_witness :
  vecSeemsPlausible (5, -2, 7) (MulVec 40 (5, -2, 7)) = true
  /\ MulVec 40 (5, -2, 7) =
     (signed_component (row_sign 40 0) (row_col 40 0) (5, -2, 7),
      signed_component (row_sign 40 1) (row_col 40 1) (5, -2, 7),
      signed_component (row_sign 40 2) (row_col 40 2) (5, -2, 7))
  /\ (forall i, 0 <= i < 3 ->
        exists j, 0 <= j < 3 /\ (Get 40 i j = 1 \/ Get 40 i j = -1)
                  /\ forall j', 0 <= j' < 3 -> j' <> j -> Get 40 i j' = 0)
  /\ (forall j, 0 <= j < 3 ->
        exists i, 0 <= i < 3 /\ (Get 40 i j = 1 \/ Get 40 i j = -1)
                  /\ forall i', 0 <= i' < 3 -> i' <> i -> Get 40 i' j = 0).
Proof.
  apply (MulVec_permutes_up_to_sign 40 (5, -2, 7)).
  - unfold is_uint8. lia.
  - vm_compute. reflexivity.
  - unfold is_int_vec, is_int, vget. cbn [Z.eqb Pos.eqb]. lia.
Defined.

(** ** voxReader *)

Lemma make_nonneg {A} (z : A) (n : Z) :
  0 <= n -> make z n = Done (repeat z (Z.to_nat n)).
Proof.
  intros H. unfold make.
  destruct (n <? 0) eqn:E; [apply Z.ltb_lt in E; lia | reflexivity].
Qed.

Lemma ReadBytes_latched (vr : voxReader) (e : error) (n : Z) :
  err vr = Some e -> 0 <= n ->
  ReadBytes n vr = Done (repeat x00 (Z.to_nat n), vr).
Proof.
  intros He Hn. unfold ReadBytes. rewrite (make_nonneg x00 n Hn), He.
  reflexivity.
Qed.

Lemma ReadBytes_short (src : bytes) (n : Z) :
  Z.of_nat (length src) < n ->
  ReadBytes n (newReader src) =
  Done (src ++ repeat x00 (Z.to_nat n - length src),
        mkReader [] (Some (match src with
                           | [] => EOF
                           | _ :: _ => ErrUnexpectedEOF
                           end))).
Proof.
  intros H. unfold ReadBytes, newReader. cbn [err r].
  rewrite (make_nonneg x00 n) by lia.
  unfold ReadFull.
  destruct (Z.to_nat n) as [| k] eqn:En; [lia |].
  destruct src as [| b src'].
  - cbn [app length Nat.sub]. reflexivity.
  - assert (Hlt : (length (b :: src') <? S k)%nat = true)
      by (apply Nat.ltb_lt; lia).
    rewrite Hlt. reflexivity.
Qed.

Lemma ReadBytes_exact (src rest : bytes) (n : Z) :
  0 <= n -> Z.of_nat (length src) = n ->
  ReadBytes n (newReader (src ++ rest)) = Done (src, newReader rest).
Proof.
  intros Hn H. unfold ReadBytes, newReader. cbn [err r].
  rewrite (make_nonneg x00 n Hn).
  unfold ReadFull.
  destruct (Z.to_nat n) as [| k] eqn:En.
  - destruct src; [reflexivity | cbn [length] in H; lia].
  - destruct src as [| b src']; [cbn [length] in H; lia |].
    cbn [app].
    assert (Hlt : (length (b :: src' ++ rest) <? S k)%nat = false).
    { apply Nat.ltb_ge. cbn [length]. rewrite length_app. cbn [length] in H. lia. }
    rewrite Hlt.
    change (b :: src' ++ rest) with ((b :: src') ++ rest).
    assert (Hk : S k = length (b :: src')) by lia.
    rewrite Hk, firstn_app, skipn_app, firstn_all, skipn_all, Nat.sub_diag.
    cbn [firstn skipn]. rewrite app_nil_r. reflexivity.
Qed.

(** C8, as the code has it: a short read latches [io.EOF] when nothing was
    left and [io.ErrUnexpectedEOF] otherwise, and the buffer of length [n]
    holds the bytes that were left followed by zeros; once an error is
    latched every read answers zeros and leaves the reader, error included,
    as it was, and [Error] reports the error without clearing it. *)
Theorem short_read_latches_and_reads_become_noops
    (src : bytes) (n : Z) (vr : voxReader) (e : error) (k : Z) (label : string) :
  Z.of_nat (length src) < n -> err vr = Some e -> 0 <= k ->
  ReadBytes n (newReader src) =
    Done (src ++ repeat x00 (Z.to_nat n - length src),
          mkReader [] (Some (match src with
                             | [] => EOF
                             | _ :: _ => ErrUnexpectedEOF
                             end)))
  /\ Z.of_nat (length (src ++ repeat x00 (Z.to_nat n - length src))) = n
  /\ ReadBytes k vr = Done (repeat x00 (Z.to_nat k), vr)
  /\ ReadUint8 vr = Done (0, vr)
  /\ ReadInt32 vr = Done (0, vr)
  /\ ReadString vr = Done ([], vr)
  /\ RequireEOF label vr = Done (tt, vr)
  /\ Error vr = Done (Some e, vr).
Proof.
  intros Hshort He Hk.
  split; [apply ReadBytes_short; exact Hshort |].
  split; [rewrite length_app, repeat_length; lia |].
  split; [apply (ReadBytes_latched vr e k He Hk) |].
  assert (H1 : ReadUint8 vr = Done (0, vr)).
  { unfold ReadUint8, vr_bind. rewrite (ReadBytes_latched vr e 1 He) by lia.
    reflexivity. }
  assert (H4 : ReadInt32 vr = Done (0, vr)).
  { unfold ReadInt32, vr_bind. rewrite (ReadBytes_latched vr e 4 He) by lia.
    reflexivity. }
  split; [exact H1 |].
  split; [exact H4 |].
  split.
  { unfold ReadString, vr_bind. rewrite H4.
    rewrite (ReadBytes_latched vr e 0 He) by lia. reflexivity. }
  split.
  { unfold RequireEOF. rewrite He. reflexivity. }
  unfold Error. rewrite He. reflexivity.
Qed.

Lemma short_read_latches_and_reads_become_noops_witness :
  ReadBytes 4 (newReader [x01; x02]) =
    Done ([x01; x02] ++ repeat x00 (Z.to_nat 4 - length [x01; x02]),
          mkReader [] (Some ErrUnexpectedEOF))
  /\ Z.of_nat (length ([x01; x02] ++ repeat x00 (Z.to_nat 4 - length [x01; x02]))) = 4
  /\ ReadBytes 3 (mkReader [x07] (Some EOF)) =
       Done (repeat x00 (Z.to_nat 3), mkReader [x07] (Some EOF))
  /\ ReadUint8 (mkReader [x07] (Some EOF)) = Done (0, mkReader [x07] (Some EOF))
  /\ ReadInt32 (mkReader [x07] (Some EOF)) = Done (0, mkReader [x07] (Some EOF))
  /\ ReadString (mkReader [x07] (Some EOF)) = Done ([], mkReader [x07] (Some EOF))
  /\ RequireEOF "PACK" (mkReader [x07] (Some EOF)) = Done (tt, mkReader [x07] (Some EOF))
  /\ Error (mkReader [x07] (Some EOF)) = Done (Some EOF, mkReader [x07] (Some EOF)).
Proof.
  apply (short_read_latches_and_reads_become_noops
           [x01; x02] 4 (mkReader [x07] (Some EOF)) EOF 3 "PACK").
  - cbn [length]. lia.
  - reflexivity.
  - lia.
Defined.

(** C8 as stated fails: with two bytes left, [ReadBytes 4] answers a
    buffer that starts with those two bytes. *)
Lemma short_read_buffer_not_zero_filled :
  ~ (forall (src : bytes) (n : Z),
       Z.of_nat (length src) < n ->
       exists vr', ReadBytes n (newReader src)
                   = Done (repeat x00 (Z.to_nat n), vr')).
Proof.
  intros H. destruct (H [x01; x02] 4 ltac:(cbn [length]; lia)) as [vr' E].
  vm_compute in E. discriminate E.
Qed.

(** ** Parsing whole files *)

Section FileExamples.
Context {F : Float32Ops}.


(** The minimal file with a LAYR chunk and no MATL chunk: [buildMain]
    indexes the empty [mats] and panics. *)
Lemma minimal_file_without_material_panics :
  Parse minimal_file_layr = Panic (IndexOutOfRange 1 0).
Proof. vm_compute. reflexivity. Qed.

(** C7 at a failing input: the RGBA chunk holds 8 bytes.  Its decoder
    reports [io.EOF], the loop drops that error, and the parse succeeds
    with the colours of the slots from 3 on zeroed. *)
Theorem short_palette_is_accepted :
  parseRGBAChunk (sample_palette_bytes 2)
    = Done (map sample_rgba (upto 2) ++ repeat (mkRGBA 0 0 0 0) 254, Some EOF)
  /\ exists main,
       Parse file_short_palette = Ok main
       /\ map Color (skipn 1 (Materials main))
          = map sample_rgba (upto 2) ++ repeat (mkRGBA 0 0 0 0) 253.
Proof.
  split; [vm_compute; reflexivity |].
  eexists. split; vm_compute; reflexivity.
Qed.

(** The same with 1028 bytes: the decoder reports the trailing bytes, and
    the parse succeeds. *)
Lemma long_palette_is_accepted :
  (exists e, parseRGBAChunk (sample_palette_bytes 257)
             = Done (map sample_rgba (upto 256), Some e))
  /\ exists main, Parse file_long_palette = Ok main.
Proof.
  split; eexists; vm_compute; reflexivity.
Qed.

(** C9 at a failing input: shape 2 is counted twice, shape 3 is the child
    of no node, and the scene is accepted. *)
Theorem shared_shape_hides_orphan :
  exists main,
    Parse file_shared_shape = Ok main
    /\ Scene_Node (Main_Scene main) = Some 0
    /\ map (fun kn => (fst kn, children_of (snd kn)))
         (Scene_Heap (Main_Scene main))
       = [(0, [1]); (1, [2; 2]); (2, []); (3, [])]
    /\ nodeCount 5 (Scene_Heap (Main_Scene main)) 0 [] = Ok (4, [1; 0]).
Proof.
  eexists. split; [vm_compute; reflexivity |].
  repeat split; vm_compute; reflexivity.
Qed.

(** C10 at a failing input: transform 2 was recorded with layer 0, the file
    declares layer 0, and after the parse the node has no layer. *)
Theorem inner_transform_has_no_layer :
  exists main,
    Parse file_inner_transform = Ok main
    /\ map Index (Layers (Main_Scene main)) = [0]
    /\ map (fun kn => (fst kn, children_of (snd kn), layer_of (snd kn)))
         (Scene_Heap (Main_Scene main))
       = [(0, [1], None); (1, [2], None); (2, [3], None); (3, [], None)].
Proof.
  eexists. split; [vm_compute; reflexivity |].
  repeat split; vm_compute; reflexivity.
Qed.

(** Unrecognized chunks with child content are skipped, whatever the
    floats are. *)
Lemma unknown_children_parse :
  fst (Parse_log file_unknown_children) = [lit "XXXX"]
  /\ exists main, Parse file_unknown_children = Ok main.
Proof.
  split; [vm_compute; reflexivity |].
  eexists. vm_compute. reflexivity.
Qed.

End FileExamples.



(** ** Association lists *)

Lemma bytes_eqb_eq (a b : bytes) : bytes_eqb a b = true <-> a = b.
Proof.
  revert b. induction a as [| x a IH]; intros [| y b]; cbn [bytes_eqb];
    try (split; [discriminate | discriminate]); [split; reflexivity |].
  rewrite andb_true_iff, IH. split.
  - intros [Hx Hab]. apply Byte.byte_dec_bl in Hx. subst. reflexivity.
  - intros E. injection E as -> ->. split; [apply Byte.byte_dec_lb |]; reflexivity.
Qed.

Lemma bytes_eqb_refl (a : bytes) : bytes_eqb a a = true.
Proof. apply bytes_eqb_eq. reflexivity. Qed.

Section AssocFacts.
Context {K V : Type} (eqb : K -> K -> bool).
Hypothesis eqb_eq : forall a b, eqb a b = true <-> a = b.

Lemma eqb_refl' (a : K) : eqb a a = true.
Proof. apply eqb_eq. reflexivity. Qed.

Lemma eqb_neq' (a b : K) : a <> b -> eqb a b = false.
Proof.
  intros H. destruct (eqb a b) eqn:E; [| reflexivity].
  apply eqb_eq in E. contradiction.
Qed.

Lemma map_lookup_insert (m : list (K * V)) (k : K) (v : V) :
  map_lookup eqb (map_insert eqb m k v) k = Some v.
Proof.
  induction m as [| [k' v'] m IH]; cbn [map_insert map_lookup].
  - rewrite eqb_refl'. reflexivity.
  - destruct (eqb k k') eqn:E; cbn [map_lookup].
    + rewrite eqb_refl'. reflexivity.
    + rewrite E. exact IH.
Qed.

Lemma map_lookup_insert_ne (m : list (K * V)) (k k0 : K) (v : V) :
  k0 <> k ->
  map_lookup eqb (map_insert eqb m k v) k0 = map_lookup eqb m k0.
Proof.
  intros Hne. induction m as [| [k' v'] m IH]; cbn [map_insert map_lookup].
  - rewrite (eqb_neq' k0 k Hne). reflexivity.
  - destruct (eqb k k') eqn:E; cbn [map_lookup].
    + apply eqb_eq in E. subst k'. rewrite (eqb_neq' k0 k Hne). reflexivity.
    + destruct (eqb k0 k'); [reflexivity | exact IH].
Qed.

Lemma map_insert_keys_fresh (m : list (K * V)) (k : K) (v : V) :
  map_lookup eqb m k = None ->
  map_insert eqb m k v = m ++ [(k, v)].
Proof.
  induction m as [| [k' v'] m IH]; cbn [map_insert map_lookup app]; intros H.
  - reflexivity.
  - destruct (eqb k k'); [discriminate |]. rewrite (IH H). reflexivity.
Qed.

Lemma map_insert_length_present (m : list (K * V)) (k : K) (v v0 : V) :
  map_lookup eqb m k = Some v0 ->
  length (map_insert eqb m k v) = length m.
Proof.
  induction m as [| [k' v'] m IH]; cbn [map_insert map_lookup]; intros H.
  - discriminate.
  - destruct (eqb k k'); cbn [length]; [reflexivity |]. rewrite (IH H). reflexivity.
Qed.

Lemma map_insert_keys_present (m : list (K * V)) (k : K) (v v0 : V) :
  map_lookup eqb m k = Some v0 ->
  map fst (map_insert eqb m k v) = map fst m.
Proof.
  induction m as [| [k' v'] m IH]; cbn [map_insert map_lookup]; intros H.
  - discriminate.
  - destruct (eqb k k') eqn:E; cbn [map fst].
    + apply eqb_eq in E. subst. reflexivity.
    + rewrite (IH H). reflexivity.
Qed.

Lemma map_lookup_in (m : list (K * V)) (k : K) (v : V) :
  map_lookup eqb m k = Some v -> In (k, v) m.
Proof.
  induction m as [| [k' v'] m IH]; cbn [map_lookup]; intros H.
  - discriminate.
  - destruct (eqb k k') eqn:E.
    + apply eqb_eq in E. injection H as ->. subst. left. reflexivity.
    + right. exact (IH H).
Qed.

Lemma map_lookup_none_notin (m : list (K * V)) (k : K) :
  map_lookup eqb m k = None -> ~ In k (map fst m).
Proof.
  induction m as [| [k' v'] m IH]; cbn [map_lookup map fst In]; intros H.
  - tauto.
  - destruct (eqb k k') eqn:E; [discriminate |].
    intros [E' | Hin].
    + subst. rewrite eqb_refl' in E. discriminate.
    + exact (IH H Hin).
Qed.

Lemma map_in_lookup (m : list (K * V)) (k : K) :
  In k (map fst m) -> exists v, map_lookup eqb m k = Some v.
Proof.
  induction m as [| [k' v'] m IH]; cbn [map_lookup map fst In]; intros H.
  - destruct H.
  - destruct (eqb k k') eqn:E; [eexists; reflexivity |].
    destruct H as [E' | Hin].
    + subst. rewrite eqb_refl' in E. discriminate.
    + exact (IH Hin).
Qed.
End AssocFacts.

Lemma Z_eqb_eq' (a b : Z) : (a =? b) = true <-> a = b.
Proof. apply Z.eqb_eq. Qed.

(** ** The loop of parseMainChunks *)

Section MainLoop.
Context {F : Float32Ops}.

Ltac break_matches :=
  repeat match goal with
         | H : context [match ?x with _ => _ end] |- _ =>
             destruct x eqn:?; try discriminate
         end.

Ltac invert_oks :=
  repeat match goal with
         | H : Ok _ = Ok _ |- _ => injection H as H; try subst
         | H : Done _ = Done _ |- _ => injection H as H; try subst
         end.

Lemma switch_chunk_keeps_log (v v' : mainVars) (id c : bytes) :
  switch_chunk v id c = Ok v' ->
  logged v' = logged v /\ ignoredChunks v' = ignoredChunks v.
Proof.
  unfold switch_chunk, fail_if, result_bind, set_st. intros H.
  break_matches; invert_oks; cbn [logged ignoredChunks];
    split; reflexivity.
Qed.

Lemma main_loop_unfold (fuel : nat) (v : mainVars) (vr : voxReader) :
  main_loop (S fuel) v vr =
  match parseChunk vr with
  | Panicked p => (logged v, Panic p)
  | Done (inr e, vr') =>
      if is_EOF e then (logged v, main_finish v) else (logged v, Err e)
  | Done (inl (id, c, cc), vr') =>
      match main_step v id c cc with
      | inl v' => main_loop fuel v' vr'
      | inr res => (logged v, res)
      end
  end.
Proof. reflexivity. Qed.

(** What the log and the table of ignored tags keep true. *)
Definition log_inv (v : mainVars) : Prop :=
  NoDup (logged v)
  /\ (forall id, In id (logged v) ->
        map_lookup bytes_eqb (ignoredChunks v) id = Some true)
  /\ (forall id, recognized id = true -> ~ In id (logged v))
  /\ map_lookup bytes_eqb (ignoredChunks v) (lit "rOBJ") = Some true
  /\ ~ In (lit "rOBJ") (logged v).

Lemma log_inv_init : log_inv initVars.
Proof.
  unfold log_inv, initVars. cbn [logged ignoredChunks].
  split; [constructor |]. split; [intros id [] |].
  split; [intros id _ [] |]. split; [vm_compute; reflexivity | intros []].
Qed.

Lemma log_inv_default (v : mainVars) (id : bytes) :
  recognized id = false -> log_inv v -> log_inv (default_chunk v id).
Proof.
  intros Hrec [Hnd [Hin [Hrecog [Hrobj Hnot]]]]. unfold default_chunk.
  destruct (map_lookup bytes_eqb (ignoredChunks v) id) as [[|] |] eqn:E.
  - repeat split; assumption.
  - assert (Hfresh : ~ In id (logged v)).
    { intros C. rewrite (Hin id C) in E. discriminate. }
    assert (Hne : id <> lit "rOBJ").
    { intros ->. rewrite Hrobj in E. discriminate. }
    unfold log_inv. cbn [logged ignoredChunks].
    split.
    { apply NoDup_app; [exact Hnd | repeat constructor; intros [] | ].
      intros x Hx [<- | []]. exact (Hfresh Hx). }
    split.
    { intros id' Hid'. apply in_app_or in Hid'. destruct Hid' as [H' | [<- | []]].
      - destruct (list_eq_dec Byte.byte_eq_dec id' id) as [-> | Hd].
        + apply (map_lookup_insert bytes_eqb bytes_eqb_eq).
        + rewrite (map_lookup_insert_ne bytes_eqb bytes_eqb_eq) by exact Hd.
          exact (Hin id' H').
      - apply (map_lookup_insert bytes_eqb bytes_eqb_eq). }
    split.
    { intros id' Hr Hid'. apply in_app_or in Hid'.
      destruct Hid' as [H' | [<- | []]]; [exact (Hrecog id' Hr H') |].
      rewrite Hr in Hrec. discriminate. }
    split.
    { rewrite (map_lookup_insert_ne bytes_eqb bytes_eqb_eq); [exact Hrobj |].
      intros C. apply Hne. symmetry. exact C. }
    intros C. apply in_app_or in C. destruct C as [C | [C | []]];
      [exact (Hnot C) | exact (Hne C)].
  - assert (Hfresh : ~ In id (logged v)).
    { intros C. rewrite (Hin id C) in E. discriminate. }
    assert (Hne : id <> lit "rOBJ").
    { intros ->. rewrite Hrobj in E. discriminate. }
    unfold log_inv. cbn [logged ignoredChunks].
    split.
    { apply NoDup_app; [exact Hnd | repeat constructor; intros [] | ].
      intros x Hx [<- | []]. exact (Hfresh Hx). }
    split.
    { intros id' Hid'. apply in_app_or in Hid'. destruct Hid' as [H' | [<- | []]].
      - destruct (list_eq_dec Byte.byte_eq_dec id' id) as [-> | Hd].
        + apply (map_lookup_insert bytes_eqb bytes_eqb_eq).
        + rewrite (map_lookup_insert_ne bytes_eqb bytes_eqb_eq) by exact Hd.
          exact (Hin id' H').
      - apply (map_lookup_insert bytes_eqb bytes_eqb_eq). }
    split.
    { intros id' Hr Hid'. apply in_app_or in Hid'.
      destruct Hid' as [H' | [<- | []]]; [exact (Hrecog id' Hr H') |].
      rewrite Hr in Hrec. discriminate. }
    split.
    { rewrite (map_lookup_insert_ne bytes_eqb bytes_eqb_eq); [exact Hrobj |].
      intros C. apply Hne. symmetry. exact C. }
    intros C. apply in_app_or in C. destruct C as [C | [C | []]];
      [exact (Hnot C) | exact (Hne C)].
Qed.

Lemma log_inv_step (v v' : mainVars) (id c cc : bytes) :
  log_inv v -> main_step v id c cc = inl v' -> log_inv v'.
Proof.
  intros Hinv. unfold main_step.
  destruct (recognized id) eqn:Hrec.
  - destruct (switch_chunk v id c) as [v1 | e | p] eqn:Hs; try discriminate.
    destruct (negb (length cc =? 0)%nat); [discriminate |].
    intros H. injection H as <-.
    destruct (switch_chunk_keeps_log v v1 id c Hs) as [Hl Hi].
    unfold log_inv. rewrite Hl, Hi. exact Hinv.
  - intros H. injection H as <-. apply log_inv_default; assumption.
Qed.

Lemma main_loop_log_inv (fuel : nat) :
  forall (v : mainVars) (vr : voxReader),
    log_inv v ->
    exists v', log_inv v' /\ fst (main_loop fuel v vr) = logged v'.
Proof.
  induction fuel as [| fuel IH]; intros v vr Hinv.
  - exists v. split; [exact Hinv | reflexivity].
  - rewrite main_loop_unfold.
    destruct (parseChunk vr) as [[[[[id c] cc] | e] vr'] | p].
    + destruct (main_step v id c cc) as [v1 | res] eqn:Hstep.
      * apply IH. exact (log_inv_step v v1 id c cc Hinv Hstep).
      * exists v. split; [exact Hinv | reflexivity].
    + exists v. split; [exact Hinv |]. destruct (is_EOF e); reflexivity.
    + exists v. split; [exact Hinv | reflexivity].
Qed.

Lemma Parse_log_cases (input : bytes) :
  fst (Parse_log input) = []
  \/ exists c, Parse_log input = parseMainChunks_log (newReader c).
Proof.
  unfold Parse_log.
  destruct (vr_bind _ _ _) as [[[[id ver] e] vr] | p]; [| left; reflexivity].
  destruct e; [left; reflexivity |].
  destruct (negb (bytes_eqb id (lit "VOX "))); [left; reflexivity |].
  destruct (negb (ver =? version)); [left; reflexivity |].
  unfold parseMainChunk_log.
  destruct (parseChunk vr) as [[[[[id' c] cc] | e] vr'] | p];
    try (left; reflexivity).
  destruct (negb (tag_is id' "MAIN")); [left; reflexivity |].
  destruct (negb (length c =? 0)%nat); [left; reflexivity |].
  destruct (RequireEOF "MAIN" vr'); [| left; reflexivity].
  right. exists cc. reflexivity.
Qed.

End MainLoop.


(** ** DenseWorld *)

Lemma quot2_nonneg (e : Z) : 0 <= e -> Z.quot e 2 = e / 2.
Proof. intros H. apply Z.quot_div_nonneg; lia. Qed.

Ltac unwrap_step :=
  match goal with
  | |- context [wrap64 ?z] =>
      rewrite (wrap64_id z) by (unfold is_int, is_int32 in *; lia)
  end.

Ltac unwrap :=
  unfold int_add, int_sub, int_mul, int_neg, int_quot;
  repeat unwrap_step.

Lemma half_bounds (e : Z) :
  0 <= e -> 0 <= e / 2 /\ 2 * (e / 2) <= e /\ e < 2 * (e / 2) + 2.
Proof.
  intros H.
  pose proof (Z.mod_pos_bound e 2 ltac:(lia)).
  pose proof (Z.div_mod e 2 ltac:(lia)). lia.
Qed.

Lemma axis_extent (s c : Z) (v : vec3) :
  0 < vget v c < 2 ^ 63 -> s = 1 \/ s = -1 ->
  int_sub (abs (signed_component s c v)) 1 = vget v c - 1.
Proof.
  intros Hv [-> | ->]; unfold signed_component, abs; cbn [Z.eqb Pos.eqb].
  - destruct (Z.ltb_spec (vget v c) 0); [lia |]. unwrap. reflexivity.
  - rewrite (int_neg_exact (vget v c)) by lia.
    destruct (Z.ltb_spec (- vget v c) 0); [| lia].
    rewrite int_neg_exact by lia. unwrap. lia.
Qed.

Lemma axis_min_eq (S t : Z) :
  0 < S < 2 ^ 63 -> is_int32 t ->
  int_add (int_neg (int_quot (S - 1) 2)) t = axis_lo S t.
Proof.
  intros HS Ht. unfold axis_lo, int_quot.
  rewrite quot2_nonneg by lia.
  pose proof (half_bounds (S - 1) ltac:(lia)).
  unwrap. reflexivity.
Qed.

Lemma axis_max_eq (S t : Z) :
  0 < S < 2 ^ 63 -> is_int32 t ->
  int_add (int_add (S - 1) (int_neg (int_quot (S - 1) 2))) t = axis_hi S t.
Proof.
  intros HS Ht. unfold axis_hi, int_quot.
  rewrite quot2_nonneg by lia.
  pose proof (half_bounds (S - 1) ltac:(lia)).
  unwrap. lia.
Qed.

Lemma axis_size (S t : Z) :
  0 < S < 2 ^ 63 -> is_int32 t ->
  int_add (int_sub (axis_hi S t) (axis_lo S t)) 1 = S.
Proof.
  intros HS Ht. unfold axis_hi, axis_lo.
  pose proof (half_bounds (S - 1) ltac:(lia)).
  unwrap. lia.
Qed.

Lemma axis_bounds (S t : Z) :
  0 < S < 2 ^ 63 -> is_int32 t ->
  axis_lo S t <= axis_hi S t
  /\ - 2 ^ 62 - 2 ^ 31 <= axis_lo S t <= 2 ^ 31
  /\ - 2 ^ 31 <= axis_hi S t <= 2 ^ 62 + 2 ^ 31.
Proof.
  intros HS Ht. unfold axis_hi, axis_lo, is_int32 in *.
  pose proof (half_bounds (S - 1) ltac:(lia)).
  lia.
Qed.

(** The offset of a voxel from the lower bound, as the code computes it. *)
Lemma axis_offset_eq (s S t p : Z) :
  0 < S < 2 ^ 63 -> is_int32 t -> s = 1 \/ s = -1 -> 0 <= p < S ->
  int_sub
    (int_add (if s =? 1 then p else int_neg p)
       (int_sub (axis_lo S t) (axis_corner s S)))
    (axis_lo S t)
  = axis_off s S p
  /\ 0 <= axis_off s S p < S.
Proof.
  intros HS Ht Hs Hp.
  pose proof (half_bounds (S - 1) ltac:(lia)).
  unfold axis_corner, axis_off, axis_lo.
  destruct Hs as [-> | ->]; cbn [Z.eqb Pos.eqb].
  - split; [| lia]. unwrap. lia.
  - split; [| lia]. rewrite (int_neg_exact p) by lia. unwrap. lia.
Qed.

(** *** The corner loop *)

Lemma le3_spec (a b : vec3) :
  le3 a b = true <->
  vget a 0 <= vget b 0 /\ vget a 1 <= vget b 1 /\ vget a 2 <= vget b 2.
Proof.
  unfold le3. rewrite !andb_true_iff, !Z.leb_le. tauto.
Qed.

Lemma vec3_ext (a b : vec3) :
  vget a 0 = vget b 0 -> vget a 1 = vget b 1 -> vget a 2 = vget b 2 -> a = b.
Proof.
  destruct a as [[a0 a1] a2], b as [[b0 b1] b2]. cbn [vget Z.eqb Pos.eqb].
  intros -> -> ->. reflexivity.
Qed.

Section MinSearch.
Variable best : vec3.

Lemma min_search_stays (l : list vec3) :
  (forall q, In q l -> le3 best q = true) ->
  fold_left min_step l best = best.
Proof.
  induction l as [| q l IH]; intros H; [reflexivity |].
  cbn [fold_left]. unfold min_step at 2.
  destruct (le3 q best) eqn:E.
  - assert (q = best) as ->.
    { pose proof (H q (or_introl eq_refl)) as E'.
      apply le3_spec in E, E'. apply vec3_ext; lia. }
    apply IH. intros q' Hq'. apply H. right. exact Hq'.
  - apply IH. intros q' Hq'. apply H. right. exact Hq'.
Qed.

Lemma min_search_finds (l : list vec3) (cur : vec3) :
  In best l ->
  (forall q, In q l -> le3 best q = true) ->
  le3 best cur = true ->
  fold_left min_step l cur = best.
Proof.
  revert cur. induction l as [| q l IH]; intros cur Hin Hall Hcur; [destruct Hin |].
  cbn [fold_left].
  assert (Hall' : forall q', In q' l -> le3 best q' = true)
    by (intros q' Hq'; apply Hall; right; exact Hq').
  destruct Hin as [-> | Hin].
  - unfold min_step at 2. rewrite Hcur. apply min_search_stays. exact Hall'.
  - apply IH; [exact Hin | exact Hall' |].
    unfold min_step. destruct (le3 q cur); [apply Hall; left; reflexivity | exact Hcur].
Qed.
End MinSearch.

Lemma fold_left_nested3 {A} (h : A -> Z -> Z -> Z -> A) (l1 l2 l3 : list Z) (a : A) :
  fold_left (fun a i =>
    fold_left (fun a j => fold_left (fun a k => h a i j k) l3 a) l2 a) l1 a
  = fold_left (fun a t => h a (fst (fst t)) (snd (fst t)) (snd t))
      (triples l1 l2 l3) a.
Proof.
  unfold triples. revert a.
  induction l1 as [| i l1 IH1]; intros a; [reflexivity |].
  cbn [fold_left flat_map]. rewrite fold_left_app, <- IH1. f_equal.
  clear IH1. revert a.
  induction l2 as [| j l2 IH2]; intros a; [reflexivity |].
  cbn [fold_left flat_map]. rewrite fold_left_app, <- IH2. f_equal.
  clear IH2. revert a.
  induction l3 as [| k l3 IH3]; intros a; [reflexivity |].
  cbn [fold_left map]. rewrite <- IH3. reflexivity.
Qed.

Lemma fold_left_map_arg {A B C} (g : A -> C -> A) (f : B -> C) (l : list B) (a : A) :
  fold_left (fun a b => g a (f b)) l a = fold_left g (map f l) a.
Proof.
  revert a. induction l as [| b l IH]; intros a; [reflexivity |].
  cbn [fold_left map]. apply IH.
Qed.

Lemma fold_left_ext_eq {A B} (f g : A -> B -> A) (l : list B) (a : A) :
  (forall x y, f x y = g x y) -> fold_left f l a = fold_left g l a.
Proof.
  intros H. revert a. induction l as [| b l IH]; intros a; [reflexivity |].
  cbn [fold_left]. rewrite H. apply IH.
Qed.

Lemma minCornerOf_flat (mat : Matrix3x3) (m : Model) :
  minCornerOf mat m =
  fold_left min_step
    (map (fun t => MulVec mat (corner_of m t)) (triples (upto 2) (upto 2) (upto 2)))
    (MaxInt64, MaxInt64, MaxInt64).
Proof.
  unfold minCornerOf.
  rewrite (fold_left_nested3
             (fun minCorner i j k =>
                let x := (int_mul i (int_sub (Model_X m) 1),
                          int_mul j (int_sub (Model_Y m) 1),
                          int_mul k (int_sub (Model_Z m) 1)) in
                let mx := MulVec mat x in
                if (vget mx 0 <=? vget minCorner 0) && (vget mx 1 <=? vget minCorner 1)
                   && (vget mx 2 <=? vget minCorner 2)
                then mx else minCorner)).
  rewrite <- (fold_left_map_arg min_step
                (fun t => MulVec mat (corner_of m t))).
  apply fold_left_ext_eq. intros cur t.
  unfold min_step, le3, corner_of. cbv zeta. reflexivity.
Qed.


Lemma sizes_ok_vget (m : Model) (c : Z) :
  sizes_ok m -> 0 < vget (sizes_of m) c < 2 ^ 63.
Proof.
  intros [Hx [Hy Hz]]. unfold sizes_of, vget.
  destruct (c =? 0); [exact Hx |]. destruct (c =? 1); assumption.
Qed.

Lemma int_mul_bit (b x : Z) :
  b = 0 \/ b = 1 -> is_int x -> int_mul b x = b * x.
Proof.
  intros [-> | ->] Hx; unfold int_mul; rewrite ?Z.mul_0_l, ?Z.mul_1_l;
    [apply wrap64_0 | apply wrap64_id; exact Hx].
Qed.

Lemma corner_component (m : Model) (b0 b1 b2 c : Z) :
  sizes_ok m -> 0 <= c < 3 ->
  b0 = 0 \/ b0 = 1 -> b1 = 0 \/ b1 = 1 -> b2 = 0 \/ b2 = 1 ->
  vget (corner_of m (b0, b1, b2)) c
  = vget (b0, b1, b2) c * (vget (sizes_of m) c - 1).
Proof.
  intros [Hx [Hy Hz]] Hc B0 B1 B2.
  assert (E : c = 0 \/ c = 1 \/ c = 2) by lia.
  unfold corner_of, sizes_of. cbn [fst snd].
  destruct E as [-> | [-> | ->]]; cbn [vget Z.eqb Pos.eqb];
    unfold int_sub; rewrite wrap64_id by (unfold is_int; lia);
    apply int_mul_bit; try assumption; unfold is_int; lia.
Qed.

Lemma corner_is_int (m : Model) (b0 b1 b2 : Z) :
  sizes_ok m ->
  b0 = 0 \/ b0 = 1 -> b1 = 0 \/ b1 = 1 -> b2 = 0 \/ b2 = 1 ->
  is_int_vec (corner_of m (b0, b1, b2)).
Proof.
  intros Hs B0 B1 B2. unfold is_int_vec.
  rewrite !(corner_component m b0 b1 b2) by (assumption || lia).
  pose proof (sizes_ok_vget m 0 Hs). pose proof (sizes_ok_vget m 1 Hs).
  pose proof (sizes_ok_vget m 2 Hs).
  cbn [vget Z.eqb Pos.eqb] in *. unfold is_int.
  destruct B0 as [-> | ->], B1 as [-> | ->], B2 as [-> | ->]; lia.
Qed.

Lemma in_triples_bits (t : Z * Z * Z) :
  In t (triples (upto 2) (upto 2) (upto 2)) <->
  exists b0 b1 b2, t = (b0, b1, b2)
    /\ (b0 = 0 \/ b0 = 1) /\ (b1 = 0 \/ b1 = 1) /\ (b2 = 0 \/ b2 = 1).
Proof.
  change (triples (upto 2) (upto 2) (upto 2))
    with [(0,0,0); (0,0,1); (0,1,0); (0,1,1); (1,0,0); (1,0,1); (1,1,0); (1,1,1)].
  split.
  - intros H. cbn [In] in H.
    repeat (destruct H as [<- | H]; [do 3 eexists; split; [reflexivity | lia] |]).
    destruct H.
  - intros [b0 [b1 [b2 [-> [[-> | ->] [[-> | ->] [-> | ->]]]]]]]; cbn [In]; tauto.
Qed.

Lemma minCornerOf_value (mat : Matrix3x3) (m : Model) :
  is_uint8 mat -> Valid mat = true -> sizes_ok m ->
  minCornerOf mat m =
  (axis_corner (row_sign mat 0) (vget (sizes_of m) (row_col mat 0)),
   axis_corner (row_sign mat 1) (vget (sizes_of m) (row_col mat 1)),
   axis_corner (row_sign mat 2) (vget (sizes_of m) (row_col mat 2))).
Proof.
  intros Hm Vm Hs.
  destruct (valid_cols mat Hm Vm) as [[R0 [R1 R2]] [D01 [D02 D12]]].
  pose proof (row_sign_cases mat 0) as S0.
  pose proof (row_sign_cases mat 1) as S1.
  pose proof (row_sign_cases mat 2) as S2.
  rewrite minCornerOf_flat.
  set (c0 := row_col mat 0) in *. set (c1 := row_col mat 1) in *.
  set (c2 := row_col mat 2) in *.
  set (s0 := row_sign mat 0) in *. set (s1 := row_sign mat 1) in *.
  set (s2 := row_sign mat 2) in *.
  assert (Hf : forall b0 b1 b2,
             b0 = 0 \/ b0 = 1 -> b1 = 0 \/ b1 = 1 -> b2 = 0 \/ b2 = 1 ->
             MulVec mat (corner_of m (b0, b1, b2)) =
             (signed_component s0 c0 (corner_of m (b0, b1, b2)),
              signed_component s1 c1 (corner_of m (b0, b1, b2)),
              signed_component s2 c2 (corner_of m (b0, b1, b2)))).
  { intros b0 b1 b2 B0 B1 B2.
    apply MulVec_signed_permutation; try assumption.
    apply corner_is_int; assumption. }
  assert (Hle : forall s c p,
             s = 1 \/ s = -1 -> 0 <= c < 3 ->
             p = 0 \/ p = 1 ->
             axis_corner s (vget (sizes_of m) c)
             <= (if s =? 1 then p * (vget (sizes_of m) c - 1)
                 else int_neg (p * (vget (sizes_of m) c - 1)))).
  { intros s c p Hsg Hc Hp. pose proof (sizes_ok_vget m c Hs).
    unfold axis_corner.
    destruct Hsg as [-> | ->]; cbn [Z.eqb Pos.eqb]; destruct Hp as [-> | ->];
      rewrite ?int_neg_exact by lia; lia. }
  assert (Hbit : forall b0 b1 b2 c, 0 <= c < 3 ->
             b0 = 0 \/ b0 = 1 -> b1 = 0 \/ b1 = 1 -> b2 = 0 \/ b2 = 1 ->
             vget (b0, b1, b2) c = 0 \/ vget (b0, b1, b2) c = 1).
  { intros b0 b1 b2 c Hc B0 B1 B2. unfold vget.
    destruct (c =? 0); [exact B0 |]. destruct (c =? 1); assumption. }
  apply min_search_finds.
  - (* the corner that is mapped to the least point *)
    set (bit := fun a => if c0 =? a then neg_bit s0
                         else if c1 =? a then neg_bit s1 else neg_bit s2).
    assert (Bb : forall a, bit a = 0 \/ bit a = 1).
    { intros a. unfold bit, neg_bit.
      destruct (c0 =? a); [| destruct (c1 =? a)];
        match goal with |- context [if ?s =? 1 then _ else _] =>
          destruct (s =? 1) end; auto. }
    apply in_map_iff. exists (bit 0, bit 1, bit 2). split.
    + rewrite Hf by apply Bb.
      assert (Hrow : forall s c, s = 1 \/ s = -1 -> 0 <= c < 3 ->
                 vget (bit 0, bit 1, bit 2) c = neg_bit s ->
                 signed_component s c (corner_of m (bit 0, bit 1, bit 2))
                 = axis_corner s (vget (sizes_of m) c)).
      { intros s c Hsg Hc Hb. pose proof (sizes_ok_vget m c Hs).
        unfold signed_component.
        rewrite corner_component by (assumption || apply Bb).
        rewrite Hb. unfold neg_bit, axis_corner.
        destruct Hsg as [-> | ->]; cbn [Z.eqb Pos.eqb].
        - lia.
        - rewrite Z.mul_1_l. apply int_neg_exact. lia. }
      assert (V0 : vget (bit 0, bit 1, bit 2) c0 = neg_bit s0).
      { assert (E : c0 = 0 \/ c0 = 1 \/ c0 = 2) by lia.
        destruct E as [E | [E | E]]; rewrite E; cbn [vget Z.eqb Pos.eqb];
          unfold bit; rewrite E; reflexivity. }
      assert (V1 : vget (bit 0, bit 1, bit 2) c1 = neg_bit s1).
      { assert (E : c1 = 0 \/ c1 = 1 \/ c1 = 2) by lia.
        destruct E as [E | [E | E]]; rewrite E; cbn [vget Z.eqb Pos.eqb];
          unfold bit; rewrite <- E;
          rewrite (proj2 (Z.eqb_neq c0 c1) D01), Z.eqb_refl; reflexivity. }
      assert (V2 : vget (bit 0, bit 1, bit 2) c2 = neg_bit s2).
      { assert (E : c2 = 0 \/ c2 = 1 \/ c2 = 2) by lia.
        destruct E as [E | [E | E]]; rewrite E; cbn [vget Z.eqb Pos.eqb];
          unfold bit; rewrite <- E;
          rewrite (proj2 (Z.eqb_neq c0 c2) D02), (proj2 (Z.eqb_neq c1 c2) D12);
          reflexivity. }
      rewrite (Hrow s0 c0 S0 R0 V0), (Hrow s1 c1 S1 R1 V1), (Hrow s2 c2 S2 R2 V2).
      reflexivity.
    + apply in_triples_bits. do 3 eexists. split; [reflexivity |].
      split; [apply Bb |]. split; apply Bb.
  - intros q Hq. apply in_map_iff in Hq. destruct Hq as [t [<- Ht]].
    apply in_triples_bits in Ht.
    destruct Ht as [b0 [b1 [b2 [-> [B0 [B1 B2]]]]]].
    rewrite Hf by assumption. apply le3_spec.
    unfold signed_component. cbn [vget Z.eqb Pos.eqb].
    rewrite !corner_component by assumption.
    repeat split; apply Hle; try assumption; apply Hbit; assumption.
  - apply le3_spec. cbn [vget Z.eqb Pos.eqb]. unfold axis_corner, MaxInt64.
    pose proof (sizes_ok_vget m c0 Hs). pose proof (sizes_ok_vget m c1 Hs).
    pose proof (sizes_ok_vget m c2 Hs).
    repeat split;
      match goal with |- context [if ?s =? 1 then _ else _] =>
        destruct (s =? 1) end; lia.
Qed.

(** *** The cuboid and the grid *)

Lemma product_ge_factor (x y z : Z) :
  0 < x -> 0 < y -> 0 < z ->
  x <= x * y * z /\ y <= x * y * z /\ z <= x * y * z /\ x * y <= x * y * z.
Proof.
  intros Hx Hy Hz.
  assert (1 <= y * z) by nia. assert (1 <= x * z) by nia.
  assert (1 <= x * y) by nia.
  repeat split; nia.
Qed.

Lemma model_ok_sizes (m : Model) : model_ok m -> sizes_ok m.
Proof.
  intros [Hx [Hy [Hz [Hp _]]]]. unfold sizes_ok.
  pose proof (product_ge_factor _ _ _ Hx Hy Hz). lia.
Qed.

Lemma permuted_product (v : vec3) (c0 c1 c2 : Z) :
  0 <= c0 < 3 -> 0 <= c1 < 3 -> 0 <= c2 < 3 ->
  c0 <> c1 -> c0 <> c2 -> c1 <> c2 ->
  vget v c0 * vget v c1 * vget v c2 = vget v 0 * vget v 1 * vget v 2.
Proof.
  intros H0 H1 H2 D01 D02 D12.
  assert (E0 : c0 = 0 \/ c0 = 1 \/ c0 = 2) by lia.
  assert (E1 : c1 = 0 \/ c1 = 1 \/ c1 = 2) by lia.
  assert (E2 : c2 = 0 \/ c2 = 1 \/ c2 = 2) by lia.
  destruct v as [[x y] z].
  destruct E0 as [-> | [-> | ->]]; destruct E1 as [-> | [-> | ->]];
    destruct E2 as [-> | [-> | ->]]; try lia;
    cbn [vget Z.eqb Pos.eqb]; ring.
Qed.

Lemma rotated_cells (mat : Matrix3x3) (m : Model) :
  is_uint8 mat -> Valid mat = true ->
  vget (sizes_of m) (row_col mat 0) * vget (sizes_of m) (row_col mat 1)
  * vget (sizes_of m) (row_col mat 2) = cells m.
Proof.
  intros Hm Vm.
  destruct (valid_cols mat Hm Vm) as [[R0 [R1 R2]] [D01 [D02 D12]]].
  rewrite permuted_product by assumption. reflexivity.
Qed.

Lemma mixed_radix_bounds (a b c x y z : Z) :
  0 <= x < a -> 0 <= y < b -> 0 <= z < c ->
  0 <= z * (a * b) + y * a + x < a * b * c.
Proof.
  intros Hx Hy Hz.
  assert (0 <= a * b) by (apply Z.mul_nonneg_nonneg; lia).
  assert (0 <= y * a) by (apply Z.mul_nonneg_nonneg; lia).
  assert (0 <= z * (a * b)) by (apply Z.mul_nonneg_nonneg; lia).
  assert (y * a <= (b - 1) * a) by (apply Z.mul_le_mono_nonneg_r; lia).
  assert (z * (a * b) <= (c - 1) * (a * b))
    by (apply Z.mul_le_mono_nonneg_r; lia).
  replace (a * b * c) with ((c - 1) * (a * b) + (b - 1) * a + a) by ring.
  lia.
Qed.

Lemma mixed_radix_inj (a b x y z x' y' z' : Z) :
  0 <= x < a -> 0 <= y < b -> 0 <= x' < a -> 0 <= y' < b ->
  z * (a * b) + y * a + x = z' * (a * b) + y' * a + x' ->
  x = x' /\ y = y' /\ z = z'.
Proof.
  intros Hx Hy Hx' Hy' E.
  assert (E1 : (z * b + y) * a + x = (z' * b + y') * a + x') by lia.
  assert (Hq : z * b + y = z' * b + y' /\ x = x').
  { apply (Z.div_mod_unique a (z * b + y) (z' * b + y') x x'); lia. }
  destruct Hq as [Hq ->].
  assert (Hq' : z = z' /\ y = y').
  { apply (Z.div_mod_unique b z z' y y'); lia. }
  lia.
Qed.

Lemma NewDenseWorld_world (mat : Matrix3x3) (t : vec3) (m : Model) :
  is_uint8 mat -> Valid mat = true -> model_ok m -> is_int32_vec t ->
  NewDenseWorld (world_min mat t m) (world_max mat t m)
  = Ok (mkDenseWorld (world_min mat t m) (world_max mat t m)
          (repeat 0 (Z.to_nat (cells m)))).
Proof.
  intros Hm Vm Hok [T0 [T1 T2]].
  pose proof (model_ok_sizes m Hok) as Hs.
  pose proof (sizes_ok_vget m (row_col mat 0) Hs) as B0.
  pose proof (sizes_ok_vget m (row_col mat 1) Hs) as B1.
  pose proof (sizes_ok_vget m (row_col mat 2) Hs) as B2.
  pose proof (rotated_cells mat m Hm Vm) as Hcells.
  destruct Hok as [_ [_ [_ [Hp _]]]]. fold (cells m) in Hp.
  unfold NewDenseWorld, world_min, world_max. cbn [vget Z.eqb Pos.eqb].
  pose proof (axis_bounds _ _ B0 T0) as [L0 _].
  pose proof (axis_bounds _ _ B1 T1) as [L1 _].
  pose proof (axis_bounds _ _ B2 T2) as [L2 _].
  rewrite (proj2 (Z.ltb_ge _ _) L0), (proj2 (Z.ltb_ge _ _) L1),
    (proj2 (Z.ltb_ge _ _) L2). cbn [orb].
  rewrite !axis_size by assumption.
  set (S0 := vget (sizes_of m) (row_col mat 0)) in *.
  set (S1 := vget (sizes_of m) (row_col mat 1)) in *.
  set (S2 := vget (sizes_of m) (row_col mat 2)) in *.
  pose proof (product_ge_factor S0 S1 S2 ltac:(lia) ltac:(lia) ltac:(lia))
    as [_ [_ [_ H01]]].
  assert (0 < S0 * S1) by (apply Z.mul_pos_pos; lia).
  unfold int_mul.
  rewrite (wrap64_id (S0 * S1)) by (unfold is_int; lia).
  rewrite (wrap64_id (S0 * S1 * S2)) by (unfold is_int; lia).
  rewrite Hcells.
  rewrite make_nonneg by lia. reflexivity.
Qed.

Lemma DenseWorldFromModel_places (mat : Matrix3x3) (t : vec3) (m : Model) :
  is_uint8 mat -> Valid mat = true -> model_ok m -> is_int32_vec t ->
  DenseWorldFromModel (mkTransformFrame mat t) m
  = place_voxels mat (world_trn mat t m) (world_min mat t m) (world_max mat t m)
      (Model_V m)
      (mkDenseWorld (world_min mat t m) (world_max mat t m)
         (repeat 0 (Z.to_nat (cells m)))).
Proof.
  intros Hm Vm Hok Ht.
  pose proof (model_ok_sizes m Hok) as Hs.
  pose proof (sizes_ok_vget m (row_col mat 0) Hs) as B0.
  pose proof (sizes_ok_vget m (row_col mat 1) Hs) as B1.
  pose proof (sizes_ok_vget m (row_col mat 2) Hs) as B2.
  pose proof (row_sign_cases mat 0) as S0.
  pose proof (row_sign_cases mat 1) as S1.
  pose proof (row_sign_cases mat 2) as S2.
  assert (Hv : is_int_vec (sizes_of m)).
  { destruct Hs as [? [? ?]]. unfold is_int_vec, sizes_of, is_int.
    cbn [vget Z.eqb Pos.eqb]. lia. }
  unfold DenseWorldFromModel. cbn [R T]. fold (sizes_of m).
  rewrite (MulVec_signed_permutation mat (sizes_of m) Hm Vm Hv).
  cbv zeta. cbn [vset vget Z.eqb Pos.eqb]. unfold addVec.
  cbn [vget Z.eqb Pos.eqb].
  rewrite !axis_extent by assumption.
  destruct Ht as [T0 [T1 T2]].
  rewrite !axis_min_eq, !axis_max_eq by assumption.
  fold (world_min mat t m). fold (world_max mat t m).
  rewrite (NewDenseWorld_world mat t m Hm Vm Hok (conj T0 (conj T1 T2))).
  cbn [result_bind].
  rewrite (minCornerOf_value mat m Hm Vm Hs). cbn [vget Z.eqb Pos.eqb].
  reflexivity.
Qed.

Lemma pos_inside_vget (m : Model) (p : vec3) (c : Z) :
  pos_inside m p -> 0 <= vget p c < vget (sizes_of m) c.
Proof.
  intros [Hx [Hy Hz]]. destruct p as [[x y] z]. unfold sizes_of, vget in *.
  cbn [Z.eqb Pos.eqb] in *.
  destruct (c =? 0); [exact Hx |]. destruct (c =? 1); assumption.
Qed.

Lemma world_off_bounds (mat : Matrix3x3) (m : Model) (p : vec3) (i : Z) :
  sizes_ok m -> pos_inside m p ->
  0 <= world_off mat m p i < vget (sizes_of m) (row_col mat i).
Proof.
  intros Hs Hp. unfold world_off, axis_off.
  pose proof (pos_inside_vget m p (row_col mat i) Hp).
  destruct (row_sign mat i =? 1); lia.
Qed.

Lemma cell_index_bounds (mat : Matrix3x3) (m : Model) (p : vec3) :
  is_uint8 mat -> Valid mat = true -> sizes_ok m -> pos_inside m p ->
  0 <= cell_index mat m p < cells m.
Proof.
  intros Hm Vm Hs Hp. rewrite <- (rotated_cells mat m Hm Vm).
  unfold cell_index. apply mixed_radix_bounds; apply world_off_bounds; assumption.
Qed.

Lemma SetMaterialIndex_world (mat : Matrix3x3) (t : vec3) (m : Model)
    (g : list Z) (p : vec3) (c : Z) :
  is_uint8 mat -> Valid mat = true -> model_ok m -> is_int32_vec t ->
  Z.of_nat (length g) = cells m -> pos_inside m p ->
  SetMaterialIndex (mkDenseWorld (world_min mat t m) (world_max mat t m) g)
    (addVec (MulVec mat p) (world_trn mat t m)) c
  = Done (mkDenseWorld (world_min mat t m) (world_max mat t m)
            (list_set g (Z.to_nat (cell_index mat m p)) c), true).
Proof.
  intros Hm Vm Hok [T0 [T1 T2]] Hlen Hp.
  pose proof (model_ok_sizes m Hok) as Hs.
  pose proof (sizes_ok_vget m (row_col mat 0) Hs) as B0.
  pose proof (sizes_ok_vget m (row_col mat 1) Hs) as B1.
  pose proof (sizes_ok_vget m (row_col mat 2) Hs) as B2.
  pose proof (row_sign_cases mat 0) as S0.
  pose proof (row_sign_cases mat 1) as S1.
  pose proof (row_sign_cases mat 2) as S2.
  pose proof (pos_inside_vget m p (row_col mat 0) Hp) as P0.
  pose proof (pos_inside_vget m p (row_col mat 1) Hp) as P1.
  pose proof (pos_inside_vget m p (row_col mat 2) Hp) as P2.
  pose proof (cell_index_bounds mat m p Hm Vm Hs Hp) as Hidx.
  pose proof (rotated_cells mat m Hm Vm) as Hcells.
  assert (Hcells_lt : cells m < 2 ^ 63) by (destruct Hok as [_ [_ [_ [H _]]]]; exact H).
  assert (Hpi : is_int_vec p).
  { unfold is_int_vec, is_int. destruct Hs as [? [? ?]].
    pose proof (pos_inside_vget m p 0 Hp). pose proof (pos_inside_vget m p 1 Hp).
    pose proof (pos_inside_vget m p 2 Hp).
    unfold sizes_of in *. cbn [vget Z.eqb Pos.eqb] in *. lia. }
  rewrite (MulVec_signed_permutation mat p Hm Vm Hpi).
  unfold SetMaterialIndex, addVec, world_trn, world_min, world_max, signed_component.
  cbn [Min Max Voxels vget Z.eqb Pos.eqb].
  rewrite !axis_size by assumption.
  rewrite (proj1 (axis_offset_eq _ _ _ _ B0 T0 S0 P0)).
  rewrite (proj1 (axis_offset_eq _ _ _ _ B1 T1 S1 P1)).
  rewrite (proj1 (axis_offset_eq _ _ _ _ B2 T2 S2 P2)).
  fold (world_off mat m p 0). fold (world_off mat m p 1). fold (world_off mat m p 2).
  pose proof (world_off_bounds mat m p 0 Hs Hp) as O0.
  pose proof (world_off_bounds mat m p 1 Hs Hp) as O1.
  pose proof (world_off_bounds mat m p 2 Hs Hp) as O2.
  set (o0 := world_off mat m p 0) in *. set (o1 := world_off mat m p 1) in *.
  set (o2 := world_off mat m p 2) in *.
  unfold cell_index in Hidx. fold o0 o1 o2 in Hidx.
  unfold cell_index. fold o0 o1 o2.
  set (A := vget (sizes_of m) (row_col mat 0)) in *.
  set (B := vget (sizes_of m) (row_col mat 1)) in *.
  set (C := vget (sizes_of m) (row_col mat 2)) in *.
  assert (Hrange : (o0 <? 0) || (o0 >=? A) || (o1 <? 0) || (o1 >=? B)
                   || (o2 <? 0) || (o2 >=? C) = false).
  { rewrite !orb_false_iff. rewrite !Z.ltb_ge, !Z.geb_leb, !Z.leb_gt. lia. }
  rewrite Hrange.
  pose proof (product_ge_factor A B C ltac:(lia) ltac:(lia) ltac:(lia))
    as [_ [_ [_ HAB]]].
  assert (0 < A * B) by (apply Z.mul_pos_pos; lia).
  assert (0 <= o2 * (A * B)) by (apply Z.mul_nonneg_nonneg; lia).
  assert (0 <= o1 * A) by (apply Z.mul_nonneg_nonneg; lia).
  unfold int_add, int_mul.
  rewrite (wrap64_id (A * B)) by (unfold is_int; lia).
  rewrite (wrap64_id (o2 * (A * B))) by (unfold is_int; lia).
  rewrite (wrap64_id (o1 * A)) by (unfold is_int; lia).
  rewrite (wrap64_id (o2 * (A * B) + o1 * A)) by (unfold is_int; lia).
  rewrite (wrap64_id (o2 * (A * B) + o1 * A + o0)) by (unfold is_int; lia).
  unfold index_set.
  assert (Hin : (o2 * (A * B) + o1 * A + o0 <? 0)
                || (Z.of_nat (length g) <=? o2 * (A * B) + o1 * A + o0) = false).
  { rewrite orb_false_iff, Z.ltb_ge, Z.leb_gt. lia. }
  rewrite Hin. reflexivity.
Qed.

Lemma list_set_length {A} (g : list A) (k : nat) (c : A) :
  (k < length g)%nat -> length (list_set g k c) = length g.
Proof.
  intros H. unfold list_set.
  rewrite length_app, length_firstn. cbn [length]. rewrite length_skipn. lia.
Qed.

Lemma list_set_nth_same (g : list Z) (k : nat) (c : Z) :
  (k < length g)%nat -> nth k (list_set g k c) 0 = c.
Proof.
  intros H. unfold list_set.
  rewrite app_nth2; rewrite length_firstn; [| lia].
  replace (k - Nat.min k (length g))%nat with 0%nat by lia. reflexivity.
Qed.

Lemma list_set_nth_other (g : list Z) (k j : nat) (c : Z) :
  (k < length g)%nat -> j <> k -> nth j (list_set g k c) 0 = nth j g 0.
Proof.
  intros H Hne. unfold list_set.
  rewrite <- (firstn_skipn k g) at 3.
  destruct (Nat.lt_ge_cases j k) as [Hlt | Hge].
  - rewrite !app_nth1 by (rewrite length_firstn; lia). reflexivity.
  - rewrite !app_nth2 by (rewrite length_firstn; lia).
    rewrite length_firstn. replace (Nat.min k (length g)) with k by lia.
    destruct (j - k)%nat as [| d] eqn:E; [lia |]. cbn [nth].
    rewrite !nth_skipn. f_equal. lia.
Qed.

Lemma count_nonzero_app (a b : list Z) :
  count_nonzero (a ++ b) = count_nonzero a + count_nonzero b.
Proof.
  unfold count_nonzero. rewrite filter_app, length_app. lia.
Qed.

Lemma count_nonzero_cons (c : Z) (b : list Z) :
  count_nonzero (c :: b) = nz c + count_nonzero b.
Proof.
  unfold count_nonzero, nz. cbn [filter].
  destruct (c =? 0); cbn [negb length]; lia.
Qed.

Lemma count_nonzero_set (g : list Z) (k : nat) (c : Z) :
  (k < length g)%nat ->
  count_nonzero (list_set g k c) = count_nonzero g - nz (nth k g 0) + nz c.
Proof.
  intros H. unfold list_set.
  rewrite <- (firstn_skipn k g) at 3.
  rewrite !count_nonzero_app, count_nonzero_cons.
  assert (E : skipn k g = nth k g 0 :: skipn (S k) g).
  { rewrite <- (firstn_skipn k g) at 2.
    rewrite app_nth2 by (rewrite length_firstn; lia).
    rewrite length_firstn. replace (k - Nat.min k (length g))%nat with 0%nat by lia.
    destruct (skipn k g) as [| x rest] eqn:Es.
    - apply (f_equal (@length Z)) in Es. rewrite length_skipn in Es.
      cbn [length] in Es. lia.
    - cbn [nth]. f_equal.
      replace (S k) with (1 + k)%nat by lia.
      rewrite <- skipn_skipn, Es. reflexivity. }
  rewrite E, count_nonzero_cons. lia.
Qed.

Lemma count_nonzero_repeat0 (n : nat) : count_nonzero (repeat 0 n) = 0.
Proof.
  induction n as [| n IH]; [reflexivity |].
  cbn [repeat]. rewrite count_nonzero_cons, IH. reflexivity.
Qed.

Lemma place_voxels_paint (mat : Matrix3x3) (t : vec3) (m : Model) (vs : list Voxel) :
  is_uint8 mat -> Valid mat = true -> model_ok m -> is_int32_vec t ->
  Forall (voxel_inside m) vs ->
  forall g, Z.of_nat (length g) = cells m ->
  place_voxels mat (world_trn mat t m) (world_min mat t m) (world_max mat t m) vs
    (mkDenseWorld (world_min mat t m) (world_max mat t m) g)
  = Ok (mkDenseWorld (world_min mat t m) (world_max mat t m)
          (paint (fun p => Z.to_nat (cell_index mat m p)) g vs))
  /\ Z.of_nat (length (paint (fun p => Z.to_nat (cell_index mat m p)) g vs))
     = cells m.
Proof.
  intros Hm Vm Hok Ht Hall.
  pose proof (model_ok_sizes m Hok) as Hs.
  induction Hall as [| vox vs Hvox Hall IH]; intros g Hlen.
  - split; [reflexivity | exact Hlen].
  - assert (Hp : pos_inside m (pos_of vox)) by exact Hvox.
    pose proof (cell_index_bounds mat m (pos_of vox) Hm Vm Hs Hp) as Hidx.
    cbn [place_voxels paint fold_left].
    change (Voxel_X vox, Voxel_Y vox, Voxel_Z vox) with (pos_of vox).
    rewrite (SetMaterialIndex_world mat t m g (pos_of vox) (ColorIndex vox)
               Hm Vm Hok Ht Hlen Hp).
    cbn [negb].
    apply IH. rewrite list_set_length; [exact Hlen | lia].
Qed.

Lemma cell_index_inj (mat : Matrix3x3) (m : Model) (p q : vec3) :
  is_uint8 mat -> Valid mat = true -> sizes_ok m ->
  pos_inside m p -> pos_inside m q ->
  cell_index mat m p = cell_index mat m q -> p = q.
Proof.
  intros Hm Vm Hs Hp Hq E.
  destruct (valid_cols mat Hm Vm) as [[R0 [R1 R2]] [D01 [D02 D12]]].
  unfold cell_index in E.
  apply mixed_radix_inj in E; try (apply world_off_bounds; assumption).
  destruct E as [E0 [E1 E2]].
  assert (Hax : forall i, world_off mat m p i = world_off mat m q i ->
                  vget p (row_col mat i) = vget q (row_col mat i)).
  { intros i Ei. unfold world_off, axis_off in Ei.
    destruct (row_sign mat i =? 1); lia. }
  apply Hax in E0, E1, E2.
  assert (Hall : forall a, 0 <= a < 3 -> vget p a = vget q a).
  { intros a Ha.
    assert (Ea : row_col mat 0 = a \/ row_col mat 1 = a \/ row_col mat 2 = a) by lia.
    destruct Ea as [<- | [<- | <-]]; assumption. }
  apply vec3_ext; apply Hall; lia.
Qed.

Section Repaint.
Variables (idx1 idx2 : vec3 -> nat) (D : vec3 -> Prop) (N : nat).
Hypothesis bound1 : forall p, D p -> (idx1 p < N)%nat.
Hypothesis bound2 : forall p, D p -> (idx2 p < N)%nat.
Hypothesis inj1 : forall p q, D p -> D q -> idx1 p = idx1 q -> p = q.
Hypothesis inj2 : forall p q, D p -> D q -> idx2 p = idx2 q -> p = q.

Lemma paint_same_picture (vs : list Voxel) :
  Forall (fun vox => D (pos_of vox)) vs ->
  forall g1 g2, same_picture_on idx1 idx2 D N g1 g2 ->
    same_picture_on idx1 idx2 D N (paint idx1 g1 vs) (paint idx2 g2 vs).
Proof.
  induction 1 as [| vox vs Hvox Hall IH]; intros g1 g2 Hrel; [exact Hrel |].
  cbn [paint fold_left]. apply IH.
  destruct Hrel as [L1 [L2 [Hc Hpt]]].
  change (Voxel_X vox, Voxel_Y vox, Voxel_Z vox) with (pos_of vox).
  pose proof (bound1 _ Hvox) as B1. pose proof (bound2 _ Hvox) as B2.
  split; [rewrite list_set_length; lia |].
  split; [rewrite list_set_length; lia |].
  split.
  - rewrite !count_nonzero_set by lia. rewrite (Hpt _ Hvox), Hc. reflexivity.
  - intros p Hp.
    destruct (Nat.eq_dec (idx1 p) (idx1 (pos_of vox))) as [E | Hne].
    + assert (p = pos_of vox) as -> by (apply inj1; assumption).
      rewrite !list_set_nth_same by lia. reflexivity.
    + assert (Hne2 : idx2 p <> idx2 (pos_of vox)).
      { intros E. apply Hne. f_equal. apply inj2; assumption. }
      rewrite !list_set_nth_other by lia. apply Hpt. exact Hp.
Qed.
End Repaint.

Lemma voxel_inside_pos (m : Model) (vs : list Voxel) :
  Forall (voxel_inside m) vs -> Forall (fun vox => pos_inside m (pos_of vox)) vs.
Proof. intros H. exact H. Qed.




(** ** More on Matrix3x3 *)

Lemma vec3_eqb_eq (a b : vec3) : vec3_eqb a b = true -> a = b.
Proof.
  unfold vec3_eqb. rewrite !andb_true_iff, !Z.eqb_eq.
  intros [[H0 H1] H2]. apply vec3_ext; assumption.
Qed.

Lemma mat_eqb_eq (a b : mat) : mat_eqb a b = true -> a = b.
Proof.
  unfold mat_eqb. rewrite !andb_true_iff. intros [[H0 H1] H2].
  apply vec3_eqb_eq in H0, H1, H2.
  destruct a as [[a0 a1] a2], b as [[b0 b1] b2].
  cbn [mrow Z.eqb Pos.eqb] in *. subst. reflexivity.
Qed.

Lemma products_are_matrix_products :
  forallb (fun a =>
    forallb (fun b =>
      mat_eqb (mat_mul (matFromMatrix3x3 a) (matFromMatrix3x3 b))
              (matFromMatrix3x3 (Mul a b))
      && (matToMatrix3x3 (mat_mul (matFromMatrix3x3 a) (matFromMatrix3x3 b))
          =? Mul a b)) validCodes) validCodes = true.
Proof. vm_compute. reflexivity. Qed.

Lemma forallb2_elim {A} (P : A -> A -> bool) (l : list A) :
  forallb (fun a => forallb (fun b => P a b) l) l = true ->
  forall a b, In a l -> In b l -> P a b = true.
Proof.
  intros H a b Ha Hb.
  exact (forallb_elim _ _ (forallb_elim _ _ H a Ha) b Hb).
Qed.

(** [Mul] is the matrix product: the matrix of [Mul a b] is the product of
    the matrices of [a] and [b], and encoding that product gives
    [Mul a b] (what TestMul checks). *)
Theorem Mul_is_matrix_product (a b : Matrix3x3) :
  is_uint8 a -> is_uint8 b -> Valid a = true -> Valid b = true ->
  mat_mul (matFromMatrix3x3 a) (matFromMatrix3x3 b) = matFromMatrix3x3 (Mul a b)
  /\ matToMatrix3x3 (mat_mul (matFromMatrix3x3 a) (matFromMatrix3x3 b)) = Mul a b.
Proof.
  intros Ha Hb Va Vb.
  pose proof (forallb2_elim _ _ products_are_matrix_products a b
                (valid_in_validCodes a Ha Va) (valid_in_validCodes b Hb Vb)) as H.
  apply andb_prop in H. destruct H as [H1 H2].
  split; [apply mat_eqb_eq; exact H1 | apply Z.eqb_eq; exact H2].
Qed.

Lemma Mul_is_matrix_product_witness :
  mat_mul (matFromMatrix3x3 17) (matFromMatrix3x3 40) = matFromMatrix3x3 (Mul 17 40)
  /\ matToMatrix3x3 (mat_mul (matFromMatrix3x3 17) (matFromMatrix3x3 40)) = Mul 17 40.
Proof.
  apply (Mul_is_matrix_product 17 40);
    [unfold is_uint8; lia | unfold is_uint8; lia
    | vm_compute; reflexivity | vm_compute; reflexivity].
Defined.

Lemma valid_iff_signed_permutation_all :
  forallb (fun m =>
    Bool.eqb (Valid m) ((m <? 128) && mat_valid (matFromMatrix3x3 m)))
    (upto 256) = true.
Proof. vm_compute. reflexivity. Qed.

Lemma roundtrip_all :
  forallb (fun m => matToMatrix3x3 (matFromMatrix3x3 m) =? m) validCodes = true.
Proof. vm_compute. reflexivity. Qed.

(** A code is valid exactly when bit 7 is clear and the decoded matrix has
    one entry of 1 or -1 in every row and column and zeros elsewhere (what
    TestValid checks against [mat.valid]); a valid code is the encoding of
    its decoded matrix. *)
Theorem Valid_iff_decodes_to_signed_permutation (m : Matrix3x3) :
  is_uint8 m ->
  Valid m = ((m <? 128) && mat_valid (matFromMatrix3x3 m))
  /\ (Valid m = true -> matToMatrix3x3 (matFromMatrix3x3 m) = m).
Proof.
  intros Hm. split.
  - apply Bool.eqb_prop.
    apply (forallb_elim _ _ valid_iff_signed_permutation_all m).
    apply in_upto. unfold is_uint8 in Hm. change (Z.of_nat 256) with 256. lia.
  - intros Vm. apply Z.eqb_eq.
    exact (forallb_elim _ _ roundtrip_all m (valid_in_validCodes m Hm Vm)).
Qed.

Lemma Valid_iff_decodes_to_signed_permutation_witness :
  Valid 40 = ((40 <? 128) && mat_valid (matFromMatrix3x3 40))
  /\ (Valid 40 = true -> matToMatrix3x3 (matFromMatrix3x3 40) = 40).
Proof.
  apply (Valid_iff_decodes_to_signed_permutation 40). unfold is_uint8. lia.
Defined.

Lemma identity_laws_all :
  forallb (fun m => (Mul 4 m =? m) && (Mul m 4 =? m)
                    && (Inverse (Inverse m) =? m)) validCodes = true.
Proof. vm_compute. reflexivity. Qed.

Lemma inverse_of_invalid_all :
  forallb (fun m => Valid m || (Inverse m =? 0)) (upto 256) = true.
Proof. vm_compute. reflexivity. Qed.

(** The identity code is neutral for [Mul] on the valid codes, [Inverse]
    is an involution on them, and [Inverse] answers 0 (an invalid code) for
    every invalid code, in or out of the table. *)
Theorem identity_neutral_inverse_involutive (m : Matrix3x3) :
  is_uint8 m ->
  (Valid m = true ->
     Mul Matrix3x3Identity m = m /\ Mul m Matrix3x3Identity = m
     /\ Inverse (Inverse m) = m)
  /\ (Valid m = false -> Inverse m = 0 /\ Valid (Inverse m) = false).
Proof.
  intros Hm. split.
  - intros Vm.
    pose proof (forallb_elim _ _ identity_laws_all m (valid_in_validCodes m Hm Vm)) as H.
    apply andb_prop in H. destruct H as [H H3].
    apply andb_prop in H. destruct H as [H1 H2].
    apply Z.eqb_eq in H1, H2, H3. repeat split; assumption.
  - intros Vm.
    assert (Hin : In m (upto 256)).
    { apply in_upto. unfold is_uint8 in Hm. change (Z.of_nat 256) with 256. lia. }
    pose proof (forallb_elim _ _ inverse_of_invalid_all m Hin) as H.
    cbv beta in H. rewrite Vm in H. cbn [orb] in H. apply Z.eqb_eq in H.
    split; [exact H |]. rewrite H. vm_compute. reflexivity.
Qed.

Lemma identity_neutral_inverse_involutive_witness :
  (Valid 40 = true ->
     Mul Matrix3x3Identity 40 = 40 /\ Mul 40 Matrix3x3Identity = 40
     /\ Inverse (Inverse 40) = 40)
  /\ (Valid 40 = false -> Inverse 40 = 0 /\ Valid (Inverse 40) = false).
Proof.
  apply (identity_neutral_inverse_involutive 40). unfold is_uint8. lia.
Defined.

Lemma map_lookup_graph {V} (f : Z -> V) (l : list Z) (x : Z) :
  In x l -> map_lookup Z.eqb (map (fun b => (b, f b)) l) x = Some (f x).
Proof.
  induction l as [| h t IH]; intros H; [destruct H |].
  cbn [map map_lookup]. destruct (Z.eqb_spec x h) as [-> | Hne]; [reflexivity |].
  destruct H as [E | H]; [congruence | exact (IH H)].
Qed.

Lemma mul_table_eq :
  mul_table = map (fun a => (a, map (fun b => (b, Mul a b)) validCodes)) validCodes.
Proof. vm_compute. reflexivity. Qed.

Lemma table_mul_eq (a b : Z) :
  In a validCodes -> In b validCodes -> table_mul a b = Mul a b.
Proof.
  intros Ha Hb. unfold table_mul. rewrite mul_table_eq.
  pose proof (map_lookup_graph
                (fun a => map (fun b => (b, Mul a b)) validCodes)
                validCodes a Ha) as E1.
  cbv beta in E1. unfold Matrix3x3 in *. rewrite E1.
  pose proof (map_lookup_graph (Mul a) validCodes b Hb) as E2.
  unfold Matrix3x3 in *. rewrite E2. reflexivity.
Qed.

Lemma table_associative :
  forallb (fun a =>
    forallb (fun b =>
      forallb (fun c =>
        table_mul (table_mul a b) c =? table_mul a (table_mul b c))
        validCodes) validCodes) validCodes = true.
Proof. vm_compute. reflexivity. Qed.

Lemma products_in_range :
  forallb (fun a =>
    forallb (fun b => (0 <=? Mul a b) && (Mul a b <? 256)) validCodes)
    validCodes = true.
Proof. vm_compute. reflexivity. Qed.

Lemma Mul_closed (a b : Z) :
  In a validCodes -> In b validCodes -> In (Mul a b) validCodes.
Proof.
  intros Ha Hb.
  pose proof (forallb_map_elim (Mul a) Valid validCodes
                (forallb_elim _ _ products_valid a Ha) b Hb) as Hv.
  pose proof (forallb_elim _ _
                (forallb_elim _ _ products_in_range a Ha) b Hb) as Hr.
  cbv beta in Hr. apply andb_prop in Hr. destruct Hr as [H0 H1].
  apply Z.leb_le in H0. apply Z.ltb_lt in H1.
  apply valid_in_validCodes; [unfold is_uint8; lia | exact Hv].
Qed.

(** [Mul] is associative on the valid codes: with the closure, the
    identity and the inverses they form a group. *)
Theorem Mul_associative (a b c : Matrix3x3) :
  is_uint8 a -> is_uint8 b -> is_uint8 c ->
  Valid a = true -> Valid b = true -> Valid c = true ->
  Mul (Mul a b) c = Mul a (Mul b c).
Proof.
  intros Ha Hb Hc Va Vb Vc.
  pose proof (valid_in_validCodes a Ha Va) as Ia.
  pose proof (valid_in_validCodes b Hb Vb) as Ib.
  pose proof (valid_in_validCodes c Hc Vc) as Ic.
  pose proof (forallb_elim _ _
                (forallb_elim _ _
                   (forallb_elim _ _ table_associative a Ia) b Ib) c Ic) as H.
  cbv beta in H. apply Z.eqb_eq in H.
  rewrite (table_mul_eq a b Ia Ib) in H.
  rewrite (table_mul_eq b c Ib Ic) in H.
  rewrite (table_mul_eq (Mul a b) c (Mul_closed a b Ia Ib) Ic) in H.
  rewrite (table_mul_eq a (Mul b c) Ia (Mul_closed b c Ib Ic)) in H.
  exact H.
Qed.

Lemma Mul_associative_witness : Mul (Mul 17 40) 98 = Mul 17 (Mul 40 98).
Proof.
  apply (Mul_associative 17 40 98);
    try (unfold is_uint8; lia); vm_compute; reflexivity.
Defined.

(** ** Reading what was written *)

Lemma byte_val_of_Z (z : Z) : byte_val (byte_of_Z z) = z mod 256.
Proof.
  unfold byte_val, byte_of_Z.
  pose proof (Z.mod_pos_bound z 256 ltac:(lia)) as Hb.
  destruct (Byte.of_N (Z.to_N (z mod 256))) as [b |] eqn:E.
  - apply Byte.to_of_N in E. rewrite E. lia.
  - apply Byte.of_N_None_iff in E. lia.
Qed.

Lemma byte_val_range (b : byte) : 0 <= byte_val b < 256.
Proof.
  unfold byte_val. pose proof (Byte.to_N_bounded b). lia.
Qed.

Lemma le32_length (z : Z) : length (le32 z) = 4%nat.
Proof. reflexivity. Qed.

Lemma le32_value (z : Z) :
  is_int32 z ->
  wrap32 ((z mod 256
           + Z.shiftl ((Z.shiftr z 8) mod 256) 8
           + Z.shiftl ((Z.shiftr z 16) mod 256) 16
           + Z.shiftl ((Z.shiftr z 24) mod 256) 24) mod 2 ^ 32) = z.
Proof.
  unfold is_int32, wrap32. intros Hz.
  rewrite !Z.shiftr_div_pow2, !Z.shiftl_mul_pow2 by lia.
  change (2 ^ 8) with 256. change (2 ^ 16) with 65536.
  change (2 ^ 24) with 16777216. change (2 ^ 32) with 4294967296.
  change (2 ^ 31) with 2147483648 in *.
  Z.div_mod_to_equations. lia.
Qed.

Lemma ReadInt32_le32 (z : Z) (rest : bytes) :
  is_int32 z ->
  ReadInt32 (newReader (le32 z ++ rest)) = Done (z, newReader rest).
Proof.
  intros Hz. unfold ReadInt32, vr_bind.
  rewrite (ReadBytes_exact (le32 z) rest 4) by (rewrite ?le32_length; cbn; lia).
  unfold vr_ret, le32. cbn [nth].
  rewrite !byte_val_of_Z. rewrite (le32_value z Hz). reflexivity.
Qed.

Lemma blen_int32 (s : bytes) : short_string s -> is_int32 (blen s).
Proof. unfold short_string, is_int32, blen. lia. Qed.

Lemma ReadString_enc (s rest : bytes) :
  short_string s ->
  ReadString (newReader (enc_string s ++ rest)) = Done (s, newReader rest).
Proof.
  intros Hs. unfold ReadString, vr_bind, enc_string.
  rewrite <- app_assoc. rewrite (ReadInt32_le32 _ _ (blen_int32 s Hs)).
  apply ReadBytes_exact; unfold blen; lia.
Qed.

Lemma ReadDict_loop_enc (kvs : list (bytes * bytes)) :
  Forall (fun kv => short_string (fst kv) /\ short_string (snd kv)) kvs ->
  forall (dd : list (bytes * bytes)) (rest : bytes),
    ReadDict_loop (length kvs) dd (newReader (enc_pairs kvs ++ rest))
    = Done (fold_left (fun dd kv => map_insert bytes_eqb dd (fst kv) (snd kv)) kvs dd,
            newReader rest).
Proof.
  induction 1 as [| [k v] kvs [Hk Hv] Hall IH]; intros dd rest.
  - reflexivity.
  - cbn [length ReadDict_loop enc_pairs map concat fst snd fold_left].
    fold (enc_pairs kvs). unfold vr_bind at 1.
    rewrite <- !app_assoc. rewrite (ReadString_enc k _ Hk).
    unfold vr_bind at 1. rewrite (ReadString_enc v _ Hv).
    apply IH.
Qed.

(** [ReadDict] reads back a DICT payload: the count, then the pairs, a
    later pair replacing an earlier one with the same key; nothing is
    marked read, no error is set and the reader stands after the payload. *)
Theorem ReadDict_reads_payload (kvs : list (bytes * bytes)) (rest : bytes) :
  Z.of_nat (length kvs) < 2 ^ 31 ->
  Forall (fun kv => short_string (fst kv) /\ short_string (snd kv)) kvs ->
  ReadDict (newReader (enc_dict_bytes kvs ++ rest))
  = Done (mkDict (dict_of_pairs kvs) [] None, newReader rest).
Proof.
  intros Hn Hall. unfold ReadDict, enc_dict_bytes, vr_bind.
  rewrite <- app_assoc.
  rewrite ReadInt32_le32 by (unfold is_int32; lia).
  rewrite Nat2Z.id. rewrite (ReadDict_loop_enc kvs Hall [] rest).
  reflexivity.
Qed.

Lemma ReadDict_reads_payload_witness :
  ReadDict (newReader (enc_dict_bytes [(lit "_name", lit "a"); (lit "_name", lit "b")]
                       ++ [x07]))
  = Done (mkDict (dict_of_pairs [(lit "_name", lit "a"); (lit "_name", lit "b")])
            [] None, newReader [x07]).
Proof.
  apply (ReadDict_reads_payload [(lit "_name", lit "a"); (lit "_name", lit "b")] [x07]).
  - cbn [length]. lia.
  - repeat constructor; unfold short_string; cbn; lia.
Defined.

(** [parseChunk] reads back a chunk: a tag of four bytes, the two lengths,
    the content and the child content. *)
Theorem parseChunk_reads_chunk (tag c cc rest : bytes) :
  length tag = 4%nat -> short_string c -> short_string cc ->
  parseChunk (newReader (tag ++ le32 (blen c) ++ le32 (blen cc) ++ c ++ cc ++ rest))
  = Done (inl (tag, c, cc), newReader rest).
Proof.
  intros Ht Hc Hcc. unfold parseChunk.
  unfold vr_bind at 1. rewrite (ReadBytes_exact tag _ 4) by lia.
  unfold vr_bind at 1.
  rewrite (ReadInt32_le32 _ _ (blen_int32 c Hc)).
  unfold vr_bind at 1. rewrite (ReadInt32_le32 _ _ (blen_int32 cc Hcc)).
  unfold vr_bind at 1. unfold Error at 1. cbn [err newReader].
  unfold vr_bind at 1. rewrite (ReadBytes_exact c _ (blen c)) by (unfold blen; lia).
  unfold vr_bind at 1. rewrite (ReadBytes_exact cc _ (blen cc)) by (unfold blen; lia).
  reflexivity.
Qed.

Lemma parseChunk_reads_chunk_witness :
  parseChunk (newReader (lit "SIZE" ++ le32 (blen [x01; x02]) ++ le32 (blen [x03])
                         ++ [x01; x02] ++ [x03] ++ [x09]))
  = Done (inl (lit "SIZE", [x01; x02], [x03]), newReader [x09]).
Proof.
  apply (parseChunk_reads_chunk (lit "SIZE") [x01; x02] [x03] [x09]).
  - reflexivity.
  - unfold short_string. cbn [length]. lia.
  - unfold short_string. cbn [length]. lia.
Defined.

(** A chunk header that declares a negative content length makes
    [parseChunk] panic in [make]; so does [Parse] on a file whose MAIN
    header does. *)
Theorem negative_chunk_length_panics (tag rest : bytes) (N M : Z) :
  length tag = 4%nat -> is_int32 N -> is_int32 M -> N < 0 ->
  parseChunk (newReader (tag ++ le32 N ++ le32 M ++ rest))
    = Panicked (MakeSliceLen N)
  /\ forall F : Float32Ops,
       @Parse F (lit "VOX " ++ le32 150 ++ tag ++ le32 N ++ le32 M ++ rest)
       = Panic (MakeSliceLen N).
Proof.
  intros Ht HN HM Hneg.
  assert (Hp : parseChunk (newReader (tag ++ le32 N ++ le32 M ++ rest))
               = Panicked (MakeSliceLen N)).
  { unfold parseChunk.
    unfold vr_bind at 1. rewrite (ReadBytes_exact tag _ 4) by lia.
    unfold vr_bind at 1. rewrite (ReadInt32_le32 _ _ HN).
    unfold vr_bind at 1. rewrite (ReadInt32_le32 _ _ HM).
    unfold vr_bind at 1. unfold Error at 1. cbn [err newReader].
    unfold vr_bind at 1. unfold ReadBytes, make.
    destruct (Z.ltb_spec N 0); [reflexivity | lia]. }
  split; [exact Hp |].
  intros F. unfold Parse, Parse_log.
  unfold vr_bind at 1.
  rewrite (ReadBytes_exact (lit "VOX ") _ 4) by (cbn; lia).
  unfold vr_bind at 1.
  rewrite ReadInt32_le32 by (unfold is_int32; lia).
  unfold vr_bind at 1. unfold Error at 1. cbn [err newReader vr_ret].
  change (negb (bytes_eqb (lit "VOX ") (lit "VOX "))) with false.
  change (negb (150 =? version)) with false. cbv iota.
  unfold parseMainChunk_log. change (mkReader ?x None) with (newReader x).
  rewrite Hp. reflexivity.
Qed.

Lemma negative_chunk_length_panics_witness :
  parseChunk (newReader (lit "MAIN" ++ le32 (-1) ++ le32 0 ++ []))
    = Panicked (MakeSliceLen (-1))
  /\ forall F : Float32Ops,
       @Parse F (lit "VOX " ++ le32 150 ++ lit "MAIN" ++ le32 (-1) ++ le32 0 ++ [])
       = Panic (MakeSliceLen (-1)).
Proof.
  apply (negative_chunk_length_panics (lit "MAIN") [] (-1) 0).
  - reflexivity.
  - unfold is_int32. lia.
  - unfold is_int32. lia.
  - lia.
Defined.

(** ** Consuming exactly the content *)

Lemma ReadUint8_step (src : bytes) :
  ReadUint8 (newReader src)
  = Done (match src with
          | [] => (0, mkReader [] (Some EOF))
          | b :: rest => (byte_val b, newReader rest)
          end).
Proof. destruct src as [| b rest]; reflexivity. Qed.

Lemma ReadUint8_latched (vr : voxReader) (e : error) :
  err vr = Some e -> ReadUint8 vr = Done (0, vr).
Proof.
  intros He. unfold ReadUint8, vr_bind.
  rewrite (ReadBytes_latched vr e 1 He) by lia. reflexivity.
Qed.

(** [RequireEOF] on a reader without error: at the end of the input it
    leaves the reader without error; otherwise it consumes one byte and
    latches the error that names the chunk. *)
Theorem RequireEOF_outcomes (label : string) (src : bytes) :
  RequireEOF label (newReader src)
  = Done (tt, match src with
              | [] => newReader []
              | _ :: rest =>
                  mkReader rest
                    (Some (Errorf "expected EOF, but found at least one more byte"
                             [AStr (lit label)]))
              end).
Proof.
  unfold RequireEOF. cbn [err newReader].
  change (mkReader src None) with (newReader src).
  rewrite ReadUint8_step. destruct src as [| b rest]; reflexivity.
Qed.

Lemma ReadInt32_short (src : bytes) :
  (length src < 4)%nat ->
  exists z vr e, ReadInt32 (newReader src) = Done (z, vr)
                 /\ err vr = Some e /\ (e = EOF \/ e = ErrUnexpectedEOF).
Proof.
  intros H. unfold ReadInt32, vr_bind.
  rewrite (ReadBytes_short src 4) by lia.
  do 3 eexists. split; [reflexivity |]. cbn [err]. split; [reflexivity |].
  destruct src; auto.
Qed.

(** [parsePackChunk] accepts a content of exactly four bytes: a shorter
    one ends in [io.EOF] or [io.ErrUnexpectedEOF], a longer one in the
    "expected EOF" error. *)
Theorem parsePackChunk_exact_length (c : bytes) :
  ((length c < 4)%nat ->
     parsePackChunk c = Err EOF \/ parsePackChunk c = Err ErrUnexpectedEOF)
  /\ (length c = 4%nat -> exists n, parsePackChunk c = Ok n /\ is_int32 n)
  /\ ((length c > 4)%nat ->
        parsePackChunk c
        = Err (Errorf "expected EOF, but found at least one more byte"
                 [AStr (lit "PACK")])).
Proof.
  split; [| split].
  - intros H. unfold parsePackChunk, vr_bind.
    destruct (ReadInt32_short c H) as [z [vr [e [E [He Hc]]]]].
    rewrite E. unfold RequireEOF. rewrite He. unfold Error. rewrite He.
    cbn [vr_ret returning]. destruct Hc as [-> | ->]; auto.
  - intros H.
    destruct c as [| b0 [| b1 [| b2 [| b3 [| b4 c]]]]]; try discriminate H.
    eexists. split; [reflexivity |].
    unfold is_int32, wrap32.
    match goal with |- - _ <= ?a mod ?m - _ < _ =>
      pose proof (Z.mod_pos_bound a m ltac:(lia)) end. lia.
  - intros H.
    destruct c as [| b0 [| b1 [| b2 [| b3 [| b4 c]]]]]; cbn [length] in H; try lia.
    reflexivity.
Qed.

Lemma parseRGBA_loop_spec (n : nat) :
  forall (acc : list RGBA) (vr : voxReader),
  exists acc' vr',
    parseRGBA_loop n acc vr = Done (acc', vr')
    /\ length acc' = (length acc + n)%nat
    /\ firstn (length acc) acc' = acc
    /\ (err vr = None ->
          (err vr' = None <-> (4 * n <= length (r vr))%nat)
          /\ (err vr' = None -> r vr' = skipn (4 * n) (r vr)))
    /\ (err vr <> None -> err vr' <> None).
Proof.
  induction n as [| n IH]; intros acc vr.
  - exists acc, vr. split; [reflexivity |]. split; [lia |].
    split; [apply firstn_all |]. split; [| auto].
    intros He. split; [split; [lia | intros _; exact He] | reflexivity].
  - cbn [parseRGBA_loop]. destruct vr as [src [e |]].
    + (* an error is latched: the four reads answer zeros *)
      unfold vr_bind.
      rewrite !(ReadUint8_latched (mkReader src (Some e)) e eq_refl).
      destruct (IH (acc ++ [mkRGBA 0 0 0 0]) (mkReader src (Some e)))
        as [acc' [vr' [E [L [P [_ Hk]]]]]].
      exists acc', vr'. split; [exact E |].
      rewrite length_app in L. cbn [length] in L. split; [lia |].
      split.
      { rewrite length_app in P. apply (f_equal (firstn (length acc))) in P.
        rewrite firstn_firstn in P. rewrite firstn_app, firstn_all in P.
        replace (Nat.min (length acc) (length acc + length [mkRGBA 0 0 0 0]))
          with (length acc) in P by lia.
        rewrite Nat.sub_diag in P. cbn [firstn] in P. rewrite app_nil_r in P.
        exact P. }
      split; [intros C; discriminate C | exact Hk].
    + change (mkReader src None) with (newReader src).
      unfold vr_bind. rewrite ReadUint8_step.
      destruct src as [| b0 src].
      { rewrite !(ReadUint8_latched (mkReader [] (Some EOF)) EOF eq_refl).
        destruct (IH (acc ++ [mkRGBA 0 0 0 0]) (mkReader [] (Some EOF)))
          as [acc' [vr' [E [L [P [_ Hk]]]]]].
        exists acc', vr'. split; [exact E |].
        rewrite length_app in L. cbn [length] in L. split; [lia |].
        split.
        { rewrite length_app in P. apply (f_equal (firstn (length acc))) in P.
          rewrite firstn_firstn in P. rewrite firstn_app, firstn_all in P.
          replace (Nat.min (length acc) (length acc + length [mkRGBA 0 0 0 0]))
            with (length acc) in P by lia.
          rewrite Nat.sub_diag in P. cbn [firstn] in P. rewrite app_nil_r in P.
          exact P. }
        split; [| intros C; exfalso; apply C; reflexivity].
        intros _. cbn [r length newReader].
        assert (Hne : err vr' <> None) by (apply Hk; discriminate).
        split; [split; [intros C; contradiction | intros C; exfalso; lia] | intros C; contradiction]. }
      rewrite ReadUint8_step. destruct src as [| b1 src].
      { rewrite !(ReadUint8_latched (mkReader [] (Some EOF)) EOF eq_refl).
        destruct (IH (acc ++ [mkRGBA (byte_val b0) 0 0 0]) (mkReader [] (Some EOF)))
          as [acc' [vr' [E [L [P [_ Hk]]]]]].
        exists acc', vr'. split; [exact E |].
        rewrite length_app in L. cbn [length] in L. split; [lia |].
        split.
        { rewrite length_app in P. apply (f_equal (firstn (length acc))) in P.
          rewrite firstn_firstn in P. rewrite firstn_app, firstn_all in P.
          replace (Nat.min (length acc) (length acc + length [mkRGBA (byte_val b0) 0 0 0]))
            with (length acc) in P by lia.
          rewrite Nat.sub_diag in P. cbn [firstn] in P. rewrite app_nil_r in P.
          exact P. }
        split; [| intros C; exfalso; apply C; reflexivity].
        intros _. cbn [r length newReader].
        assert (Hne : err vr' <> None) by (apply Hk; discriminate).
        split; [split; [intros C; contradiction | intros C; exfalso; lia] | intros C; contradiction]. }
      rewrite ReadUint8_step. destruct src as [| b2 src].
      { rewrite !(ReadUint8_latched (mkReader [] (Some EOF)) EOF eq_refl).
        destruct (IH (acc ++ [mkRGBA (byte_val b0) (byte_val b1) 0 0])
                    (mkReader [] (Some EOF)))
          as [acc' [vr' [E [L [P [_ Hk]]]]]].
        exists acc', vr'. split; [exact E |].
        rewrite length_app in L. cbn [length] in L. split; [lia |].
        split.
        { rewrite length_app in P. apply (f_equal (firstn (length acc))) in P.
          rewrite firstn_firstn in P. rewrite firstn_app, firstn_all in P.
          replace (Nat.min (length acc)
                     (length acc + length [mkRGBA (byte_val b0) (byte_val b1) 0 0]))
            with (length acc) in P by lia.
          rewrite Nat.sub_diag in P. cbn [firstn] in P. rewrite app_nil_r in P.
          exact P. }
        split; [| intros C; exfalso; apply C; reflexivity].
        intros _. cbn [r length newReader].
        assert (Hne : err vr' <> None) by (apply Hk; discriminate).
        split; [split; [intros C; contradiction | intros C; exfalso; lia] | intros C; contradiction]. }
      rewrite ReadUint8_step. destruct src as [| b3 src].
      { destruct (IH (acc ++ [mkRGBA (byte_val b0) (byte_val b1) (byte_val b2) 0])
                    (mkReader [] (Some EOF)))
          as [acc' [vr' [E [L [P [_ Hk]]]]]].
        exists acc', vr'. split; [exact E |].
        rewrite length_app in L. cbn [length] in L. split; [lia |].
        split.
        { rewrite length_app in P. apply (f_equal (firstn (length acc))) in P.
          rewrite firstn_firstn in P. rewrite firstn_app, firstn_all in P.
          replace (Nat.min (length acc)
                     (length acc
                      + length [mkRGBA (byte_val b0) (byte_val b1) (byte_val b2) 0]))
            with (length acc) in P by lia.
          rewrite Nat.sub_diag in P. cbn [firstn] in P. rewrite app_nil_r in P.
          exact P. }
        split; [| intros C; exfalso; apply C; reflexivity].
        intros _. cbn [r length newReader].
        assert (Hne : err vr' <> None) by (apply Hk; discriminate).
        split; [split; [intros C; contradiction | intros C; exfalso; lia] | intros C; contradiction]. }
      destruct (IH (acc ++ [mkRGBA (byte_val b0) (byte_val b1) (byte_val b2) (byte_val b3)])
                  (newReader src))
        as [acc' [vr' [E [L [P [Hok _]]]]]].
      exists acc', vr'. split; [exact E |].
      rewrite length_app in L. cbn [length] in L. split; [lia |].
      split.
      { rewrite length_app in P. apply (f_equal (firstn (length acc))) in P.
        rewrite firstn_firstn in P. rewrite firstn_app, firstn_all in P.
        match type of P with context [Nat.min ?a ?b] =>
          replace (Nat.min a b) with (length acc) in P by (cbn [length]; lia) end.
        rewrite Nat.sub_diag in P. cbn [firstn] in P. rewrite app_nil_r in P.
        exact P. }
      split; [| intros C; exfalso; apply C; reflexivity].
      intros _. destruct (Hok eq_refl) as [Hiff Hrest]. cbn [r newReader] in *.
      split.
      * rewrite Hiff. cbn [length]. lia.
      * intros He. rewrite (Hrest He).
        replace (4 * S n)%nat with (4 * n + 4)%nat by lia.
        rewrite <- skipn_skipn. reflexivity.
Qed.

(** [parseRGBAChunk] always answers 256 colours; its error is nil exactly
    for a content of 1024 bytes. *)
Theorem parseRGBAChunk_error_iff_1024 (c : bytes) :
  exists cols e,
    parseRGBAChunk c = Done (cols, e)
    /\ length cols = 256%nat
    /\ (e = None <-> length c = 1024%nat).
Proof.
  unfold parseRGBAChunk.
  destruct (parseRGBA_loop_spec 256 [] (newReader c))
    as [cols [vr' [E [L [_ [Hok _]]]]]].
  specialize (Hok eq_refl). destruct Hok as [Hiff Hrest].
  cbn [r newReader length] in *.
  unfold vr_bind at 1. rewrite E.
  destruct vr' as [src' [e' |]]; cbn [err r] in *.
  - (* the loop latched an error *)
    unfold vr_bind, RequireEOF, Error, vr_ret. cbn [err].
    exists cols, (Some e'). split; [reflexivity |]. split; [exact L |].
    split; [discriminate |]. intros Hc. exfalso.
    assert (C : Some e' = @None error) by (apply Hiff; lia). discriminate C.
  - assert (Hlen : (1024 <= length c)%nat) by (apply Hiff; reflexivity).
    specialize (Hrest eq_refl). subst src'.
    change (mkReader (skipn (4 * 256) c) None) with (newReader (skipn (4 * 256) c)).
    unfold vr_bind at 1. rewrite RequireEOF_outcomes.
    destruct (skipn (4 * 256) c) as [| b rest] eqn:Es.
    + exists cols, None. split; [reflexivity |]. split; [exact L |].
      split; [| reflexivity]. intros _.
      apply (f_equal (@length byte)) in Es. rewrite length_skipn in Es.
      cbn [length] in Es. lia.
    + eexists cols, (Some _). split; [reflexivity |]. split; [exact L |].
      split; [discriminate |]. intros Hc. exfalso.
      apply (f_equal (@length byte)) in Es. rewrite length_skipn in Es.
      cbn [length] in Es. lia.
Qed.

Section PaletteAccepted.
Context {F : Float32Ops}.

End PaletteAccepted.


Lemma in_cuboidb_spec (min max c : vec3) :
  in_cuboidb min max c = true <->
  vget min 0 <= vget c 0 <= vget max 0
  /\ vget min 1 <= vget c 1 <= vget max 1
  /\ vget min 2 <= vget c 2 <= vget max 2.
Proof.
  unfold in_cuboidb. rewrite !andb_true_iff, !Z.leb_le. tauto.
Qed.

(** What the bounds test and the index of [MaterialIndex] and
    [SetMaterialIndex] come to when nothing wraps. *)
Lemma world_address (min max c : vec3) :
  vec_ok min -> vec_ok max -> in_cuboidb min max min = true ->
  volume min max < 2 ^ 63 -> vec_ok c ->
  let SX := int_add (int_sub (vget max 0) (vget min 0)) 1 in
  let SY := int_add (int_sub (vget max 1) (vget min 1)) 1 in
  let SZ := int_add (int_sub (vget max 2) (vget min 2)) 1 in
  let x := int_sub (vget c 0) (vget min 0) in
  let y := int_sub (vget c 1) (vget min 1) in
  let z := int_sub (vget c 2) (vget min 2) in
  ((x <? 0) || (x >=? SX) || (y <? 0) || (y >=? SY) || (z <? 0) || (z >=? SZ))
    = negb (in_cuboidb min max c)
  /\ (in_cuboidb min max c = true ->
      int_add (int_add (int_mul z (int_mul SX SY)) (int_mul y SX)) x
        = offset_of min max c
      /\ 0 <= offset_of min max c < volume min max).
Proof.
  intros [m0 [m1 m2]] [M0 [M1 M2]] Hord Hvol [c0 [c1 c2]].
  apply in_cuboidb_spec in Hord. destruct Hord as [O0 [O1 O2]].
  unfold coord_ok in *.
  cbv zeta.
  assert (Hext : 0 < extent min max 0 < 2 ^ 63 /\ 0 < extent min max 1 < 2 ^ 63
                 /\ 0 < extent min max 2 < 2 ^ 63).
  { pose proof (product_ge_factor (extent min max 0) (extent min max 1)
                  (extent min max 2) ltac:(unfold extent; lia)
                  ltac:(unfold extent; lia) ltac:(unfold extent; lia)) as Hp.
    unfold volume in Hvol. unfold extent in *. lia. }
  destruct Hext as [X0' [X1' X2']].
  assert (E0 : int_add (int_sub (vget max 0) (vget min 0)) 1 = extent min max 0)
    by (unfold extent in *; unwrap; reflexivity).
  assert (E1 : int_add (int_sub (vget max 1) (vget min 1)) 1 = extent min max 1)
    by (unfold extent in *; unwrap; reflexivity).
  assert (E2 : int_add (int_sub (vget max 2) (vget min 2)) 1 = extent min max 2)
    by (unfold extent in *; unwrap; reflexivity).
  assert (X0 : int_sub (vget c 0) (vget min 0) = vget c 0 - vget min 0)
    by (unwrap; reflexivity).
  assert (X1 : int_sub (vget c 1) (vget min 1) = vget c 1 - vget min 1)
    by (unwrap; reflexivity).
  assert (X2 : int_sub (vget c 2) (vget min 2) = vget c 2 - vget min 2)
    by (unwrap; reflexivity).
  rewrite E0, E1, E2, X0, X1, X2.
  split.
  - unfold in_cuboidb, extent.
    repeat match goal with
           | |- context [?a <? ?b] => destruct (Z.ltb_spec a b)
           | |- context [?a >=? ?b] => rewrite (Z.geb_leb a b)
           | |- context [?a <=? ?b] => destruct (Z.leb_spec a b)
           end; cbn [orb andb negb]; try reflexivity; lia.
  - intros Hin. apply in_cuboidb_spec in Hin. destruct Hin as [I0 [I1 I2]].
    unfold volume in *.
    set (A := extent min max 0) in *. set (B := extent min max 1) in *.
    set (C := extent min max 2) in *.
    assert (HA : 0 < A) by (unfold A, extent; lia).
    assert (HB : 0 < B) by (unfold B, extent; lia).
    assert (HC : 0 < C) by (unfold C, extent; lia).
    pose proof (mixed_radix_bounds A B C (vget c 0 - vget min 0)
                  (vget c 1 - vget min 1) (vget c 2 - vget min 2)
                  ltac:(unfold A, extent; lia) ltac:(unfold B, extent; lia)
                  ltac:(unfold C, extent; lia)) as Hb.
    pose proof (product_ge_factor A B C HA HB HC) as [_ [_ [_ HAB]]].
    assert (0 < A * B) by (apply Z.mul_pos_pos; lia).
    assert (0 <= (vget c 2 - vget min 2) * (A * B))
      by (apply Z.mul_nonneg_nonneg; lia).
    assert (0 <= (vget c 1 - vget min 1) * A)
      by (apply Z.mul_nonneg_nonneg; lia).
    unfold offset_of. fold A B.
    split; [| exact Hb].
    set (u := (vget c 2 - vget min 2) * (A * B)) in *.
    set (w := (vget c 1 - vget min 1) * A) in *.
    unfold int_add, int_mul.
    rewrite (wrap64_id (A * B)) by (unfold is_int; lia).
    fold u. rewrite (wrap64_id u) by (unfold is_int; lia).
    fold w. rewrite (wrap64_id w) by (unfold is_int; lia).
    rewrite (wrap64_id (u + w)) by (unfold is_int; lia).
    rewrite (wrap64_id (u + w + _)) by (unfold is_int; lia).
    reflexivity.
Qed.

Lemma MaterialIndex_spec (d : DenseWorld) (c : vec3) :
  world_ok d -> vec_ok c ->
  MaterialIndex d c
  = Done (if in_cuboidb (Min d) (Max d) c then (cell d c, true) else (0, false)).
Proof.
  intros [Hmin [Hmax [Hord [Hvol Hlen]]]] Hc.
  destruct (world_address (Min d) (Max d) c Hmin Hmax Hord Hvol Hc) as [Ht Hi].
  cbv zeta in Ht, Hi. unfold MaterialIndex. cbv zeta. rewrite Ht.
  destruct (in_cuboidb (Min d) (Max d) c) eqn:E; cbn [negb]; [| reflexivity].
  destruct (Hi eq_refl) as [-> Hb].
  unfold index_get, exec_bind, cell.
  assert (Hin : (offset_of (Min d) (Max d) c <? 0)
                || (Z.of_nat (length (Voxels d)) <=? offset_of (Min d) (Max d) c)
                = false).
  { rewrite orb_false_iff, Z.ltb_ge, Z.leb_gt. lia. }
  rewrite Hin.
  destruct (nth_error (Voxels d) (Z.to_nat (offset_of (Min d) (Max d) c))) eqn:En.
  - rewrite (nth_error_nth _ _ 0 En). reflexivity.
  - apply nth_error_None in En. lia.
Qed.

Lemma SetMaterialIndex_spec (d : DenseWorld) (c : vec3) (v : Z) :
  world_ok d -> vec_ok c ->
  SetMaterialIndex d c v
  = Done (if in_cuboidb (Min d) (Max d) c
          then (mkDenseWorld (Min d) (Max d)
                  (list_set (Voxels d) (Z.to_nat (offset_of (Min d) (Max d) c)) v),
                true)
          else (d, false)).
Proof.
  intros [Hmin [Hmax [Hord [Hvol Hlen]]]] Hc.
  destruct (world_address (Min d) (Max d) c Hmin Hmax Hord Hvol Hc) as [Ht Hi].
  cbv zeta in Ht, Hi. unfold SetMaterialIndex. cbv zeta. rewrite Ht.
  destruct (in_cuboidb (Min d) (Max d) c) eqn:E; cbn [negb]; [| reflexivity].
  destruct (Hi eq_refl) as [-> Hb].
  unfold index_set, exec_bind.
  assert (Hin : (offset_of (Min d) (Max d) c <? 0)
                || (Z.of_nat (length (Voxels d)) <=? offset_of (Min d) (Max d) c)
                = false).
  { rewrite orb_false_iff, Z.ltb_ge, Z.leb_gt. lia. }
  rewrite Hin. reflexivity.
Qed.

Lemma offset_of_inj (min max c c' : vec3) :
  in_cuboidb min max c = true -> in_cuboidb min max c' = true ->
  offset_of min max c = offset_of min max c' -> c = c'.
Proof.
  intros H H' E. apply in_cuboidb_spec in H, H'.
  unfold offset_of in E.
  destruct (mixed_radix_inj (extent min max 0) (extent min max 1)
              (vget c 0 - vget min 0) (vget c 1 - vget min 1) (vget c 2 - vget min 2)
              (vget c' 0 - vget min 0) (vget c' 1 - vget min 1) (vget c' 2 - vget min 2)
              ltac:(unfold extent; lia) ltac:(unfold extent; lia)
              ltac:(unfold extent; lia) ltac:(unfold extent; lia) E)
    as [E0 [E1 E2]].
  apply vec3_ext; lia.
Qed.

Lemma vec3_eqb_true (a b : vec3) : vec3_eqb a b = true <-> a = b.
Proof.
  split; [apply vec3_eqb_eq |]. intros ->. unfold vec3_eqb.
  rewrite !Z.eqb_refl. reflexivity.
Qed.

Lemma world_ok_set (d : DenseWorld) (k : nat) (v : Z) :
  world_ok d -> (k < length (Voxels d))%nat ->
  world_ok (mkDenseWorld (Min d) (Max d) (list_set (Voxels d) k v)).
Proof.
  intros [Hmin [Hmax [Hord [Hvol Hlen]]]] Hk.
  unfold world_ok. cbn [Min Max Voxels].
  rewrite list_set_length by exact Hk.
  split; [exact Hmin |]. split; [exact Hmax |]. split; [exact Hord |].
  split; [exact Hvol | exact Hlen].
Qed.

(** A cell that was set reads back, and no other cell changes: the world
    [d] holds one cell for each point of its cuboid, [c] and [c'] are any
    two points.  Setting outside the cuboid reports [false] and changes
    nothing. *)
Theorem SetMaterialIndex_then_MaterialIndex
    (d : DenseWorld) (c c' : vec3) (v : Z) :
  world_ok d -> vec_ok c -> vec_ok c' ->
  exists d',
    SetMaterialIndex d c v = Done (d', in_cuboidb (Min d) (Max d) c)
    /\ world_ok d' /\ Min d' = Min d /\ Max d' = Max d
    /\ (in_cuboidb (Min d) (Max d) c = false -> d' = d)
    /\ MaterialIndex d' c'
       = if in_cuboidb (Min d) (Max d) c && vec3_eqb c c'
         then Done (v, true) else MaterialIndex d c'.
Proof.
  intros Hd Hc Hc'.
  rewrite (SetMaterialIndex_spec d c v Hd Hc).
  destruct (in_cuboidb (Min d) (Max d) c) eqn:Ein.
  - destruct Hd as [Hmin [Hmax [Hord [Hvol Hlen]]]].
    destruct (world_address (Min d) (Max d) c Hmin Hmax Hord Hvol Hc) as [_ Hi].
    cbv zeta in Hi. destruct (Hi Ein) as [_ Hb].
    assert (Hd : world_ok d).
    { split; [exact Hmin |]. split; [exact Hmax |]. split; [exact Hord |].
      split; [exact Hvol | exact Hlen]. }
    assert (Hk : (Z.to_nat (offset_of (Min d) (Max d) c) < length (Voxels d))%nat)
      by lia.
    pose proof (world_ok_set d _ v Hd Hk) as Hd'.
    eexists. split; [reflexivity |]. split; [exact Hd' |].
    split; [reflexivity |]. split; [reflexivity |].
    split; [discriminate |].
    rewrite (MaterialIndex_spec _ c' Hd' Hc'), (MaterialIndex_spec d c' Hd Hc').
    cbn [Min Max andb].
    destruct (vec3_eqb c c') eqn:Eeq.
    + apply vec3_eqb_true in Eeq. subst c'. rewrite Ein.
      unfold cell. cbn [Min Max Voxels].
      rewrite list_set_nth_same by exact Hk. reflexivity.
    + destruct (in_cuboidb (Min d) (Max d) c') eqn:Ein'; [| reflexivity].
      unfold cell. cbn [Min Max Voxels].
      destruct (world_address (Min d) (Max d) c' Hmin Hmax Hord Hvol Hc') as [_ Hi'].
      cbv zeta in Hi'. destruct (Hi' Ein') as [_ Hb'].
      rewrite list_set_nth_other; [reflexivity | exact Hk |].
      intros C.
      assert (E : offset_of (Min d) (Max d) c' = offset_of (Min d) (Max d) c) by lia.
      apply (offset_of_inj _ _ _ _ Ein' Ein) in E. subst c'.
      rewrite (proj2 (vec3_eqb_true c c) eq_refl) in Eeq. discriminate.
  - exists d. split; [reflexivity |]. split; [exact Hd |].
    split; [reflexivity |]. split; [reflexivity |].
    split; [reflexivity |]. reflexivity.
Qed.

Lemma SetMaterialIndex_then_MaterialIndex_witness :
  exists d',
    SetMaterialIndex (mkDenseWorld (0, 0, 0) (1, 1, 1) (repeat 0 8)) (1, 0, 1) 7
      = Done (d', true)
    /\ MaterialIndex d' (1, 0, 1) = Done (7, true).
Proof.
  destruct (SetMaterialIndex_then_MaterialIndex
              (mkDenseWorld (0, 0, 0) (1, 1, 1) (repeat 0 8)) (1, 0, 1) (1, 0, 1) 7)
    as [d' [H1 [_ [_ [_ [_ H2]]]]]].
  - unfold world_ok, vec_ok, coord_ok. cbn [Min Max Voxels vget Z.eqb Pos.eqb].
    repeat split; try lia; reflexivity.
  - unfold vec_ok, coord_ok. cbn [vget Z.eqb Pos.eqb]. lia.
  - unfold vec_ok, coord_ok. cbn [vget Z.eqb Pos.eqb]. lia.
  - exists d'. split; [exact H1 | exact H2].
Defined.

Lemma NewDenseWorld_value (min max : vec3) :
  vec_ok min -> vec_ok max -> in_cuboidb min max min = true ->
  volume min max < 2 ^ 63 ->
  NewDenseWorld min max
  = Ok (mkDenseWorld min max (repeat 0 (Z.to_nat (volume min max)))).
Proof.
  intros [m0 [m1 m2]] [M0 [M1 M2]] Hord Hvol.
  pose proof Hord as Hord'.
  apply in_cuboidb_spec in Hord. destruct Hord as [O0 [O1 O2]].
  unfold coord_ok in *.
  pose proof (product_ge_factor (extent min max 0) (extent min max 1)
                (extent min max 2) ltac:(unfold extent; lia)
                ltac:(unfold extent; lia) ltac:(unfold extent; lia))
    as [P0 [P1 [P2 P01]]].
  unfold NewDenseWorld.
  rewrite (proj2 (Z.ltb_ge _ _) (proj2 O0)), (proj2 (Z.ltb_ge _ _) (proj2 O1)),
    (proj2 (Z.ltb_ge _ _) (proj2 O2)). cbn [orb]. cbv zeta.
  unfold volume in *.
  assert (E0 : int_add (int_sub (vget max 0) (vget min 0)) 1 = extent min max 0)
    by (unfold extent in *; unwrap; reflexivity).
  assert (E1 : int_add (int_sub (vget max 1) (vget min 1)) 1 = extent min max 1)
    by (unfold extent in *; unwrap; reflexivity).
  assert (E2 : int_add (int_sub (vget max 2) (vget min 2)) 1 = extent min max 2)
    by (unfold extent in *; unwrap; reflexivity).
  rewrite E0, E1, E2.
  set (A := extent min max 0) in *. set (B := extent min max 1) in *.
  set (C := extent min max 2) in *.
  assert (0 < A * B) by (apply Z.mul_pos_pos; unfold A, B, extent; lia).
  assert (0 < A * B * C) by (apply Z.mul_pos_pos; unfold C, extent; lia).
  unfold int_mul.
  rewrite (wrap64_id (A * B)) by (unfold is_int; lia).
  rewrite (wrap64_id (A * B * C)) by (unfold is_int; lia).
  rewrite make_nonneg by lia. reflexivity.
Qed.

Lemma world_ok_new (min max : vec3) :
  vec_ok min -> vec_ok max -> in_cuboidb min max min = true ->
  volume min max < 2 ^ 63 ->
  world_ok (mkDenseWorld min max (repeat 0 (Z.to_nat (volume min max)))).
Proof.
  intros Hmin Hmax Hord Hvol. unfold world_ok. cbn [Min Max Voxels].
  rewrite repeat_length.
  split; [exact Hmin |]. split; [exact Hmax |]. split; [exact Hord |].
  split; [exact Hvol |].
  apply in_cuboidb_spec in Hord. unfold vec_ok, coord_ok in *.
  pose proof (product_ge_factor (extent min max 0) (extent min max 1)
                (extent min max 2) ltac:(unfold extent; lia)
                ltac:(unfold extent; lia) ltac:(unfold extent; lia)).
  unfold volume in *. unfold extent in *. lia.
Qed.



(** The coordinates [Resize] recovers from an index. *)
Lemma index_decode (A B C k : Z) :
  0 < A -> 0 < B -> 0 < C -> 0 <= k < A * B * C ->
  0 <= k mod A < A /\ 0 <= (k / A) mod B < B /\ 0 <= (k / A) / B < C
  /\ ((k / A) / B) * (A * B) + ((k / A) mod B) * A + k mod A = k.
Proof.
  intros HA HB HC Hk.
  pose proof (Z.mod_pos_bound k A HA).
  pose proof (Z.div_mod k A ltac:(lia)) as D1.
  assert (0 <= k / A) by (apply Z.div_pos; lia).
  pose proof (Z.mod_pos_bound (k / A) B HB).
  pose proof (Z.div_mod (k / A) B ltac:(lia)) as D2.
  assert (0 <= k / A / B) by (apply Z.div_pos; lia).
  assert (k / A < B * C).
  { apply Z.div_lt_upper_bound; [lia |]. lia. }
  assert (k / A / B < C).
  { apply Z.div_lt_upper_bound; lia. }
  repeat split; lia.
Qed.

(** One turn of the loop of [Resize] in a world of positive extents. *)
Lemma Resize_step (dmin dmax : vec3) (k : Z) :
  vec_ok dmin -> vec_ok dmax -> in_cuboidb dmin dmax dmin = true ->
  volume dmin dmax < 2 ^ 63 -> 0 <= k < volume dmin dmax ->
  let SX := extent dmin dmax 0 in
  let SY := extent dmin dmax 1 in
  let x := int_rem k SX in
  let q := int_quot (int_sub k x) SX in
  let p := (int_add x (vget dmin 0), int_add (int_rem q SY) (vget dmin 1),
            int_add (int_quot q SY) (vget dmin 2)) in
  SX <> 0 /\ SY <> 0 /\ vec_ok p /\ in_cuboidb dmin dmax p = true
  /\ offset_of dmin dmax p = k.
Proof.
  intros [m0 [m1 m2]] [M0 [M1 M2]] Hord Hvol Hk. cbv zeta.
  apply in_cuboidb_spec in Hord. destruct Hord as [O0 [O1 O2]].
  unfold coord_ok in *. unfold volume in *.
  set (A := extent dmin dmax 0) in *. set (B := extent dmin dmax 1) in *.
  set (C := extent dmin dmax 2) in *.
  assert (HA : 0 < A) by (unfold A, extent; lia).
  assert (HB : 0 < B) by (unfold B, extent; lia).
  assert (HC : 0 < C) by (unfold C, extent; lia).
  destruct (index_decode A B C k HA HB HC Hk) as [Dx [Dy [Dz Dk]]].
  assert (Ex : int_rem k A = k mod A).
  { unfold int_rem. rewrite Z.rem_mod_nonneg by lia.
    apply wrap64_id. unfold is_int. lia. }
  assert (Eq : int_quot (int_sub k (k mod A)) A = k / A).
  { unfold int_quot, int_sub.
    pose proof (Z.div_mod k A ltac:(lia)) as D1.
    assert (0 <= k / A) by (apply Z.div_pos; lia).
    assert (k / A <= k).
    { apply Z.div_le_upper_bound; [lia |]. nia. }
    rewrite (wrap64_id (k - k mod A)) by (unfold is_int; lia).
    replace (k - k mod A) with (k / A * A) by lia.
    rewrite Z.quot_div_nonneg by nia.
    rewrite Z.div_mul by lia. apply wrap64_id. unfold is_int. lia. }
  assert (Hq : 0 <= k / A <= k).
  { split; [apply Z.div_pos; lia |].
    apply Z.div_le_upper_bound; [lia |].
    assert (0 <= k / A) by (apply Z.div_pos; lia). nia. }
  assert (Ey : int_rem (k / A) B = (k / A) mod B).
  { unfold int_rem. rewrite Z.rem_mod_nonneg by lia.
    apply wrap64_id. unfold is_int. lia. }
  assert (Ez : int_quot (k / A) B = k / A / B).
  { unfold int_quot. rewrite Z.quot_div_nonneg by lia.
    apply wrap64_id. unfold is_int. lia. }
  rewrite Ex, Eq, Ey, Ez.
  assert (P0 : int_add (k mod A) (vget dmin 0) = k mod A + vget dmin 0)
    by (unfold A, extent in *; unwrap; reflexivity).
  assert (P1 : int_add (k / A mod B) (vget dmin 1) = k / A mod B + vget dmin 1)
    by (unfold B, extent in *; unwrap; reflexivity).
  assert (P2 : int_add (k / A / B) (vget dmin 2) = k / A / B + vget dmin 2)
    by (unfold C, extent in *; unwrap; reflexivity).
  rewrite P0, P1, P2.
  split; [lia |]. split; [lia |].
  split.
  { unfold vec_ok, coord_ok. cbn [vget Z.eqb Pos.eqb].
    unfold A, B, C, extent in *. lia. }
  split.
  { apply in_cuboidb_spec. cbn [vget Z.eqb Pos.eqb].
    unfold A, B, C, extent in *. lia. }
  unfold offset_of. cbn [vget Z.eqb Pos.eqb]. fold A B.
  rewrite <- Dk at 4. f_equal; [f_equal |]; [f_equal; lia | f_equal; lia | lia].
Qed.

Lemma extent_code (min max : vec3) :
  vec_ok min -> vec_ok max -> in_cuboidb min max min = true ->
  volume min max < 2 ^ 63 ->
  int_add (int_sub (vget max 0) (vget min 0)) 1 = extent min max 0
  /\ int_add (int_sub (vget max 1) (vget min 1)) 1 = extent min max 1
  /\ int_add (int_sub (vget max 2) (vget min 2)) 1 = extent min max 2.
Proof.
  intros [m0 [m1 m2]] [M0 [M1 M2]] Hord Hvol.
  apply in_cuboidb_spec in Hord. destruct Hord as [O0 [O1 O2]].
  unfold coord_ok in *.
  pose proof (product_ge_factor (extent min max 0) (extent min max 1)
                (extent min max 2) ltac:(unfold extent; lia)
                ltac:(unfold extent; lia) ltac:(unfold extent; lia)) as Hp.
  unfold volume in Hvol. unfold extent in *.
  repeat split; unwrap; reflexivity.
Qed.

Lemma skipn_cons_nth (l : list Z) (k : nat) (v : Z) (rest : list Z) :
  skipn k l = v :: rest ->
  (k < length l)%nat /\ nth k l 0 = v /\ rest = skipn (S k) l.
Proof.
  revert l. induction k as [| k IH]; intros l H.
  - destruct l as [| a l']; [discriminate |]. cbn [skipn] in H.
    injection H as -> ->. cbn [length nth skipn]. repeat split. lia.
  - destruct l as [| a l']; [discriminate |]. cbn [skipn] in H.
    destruct (IH l' H) as [H1 [H2 H3]]. cbn [length nth].
    repeat split; [lia | exact H2 | exact H3].
Qed.

Section ResizeLoop.
Variables (d : DenseWorld) (min max : vec3).
Hypothesis Hd : world_ok d.
Hypothesis Hmin : vec_ok min.
Hypothesis Hmax : vec_ok max.
Hypothesis Hord : in_cuboidb min max min = true.
Hypothesis Hvol : volume min max < 2 ^ 63.

Lemma Resize_loop_spec (rest : list Z) :
  forall (k : nat) (g : list Z),
    rest = skipn k (Voxels d) ->
    Z.of_nat (length g) = volume min max ->
    (forall c, vec_ok c -> in_cuboidb min max c = true ->
       nth (Z.to_nat (offset_of min max c)) g 0
       = if in_cuboidb (Min d) (Max d) c
            && (offset_of (Min d) (Max d) c <? Z.of_nat k)
         then cell d c else 0) ->
    exists g',
      Resize_loop (Min d) (extent (Min d) (Max d) 0) (extent (Min d) (Max d) 1)
        (Z.of_nat k) rest (mkDenseWorld min max g)
      = Resized (mkDenseWorld min max g') None
      /\ Z.of_nat (length g') = volume min max
      /\ forall c, vec_ok c -> in_cuboidb min max c = true ->
           nth (Z.to_nat (offset_of min max c)) g' 0 = carried d c.
Proof.
  destruct Hd as [Dmin [Dmax [Dord [Dvol Dlen]]]].
  induction rest as [| v rest' IH]; intros k g Hrest Hlen Hinv.
  - exists g. split; [reflexivity |]. split; [exact Hlen |].
    intros c Hc Hin. rewrite (Hinv c Hc Hin). unfold carried.
    destruct (in_cuboidb (Min d) (Max d) c) eqn:Eold; [| reflexivity].
    destruct (world_address (Min d) (Max d) c Dmin Dmax Dord Dvol Hc) as [_ Hi].
    cbv zeta in Hi. destruct (Hi Eold) as [_ Hb].
    assert (Hk : (length (Voxels d) <= k)%nat).
    { destruct (Nat.le_gt_cases (length (Voxels d)) k) as [Hle | Hgt]; [exact Hle |].
      exfalso. symmetry in Hrest. apply (f_equal (@length Z)) in Hrest.
      rewrite length_skipn in Hrest. cbn [length] in Hrest. lia. }
    cbn [andb].
    destruct (Z.ltb_spec (offset_of (Min d) (Max d) c) (Z.of_nat k));
      [reflexivity | lia].
  - symmetry in Hrest.
    destruct (skipn_cons_nth _ _ _ _ Hrest) as [Hk [Hv Hrest']].
    destruct (Resize_step (Min d) (Max d) (Z.of_nat k) Dmin Dmax Dord Dvol
                ltac:(lia)) as [SX0 [SY0 [Hp [Hpin Hpoff]]]].
    cbv zeta in Hp, Hpin, Hpoff.
    cbn [Resize_loop].
    rewrite (proj2 (Z.eqb_neq _ _) SX0), (proj2 (Z.eqb_neq _ _) SY0).
    cbv zeta.
    set (p := (int_add (int_rem (Z.of_nat k) (extent (Min d) (Max d) 0))
                 (vget (Min d) 0),
               int_add
                 (int_rem
                    (int_quot
                       (int_sub (Z.of_nat k)
                          (int_rem (Z.of_nat k) (extent (Min d) (Max d) 0)))
                       (extent (Min d) (Max d) 0)) (extent (Min d) (Max d) 1))
                 (vget (Min d) 1),
               int_add
                 (int_quot
                    (int_quot
                       (int_sub (Z.of_nat k)
                          (int_rem (Z.of_nat k) (extent (Min d) (Max d) 0)))
                       (extent (Min d) (Max d) 0)) (extent (Min d) (Max d) 1))
                 (vget (Min d) 2))) in *.
    assert (Hw : world_ok (mkDenseWorld min max g)).
    { unfold world_ok. cbn [Min Max Voxels].
      split; [exact Hmin |]. split; [exact Hmax |]. split; [exact Hord |].
      split; [exact Hvol | exact Hlen]. }
    rewrite (SetMaterialIndex_spec _ p v Hw Hp). cbn [Min Max Voxels].
    assert (Hcond : forall c, vec_ok c -> c <> p ->
              in_cuboidb (Min d) (Max d) c
                && (offset_of (Min d) (Max d) c <? Z.of_nat (S k))
              = in_cuboidb (Min d) (Max d) c
                && (offset_of (Min d) (Max d) c <? Z.of_nat k)).
    { intros c Hc Hne.
      destruct (in_cuboidb (Min d) (Max d) c) eqn:Eold; [| reflexivity].
      cbn [andb].
      destruct (Z.ltb_spec (offset_of (Min d) (Max d) c) (Z.of_nat (S k)));
        destruct (Z.ltb_spec (offset_of (Min d) (Max d) c) (Z.of_nat k));
        try reflexivity; try lia.
      exfalso. apply Hne.
      apply (offset_of_inj (Min d) (Max d) c p Eold Hpin). lia. }
    replace (Z.of_nat k + 1) with (Z.of_nat (S k)) by lia.
    destruct (in_cuboidb min max p) eqn:Enew.
    + destruct (world_address min max p Hmin Hmax Hord Hvol Hp) as [_ Hi].
      cbv zeta in Hi. destruct (Hi Enew) as [_ Hb].
      assert (Hkn : (Z.to_nat (offset_of min max p) < length g)%nat) by lia.
      apply IH; [exact Hrest' | rewrite list_set_length by exact Hkn; exact Hlen |].
      intros c Hc Hin.
      destruct (vec3_eqb c p) eqn:Eeq.
      * apply vec3_eqb_true in Eeq. subst c.
        rewrite list_set_nth_same by exact Hkn. rewrite Hpin. cbn [andb].
        destruct (Z.ltb_spec (offset_of (Min d) (Max d) p) (Z.of_nat (S k)));
          [| lia].
        unfold cell. rewrite Hpoff, Nat2Z.id. symmetry. exact Hv.
      * assert (Hne : c <> p).
        { intros ->. rewrite (proj2 (vec3_eqb_true p p) eq_refl) in Eeq.
          discriminate. }
        destruct (world_address min max c Hmin Hmax Hord Hvol Hc) as [_ Hi'].
        cbv zeta in Hi'. destruct (Hi' Hin) as [_ Hb'].
        rewrite list_set_nth_other; [| exact Hkn |].
        -- rewrite (Hcond c Hc Hne). apply Hinv; assumption.
        -- intros C. apply Hne.
           apply (offset_of_inj min max c p Hin Enew). lia.
    + apply IH; [exact Hrest' | exact Hlen |].
      intros c Hc Hin.
      assert (Hne : c <> p).
      { intros ->. rewrite Hin in Enew. discriminate. }
      rewrite (Hcond c Hc Hne). apply Hinv; assumption.
Qed.
End ResizeLoop.

Lemma NewDenseWorld_refuses (min max : vec3) :
  in_cuboidb min max min = false -> exists e, NewDenseWorld min max = Err e.
Proof.
  unfold NewDenseWorld, in_cuboidb.
  rewrite !Z.leb_refl. cbn [andb].
  rewrite !(Z.ltb_antisym (vget min _) (vget max _)).
  destruct (vget min 0 <=? vget max 0), (vget min 1 <=? vget max 1),
    (vget min 2 <=? vget max 2); cbn [negb orb andb]; intros Hf;
    try discriminate; eexists; reflexivity.
Qed.



(** ** buildMain *)

Lemma skipn_nth_error {A} (l : list A) (k : nat) (x : A) :
  nth_error l k = Some x -> skipn k l = x :: skipn (S k) l.
Proof.
  revert l. induction k as [| k IH]; intros l H.
  - destruct l; [discriminate |]. cbn in H. injection H as ->. reflexivity.
  - destruct l; [discriminate |]. cbn [nth_error] in H. cbn [skipn].
    rewrite (IH l H). reflexivity.
Qed.

Lemma index_get_nth_error {A} (s : list A) (k : nat) :
  (k < length s)%nat ->
  exists x, nth_error s k = Some x /\ index_get s (Z.of_nat k) = Done x.
Proof.
  intros H. destruct (nth_error s k) as [x |] eqn:E.
  - exists x. split; [reflexivity |]. unfold index_get.
    destruct (Z.ltb_spec (Z.of_nat k) 0); [lia |].
    destruct (Z.leb_spec (Z.of_nat (length s)) (Z.of_nat k)); [lia |].
    cbn [orb]. rewrite Nat2Z.id, E. reflexivity.
  - apply nth_error_None in E. lia.
Qed.

Section BuildMain.
Context {F : Float32Ops}.

Lemma buildMain_loop_seq (rgba : list RGBA) (n : nat) :
  forall (a : nat) (mats : list Material),
    (1 <= a)%nat -> (a + n <= length mats)%nat ->
    (a - 1 + n <= length rgba)%nat ->
    buildMain_loop (map Z.of_nat (seq a n)) rgba mats
    = Done (firstn a mats
            ++ map (fun mc => set_Color (fst mc) (snd mc))
                 (combine (firstn n (skipn a mats)) (skipn (a - 1) rgba))
            ++ skipn (a + n) mats).
Proof.
  induction n as [| n IH]; intros a mats Ha Hm Hr.
  - cbn [seq map buildMain_loop firstn combine app].
    rewrite Nat.add_0_r, firstn_skipn. reflexivity.
  - cbn [seq map buildMain_loop].
    destruct (index_get_nth_error rgba (a - 1) ltac:(lia)) as [c [Ec Gc]].
    destruct (index_get_nth_error mats a ltac:(lia)) as [m [Em Gm]].
    replace (Z.of_nat a - 1) with (Z.of_nat (a - 1)) by lia.
    rewrite Gc, Gm. cbn [exec_bind].
    unfold index_set.
    destruct (Z.ltb_spec (Z.of_nat a) 0); [lia |].
    destruct (Z.leb_spec (Z.of_nat (length mats)) (Z.of_nat a)); [lia |].
    cbn [orb exec_bind]. rewrite Nat2Z.id.
    assert (Hlen : length (list_set mats a (set_Color m c)) = length mats)
      by (apply list_set_length; lia).
    rewrite IH by (rewrite ?Hlen; lia).
    f_equal.
    assert (Hf : length (firstn a mats) = a) by (rewrite length_firstn; lia).
    assert (E1 : firstn (S a) (list_set mats a (set_Color m c))
                 = firstn a mats ++ [set_Color m c]).
    { unfold list_set. rewrite firstn_app, Hf.
      rewrite (firstn_all2 (n := S a)) by lia.
      replace (S a - a)%nat with 1%nat by lia. reflexivity. }
    assert (E2 : forall j, skipn (S a + j) (list_set mats a (set_Color m c))
                           = skipn (S a + j) mats).
    { intros j. unfold list_set. rewrite skipn_app, Hf.
      rewrite (skipn_all2 (n := S a + j)) by lia.
      replace (S a + j - a)%nat with (S j) by lia.
      change (skipn (S j) (set_Color m c :: skipn (S a) mats))
        with (skipn j (skipn (S a) mats)).
      cbn [app]. rewrite skipn_skipn. f_equal. lia. }
    rewrite E1. rewrite (E2 n). pose proof (E2 0%nat) as E3.
    rewrite Nat.add_0_r in E3. rewrite E3.
    rewrite (skipn_nth_error mats a m Em).
    rewrite (skipn_nth_error rgba (a - 1) c Ec).
    replace (S (a - 1)) with a by lia.
    replace (S a - 1)%nat with a by lia.
    replace (a + S n)%nat with (S a + n)%nat by lia.
    cbn [firstn combine map fst snd]. rewrite <- app_assoc. reflexivity.
Qed.

Lemma buildMain_loop_app (rgba : list RGBA) (l1 l2 : list Z) :
  forall mats,
    buildMain_loop (l1 ++ l2) rgba mats
    = exec_bind (buildMain_loop l1 rgba mats) (buildMain_loop l2 rgba).
Proof.
  induction l1 as [| i l1 IH]; intros mats; [reflexivity |].
  cbn [app buildMain_loop].
  destruct (index_get rgba (i - 1)); [| reflexivity]. cbn [exec_bind].
  destruct (index_get mats i); [| reflexivity]. cbn [exec_bind].
  destruct (index_set mats i _); [| reflexivity]. cbn [exec_bind].
  apply IH.
Qed.

Lemma buildMain_idxs : map (fun i => i + 1) (upto 255) = map Z.of_nat (seq 1 255).
Proof. vm_compute. reflexivity. Qed.

(** [buildMain] in closed form.  It answers an error unless the palette
    has 256 entries; it then panics on the first material slot that is
    missing when there are fewer than 256 materials, and otherwise gives
    the materials 1..255 the colours 0..254 of the palette. *)
Theorem buildMain_outcomes (models : list Model) (rgba : list RGBA)
    (mats : list Material) (scene : Scene) :
  buildMain models rgba mats scene
  = if negb (Z.of_nat (length rgba) =? 256) then
      Err (Errorf "expected 256 palette entries, but found %d"
             [AInt (Z.of_nat (length rgba))])
    else if (length mats <? 256)%nat then
      Panic (IndexOutOfRange (Z.max 1 (Z.of_nat (length mats)))
               (Z.of_nat (length mats)))
    else Ok (mkMain models (recolour rgba mats) scene).
Proof.
  unfold buildMain.
  destruct (Z.eqb_spec (Z.of_nat (length rgba)) 256) as [Hr | Hr];
    cbn [negb]; [| reflexivity].
  rewrite buildMain_idxs.
  destruct (Nat.ltb_spec (length mats) 256) as [Hm | Hm].
  - destruct (length mats) as [| L] eqn:EL.
    + destruct mats; [| discriminate]. cbn [seq map buildMain_loop].
      destruct (index_get_nth_error rgba 0 ltac:(lia)) as [c [_ Gc]].
      change (Z.of_nat 1 - 1) with (Z.of_nat 0). rewrite Gc. reflexivity.
    + replace 255%nat with (L + (255 - L))%nat by lia.
      rewrite seq_app, map_app, buildMain_loop_app.
      rewrite buildMain_loop_seq by lia. cbn [exec_bind].
      replace (255 - L)%nat with (S (254 - L)) by lia.
      cbn [seq map buildMain_loop].
      destruct (index_get_nth_error rgba (1 + L - 1) ltac:(lia)) as [c [_ Gc]].
      replace (Z.of_nat (1 + L) - 1) with (Z.of_nat (1 + L - 1)) by lia.
      rewrite Gc. cbn [exec_bind].
      unfold index_get at 1.
      rewrite !length_app, length_map, length_combine, !length_firstn,
        !length_skipn.
      replace (Z.max 1 (Z.of_nat (S L))) with (Z.of_nat (1 + L)) by lia.
      assert (Hlen : (Nat.min 1 (length mats)
                      + (Nat.min (Nat.min L (length mats - 1))
                           (length rgba - (1 - 1))
                         + (length mats - (1 + L))))%nat = S L) by lia.
      rewrite Hlen.
      destruct (Z.ltb_spec (Z.of_nat (1 + L)) 0); [lia |].
      destruct (Z.leb_spec (Z.of_nat (S L)) (Z.of_nat (1 + L))); [| lia].
      reflexivity.
  - rewrite buildMain_loop_seq by lia. unfold recolour.
    cbn [Nat.sub skipn Nat.add]. reflexivity.
Qed.
End BuildMain.
